(** * Activity import of metrique's cube api

    A shallow embedding of the activity import of
    [src/metrique/metrique/cube_api.py]: [_activity_backwards],
    [_activity_import_doc] and the per-document loop of [_activity_import].

    Documents are Python dictionaries with string keys, so they are finite
    maps from strings to Python values.  A Python exception is [None] in the
    option monad; log calls are collected in a list of log records that is
    threaded through the code next to the batch. *)

From stdpp Require Import gmap strings list fin_maps sorting.
From Stdlib Require Import ZArith.

Set Warnings "-register-all,-clear-no-such-hyp".
#[local] Open Scope Z_scope.

(** ** Python values *)

(** The values a document or an activity can hold.  Timestamps as the store
    keeps them are numbers; [datetime] objects are a type of their own, an
    instant counted on the same integer timeline. *)
Inductive value : Type :=
| VNone
| VNum (z : Z)
| VStr (s : string)
| VDate (t : Z)
| VList (l : list value)
| VDict (d : gmap string value).

#[global] Instance value_inhabited : Inhabited value := populate VNone.

Fixpoint value_eq_dec (x y : value) {struct x} : Decision (x = y).
Proof.
  refine (let _ : EqDecision value := value_eq_dec in
          match x, y with
          | VNone, VNone => left _
          | VNum a, VNum b => cast_if (decide (a = b))
          | VStr a, VStr b => cast_if (decide (a = b))
          | VDate a, VDate b => cast_if (decide (a = b))
          | VList a, VList b => cast_if (decide (a = b))
          | VDict a, VDict b => cast_if (decide (a = b))
          | _, _ => right _
          end); congruence.
Defined.
#[global] Instance value_eq_decision : EqDecision value := value_eq_dec.

(** A document is a dictionary. *)
Abbreviation doc := (gmap string value).

(** [isinstance(v, list)] *)
Definition is_list (v : value) : bool :=
  match v with VList _ => true | _ => false end.

(** [str(type(v))] in Python 2. *)
Definition type_str (v : value) : string :=
  match v with
  | VNone => "<type 'NoneType'>"
  | VNum _ => "<type 'int'>"
  | VStr _ => "<type 'str'>"
  | VDate _ => "<type 'datetime.datetime'>"
  | VList _ => "<type 'list'>"
  | VDict _ => "<type 'dict'>"
  end.

(** [json.dumps] raises [TypeError] on a value that holds a [datetime]. *)
Fixpoint json_ok (v : value) : bool :=
  match v with
  | VDate _ => false
  | VList l => forallb json_ok l
  | VDict d => map_fold (fun _ x acc => json_ok x && acc) true d
  | _ => true
  end.

(** [list.remove(x)]: drops the first element equal to [x]; [ValueError]
    when there is none. *)
Fixpoint list_remove (x : value) (l : list value) : option (list value) :=
  match l with
  | [] => None
  | y :: l' => if decide (x = y) then Some l'
               else r ← list_remove x l'; Some (y :: r)
  end.

(** The number of elements of a list that are equal to a value. *)
Abbreviation count := (count_occ value_eq_dec).

(** ** The undo function *)

(** The loop of the list branch: [for ad in added: if ad in val: val.remove(ad)
    else: inconsistent = True], on the list [val] and the flag. *)
Fixpoint undo_added (added : list value) (val : list value) (inconsistent : bool)
  : option (list value * bool) :=
  match added with
  | [] => Some (val, inconsistent)
  | ad :: rest =>
      if decide (ad ∈ val)
      then val' ← list_remove ad val; undo_added rest val' inconsistent
      else undo_added rest val true
  end.

(** [_activity_backwards(val, removed, added)].  In the list branch a [val]
    that is neither [None] nor a list has no [remove] and no [extend]: the
    call raises. *)
Definition _activity_backwards (val removed added : value)
  : option (value * bool) :=
  match added, removed with
  | VList ad, VList rm =>
      val ← match val with
            | VNone => Some []
            | VList l => Some l
            | _ => None
            end;
      '(val, inconsistent) ← undo_added ad val false;
      Some (VList (val ++ rm), inconsistent)
  | _, _ => Some (removed, bool_decide (val ≠ added))
  end.

(** ** Activities and log records *)

(** An activity is the tuple [(when, field, removed, added)]; [when] is a
    [datetime] and [field] a dictionary key. *)
Record activity : Type := Act {
  when : Z;
  field : string;
  removed : value;
  added : value
}.

(** The dictionary [incon] that the loop dumps to the inconsistency log. *)
Record incon : Type := Incon {
  last_doc_oid : value;
  incon_field : string;
  incon_removed : value;
  removed_type : string;
  incon_added : value;
  added_type : string;
  last_val : value;
  last_val_type : string
}.

(** What reaches [self.incon_logger.debug] and [self.logger.warn]. *)
Inductive logrec : Type :=
| LogIncon (i : incon)
| LogWarn.

(** [json.dumps(incon)] succeeds when every value of the dictionary does. *)
Definition incon_json_ok (i : incon) : bool :=
  json_ok (last_doc_oid i) && json_ok (incon_removed i)
  && json_ok (incon_added i) && json_ok (last_val i).

(** [l.pop()]: the last element and the list without it; [IndexError] on the
    empty list. *)
Definition pop {A : Type} (l : list A) : option (list A * A) :=
  x ← last l; Some (removelast l, x).

(** A [for] loop whose body may raise. *)
Fixpoint for_each {S A : Type} (body : S → A → option S) (s : S) (l : list A)
  : option S :=
  match l with
  | [] => Some s
  | a :: l' => s' ← body s a; for_each body s' l'
  end.

(** ** Reconstruction of one document *)

Section Reconstruction.

(** [metriqueu.utils.ts2dt] and [dt2ts] are imported by the module and
    not part of it: they are parameters.  [ts2dt] may raise. *)
Variable ts2dt : value → option value.
Variable dt2ts : Z → value.

(** [self.get_property('cfield')]: the name of the creation field of the
    cube, [None] when the call raises or gives no key. *)
Variable cfield : option string.

(** Python 2 orders two values that are not [datetime]s in a way that
    depends on their types ([None] when the comparison raises). *)
Variable py2_lt : value → value → option bool.

(** [a < b].  A [datetime] compared with anything else raises
    [TypeError]. *)
Definition py_lt (a b : value) : option bool :=
  match a, b with
  | VDate s, VDate t => Some (bool_decide (s < t))
  | VDate _, _ | _, VDate _ => None
  | _, _ => py2_lt a b
  end.

(** [a < b] on activity tuples: the first component that differs
    decides. *)
Definition act_lt (a b : activity) : option bool :=
  if negb (bool_decide (when a = when b))
  then Some (bool_decide (when a < when b))
  else if negb (bool_decide (field a = field b))
  then Some (String.ltb (field a) (field b))
  else if negb (bool_decide (removed a = removed b))
  then py_lt (removed a) (removed b)
  else if negb (bool_decide (added a = added b))
  then py_lt (added a) (added b)
  else Some false.

(** [sorted(activities, reverse=True)]: a stable sort into descending
    order, here by insertion from the right. *)
Fixpoint insert_desc (x : activity) (l : list activity)
  : option (list activity) :=
  match l with
  | [] => Some [x]
  | y :: l' =>
      b ← act_lt x y;
      if b : bool then r ← insert_desc x l'; Some (y :: r) else Some (x :: l)
  end.

Fixpoint sorted_desc (l : list activity) : option (list activity) :=
  match l with
  | [] => Some []
  | x :: l' => r ← sorted_desc l'; insert_desc x r
  end.

(** [filter(lambda act: act[0] < td_start and act[1] in time_doc, activities)] *)
Fixpoint filter_acts (td_start : value) (time_doc : doc)
  (activities : list activity) : option (list activity) :=
  match activities with
  | [] => Some []
  | act :: rest =>
      b ← py_lt (VDate (when act)) td_start;
      r ← filter_acts td_start time_doc rest;
      Some (if b && bool_decide (is_Some (time_doc !! field act))
            then act :: r else r)
  end.

(** [dt2ts(v) if isinstance(v, datetime) else v] *)
Definition to_ts (v : value) : value :=
  match v with VDate t => dt2ts t | _ => v end.

(** [if '_corrupted' not in new_doc: new_doc['_corrupted'] = {}], then
    the dictionary under that key; assigning into anything but a
    dictionary raises. *)
Definition corrupted_dict (new_doc : doc) : option (gmap string value) :=
  match new_doc !! "_corrupted" with
  | None => Some ∅
  | Some (VDict c) => Some c
  | Some _ => None
  end.

(** The handling of an inconsistency: the log entry, then
    [new_doc['_corrupted'][field] = added]. *)
Definition mark_corrupted (last_doc new_doc : doc) (field : string)
  (removed added last_val : value) (log : list logrec)
  : option (doc * list logrec) :=
  oid ← last_doc !! "_oid";
  let i := Incon oid field removed (type_str removed) added (type_str added)
                 last_val (type_str last_val) in
  if incon_json_ok i then
    corrupted ← corrupted_dict new_doc;
    Some (<["_corrupted" := VDict (<[field := added]> corrupted)]> new_doc,
          log ++ [LogIncon i])
  else None.

(** The start of an iteration: pops [last_doc]; when its [_end] is the
    instant of the activity, the activity is grouped with the previous one
    ([last_doc] becomes [new_doc] and the document before it is popped);
    else [new_doc] is a copy without [_id] that ends, and for now starts,
    at [when], and [last_doc] starts there.  Gives the rest of the batch,
    [last_doc] and [new_doc]. *)
Definition group_or_split (batch_updates : list doc) (when : Z)
  : option (list doc * doc * doc) :=
  '(batch_updates, last_doc) ← pop batch_updates;
  _end ← last_doc !! "_end";
  if decide (_end = VDate when) then
    '(batch_updates, older) ← pop batch_updates;
    Some (batch_updates, older, last_doc)
  else
    let new_doc := delete "_id" last_doc in
    let new_doc := <["_start" := VDate when]> new_doc in
    let new_doc := <["_end" := VDate when]> new_doc in
    let last_doc := <["_start" := VDate when]> last_doc in
    Some (batch_updates, last_doc, new_doc).

(** One iteration of the loop over the activities, on the batch and the
    log. *)
Definition loop_body (st : list doc * list logrec) (act : activity)
  : option (list doc * list logrec) :=
  let '(batch_updates, log) := st in
  let removed := to_ts (removed act) in
  let added := to_ts (added act) in
  '(batch_updates, last_doc, new_doc) ← group_or_split batch_updates (when act);
  last_val ← last_doc !! field act;
  val ← new_doc !! field act;
  '(new_val, inconsistent) ← _activity_backwards val removed added;
  let new_doc := <[field act := new_val]> new_doc in
  '(new_doc, log) ←
    (if inconsistent : bool
     then mark_corrupted last_doc new_doc (field act) removed added last_val log
     else Some (new_doc, log));
  Some (batch_updates ++ [last_doc; new_doc], log).

(** The [try] block: [None] when it raises, else the value the function
    goes on to return. *)
Definition creation_step (batch_updates : list doc) : option (list doc) :=
  '(older, last_doc) ← pop batch_updates;
  creation_field ← cfield;
  raw ← last_doc !! creation_field;
  creation_ts ← ts2dt raw;
  start ← last_doc !! "_start";
  lt ← py_lt creation_ts start;
  if lt : bool then Some (older ++ [<["_start" := creation_ts]> last_doc])
  else if decide (length batch_updates = 1%nat) then Some []
  else Some batch_updates.

(** The loop over the filtered and sorted activities, from the batch
    [[time_doc]]. *)
Definition reconstruct (time_doc : doc) (activities : list activity)
  : option (list doc * list logrec) :=
  ts ← time_doc !! "_start";
  td_start ← ts2dt ts;
  let time_doc := <["_start" := td_start]> time_doc in
  activities ← filter_acts td_start time_doc activities;
  activities ← sorted_desc activities;
  for_each loop_body ([time_doc], []) activities.

Definition _activity_import_doc (time_doc : doc) (activities : list activity)
  : option (list doc * list logrec) :=
  '(batch_updates, log) ← reconstruct time_doc activities;
  match creation_step batch_updates with
  | Some ret => Some (ret, log)
  | None => Some (batch_updates, log ++ [LogWarn])
  end.

(** ** The loop of [_activity_import] *)

(** [activities.setdefault(_oid, [])] on the dictionary of activities,
    kept as an association list. *)
Fixpoint setdefault (activities : list (value * list activity))
  (oid : value) : list activity :=
  match activities with
  | [] => []
  | (k, acts) :: rest => if decide (k = oid) then acts else setdefault rest oid
  end.

(** One iteration over [docs.values()]: the state is [remove_ids],
    [save_objects] and the log. *)
Definition import_body (activities : list (value * list activity))
  (st : list value * list doc * list logrec) (time_doc : doc)
  : option (list value * list doc * list logrec) :=
  let '(remove_ids, save_objects, log) := st in
  _oid ← time_doc !! "_oid";
  _id ← time_doc !! "_id";
  let time_doc := delete "_id" time_doc in
  _ ← time_doc !! "_hash";
  let time_doc := delete "_hash" time_doc in
  let acts := setdefault activities _oid in
  '(updates, log') ← _activity_import_doc time_doc acts;
  match updates with
  | [] => Some (remove_ids, save_objects, log ++ log')
  | _ => Some (remove_ids ++ [_id], save_objects ++ updates, log ++ log')
  end.

(** [_activity_import] from the loop on: the result is what is handed to
    [self.cube_remove] and to [self.cube_save]. *)
Definition _activity_import (docs_values : list doc)
  (activities : list (value * list activity))
  : option (list value * list doc * list logrec) :=
  for_each (import_body activities) ([], [], []) docs_values.

End Reconstruction.

(** ** A concrete host *)

(** Modelled from the spec: [metriqueu.utils.ts2dt] is not among the
    sources; the spec places [start], [end] and the activity instants on one
    timeline, so the timestamp [n] is the instant [n], a [datetime] is kept and
    [None] stays [None]; anything else is not a timestamp and raises. *)
Definition ts2dt_std (v : value) : option value :=
  match v with
  | VNum n => Some (VDate n)
  | VDate t => Some (VDate t)
  | VNone => Some VNone
  | _ => None
  end.

(** Modelled from the spec: [metriqueu.utils.dt2ts], the inverse
    conversion. *)
Definition dt2ts_std (t : Z) : value := VNum t.

(** An order on the values that are not [datetime]s, as CPython 2 has it
    between numbers and between strings; other pairs are never compared in
    the examples and raise here. *)
Definition py2_lt_std (a b : value) : option bool :=
  match a, b with
  | VNone, VNone => Some false
  | VNone, _ => Some true
  | _, VNone => Some false
  | VNum x, VNum y => Some (bool_decide (x < y))
  | VNum _, VStr _ => Some true
  | VStr _, VNum _ => Some false
  | VStr x, VStr y => Some (String.ltb x y)
  | _, _ => None
  end.

(** ** Version chains *)

(** The instant a document holds under a key, when it is a [datetime]. *)
Definition instant (d : doc) (k : string) : option Z :=
  match d !! k with Some (VDate t) => Some t | _ => None end.

(** [b] is the version right after [a]: [a] ends at the instant at which
    [b] starts, and [a] does not start later than [b]. *)
Definition follows (a b : doc) : bool :=
  match instant a "_start", instant a "_end", instant b "_start" with
  | Some s, Some e, Some t => bool_decide (e = t) && bool_decide (s ≤ t)
  | _, _, _ => false
  end.

(** A list of versions, oldest first, partitions time: it is ordered by
    [_start] and each version ends where the next one starts. *)
Fixpoint partitions (l : list doc) : bool :=
  match l with
  | a :: l' => match l' with
               | b :: _ => follows a b && partitions l'
               | [] => true
               end
  | [] => true
  end.

(** The keys of the interval of a version; an activity on a field of the
    document names neither. *)
Definition names_field (act : activity) : Prop :=
  field act ≠ "_start" ∧ field act ≠ "_end".

(** Activities in descending order of [when]. *)
Definition later_first (a b : activity) : Prop := when b ≤ when a.

(** [d'] is [d] amended in place by an activity on [field]: only that
    field and [_corrupted] may differ, [field] was there, and no other key
    is new. *)
Definition amends (field : string) (d d' : doc) : Prop :=
  is_Some (d !! field) ∧
  (∀ k, k ≠ field → k ≠ "_corrupted" → d' !! k = d !! k) ∧
  (∀ k, is_Some (d' !! k) → is_Some (d !! k) ∨ k = "_corrupted").

(** Every key of [d] is a key of [td], or [_corrupted]. *)
Definition keys_within (td d : doc) : Prop :=
  ∀ k, is_Some (d !! k) → is_Some (td !! k) ∨ k = "_corrupted".

(** What the loop keeps true of the batch built from [td].  [lo] is the
    instant of the last activity handled, if any: before the first one the
    batch is [[td]]; afterwards the oldest version, last in the batch, starts
    and ends at [lo].  The versions, oldest first, partition time, and the
    first of the batch keeps the [_end] of [td]. *)
Definition chain_inv (td : doc) (lo : option Z) (batch : list doc) : Prop :=
  partitions (reverse batch) = true ∧
  (∃ a, head batch = Some a ∧ a !! "_end" = td !! "_end") ∧
  match lo with
  | None => batch = [td]
  | Some w => ∃ rest dk, batch = rest ++ [dk] ∧ rest ≠ [] ∧
                         instant dk "_start" = Some w ∧ instant dk "_end" = Some w
  end.

(** ** The scenarios of the specification *)

(** The anchor [{oid:1, start:200, end:None, fields:{status:'open'}}] and
    the activity [(150, 'status', 'new', 'open')]. *)
Definition anchor_200 : doc :=
  {[ "_oid" := VNum 1; "_start" := VNum 200; "_end" := VNone;
     "status" := VStr "open" ]}.

Definition status_opened : list activity :=
  [Act 150 "status" (VStr "new") (VStr "open")].

(** The batch expected of that scenario, the instants written by [enc]. *)
Definition expected_batch (enc : Z → value) : list doc :=
  [ {[ "_oid" := VNum 1; "_start" := enc 150; "_end" := enc 200;
       "status" := VStr "new" ]};
    {[ "_oid" := VNum 1; "_start" := enc 200; "_end" := VNone;
       "status" := VStr "open" ]} ].

(** The batch the code gives: the anchor, which now starts at the instant
    of the activity, and the version before it. *)
Definition opened_at_150 : doc :=
  {[ "_oid" := VNum 1; "_start" := VDate 150; "_end" := VNone;
     "status" := VStr "open" ]}.

Definition new_until_150 : doc :=
  {[ "_oid" := VNum 1; "_start" := VDate 150; "_end" := VDate 150;
     "status" := VStr "new" ]}.

(** An anchor that starts at 100 and carries the creation instant 50. *)
Definition anchor_100 : doc :=
  {[ "_oid" := VNum 7; "_start" := VNum 100; "_end" := VNone;
     "created" := VNum 50; "status" := VStr "open" ]}.

(** The anchor of the first scenario as the store holds it. *)
Definition stored_200 : doc :=
  <["_id" := VStr "5f1"]> (<["_hash" := VStr "c0de"]> anchor_200).

(** Two changes of status before the anchor was first stored, in the
    order of the activity table. *)
Definition status_history : list activity :=
  [Act 150 "status" (VStr "new") (VStr "assigned");
   Act 180 "status" (VStr "assigned") (VStr "open")].

(** Two activities at the instant 150, on different fields. *)
Definition anchor_owned : doc :=
  {[ "_oid" := VNum 1; "_start" := VNum 200; "_end" := VNone;
     "owner" := VStr "ann"; "status" := VStr "open" ]}.

Definition together_at_150 : list activity :=
  [Act 150 "status" (VStr "new") (VStr "open");
   Act 150 "owner" VNone (VStr "ann")].



(** One change of status of [anchor_100], after its creation. *)
Definition opened_at_80 : list activity :=
  [Act 80 "status" (VStr "new") (VStr "open")].

(** The oldest version that the first run on [anchor_100] leaves: it starts
    at the creation instant. *)
Definition new_since_50 : doc :=
  {[ "_oid" := VNum 7; "_start" := VDate 50; "_end" := VDate 80;
     "created" := VNum 50; "status" := VStr "new" ]}.

(** The two versions that the loop leaves of [anchor_100] for
    [opened_at_80], before the creation time is looked at. *)
Definition open_since_80 : doc :=
  {[ "_oid" := VNum 7; "_start" := VDate 80; "_end" := VNone;
     "created" := VNum 50; "status" := VStr "open" ]}.

Definition new_at_80 : doc :=
  {[ "_oid" := VNum 7; "_start" := VDate 80; "_end" := VDate 80;
     "created" := VNum 50; "status" := VStr "new" ]}.

(** The activity passes the filter of a document [td] that starts at [t]. *)
Definition matches (t : Z) (td : doc) (act : activity) : Prop :=
  when act < t ∧ is_Some (td !! field act).

(** The [try] block raises while reading or parsing the creation field of
    [last_doc]: the cube names no such field, the document lacks it, or
    [ts2dt] raises on it. *)
Definition creation_unread (ts2dt : value → option value)
  (cfield : option string) (last_doc : doc) : Prop :=
  cfield = None ∨
  ∃ f, cfield = Some f ∧
       (last_doc !! f = None ∨ ∃ raw, last_doc !! f = Some raw ∧ ts2dt raw = None).

(** ** Further notions for the properties of the code *)

#[global] Instance matches_dec (t : Z) (td : doc) (act : activity) :
  Decision (matches t td act).
Proof. unfold matches. apply _. Defined.

(** The keys that the reconstruction itself writes. *)
Definition reserved : list string := ["_start"; "_end"; "_corrupted"; "_id"].

(** A version made by the loop from the document [td]: it has no [_id],
    and every other key of [td]. *)
Definition copied_from (td d : doc) : Prop :=
  d !! "_id" = None ∧ ∀ k, k ≠ "_id" → is_Some (td !! k) → is_Some (d !! k).

(** The batch starts with the anchor [td], whose [_start] may have moved,
    and goes on with versions copied from it. *)
Definition anchor_first (td : doc) (batch : list doc) : Prop :=
  ∃ v tl, batch = <["_start" := v]> td :: tl ∧ Forall (copied_from td) tl.

(** The instants at which the loop starts a new version: those of the
    activities, in their order, that differ from the instant handled just
    before ([lo], if any). *)
Fixpoint fresh (lo : option Z) (l : list activity) : list Z :=
  match l with
  | [] => []
  | a :: l' => (if decide (lo = Some (when a)) then [] else [when a])
               ++ fresh (Some (when a)) l'
  end.

(** The [_end] of every document of the batch but the first. *)
Definition ends (batch : list doc) : list (option value) :=
  (λ d : doc, d !! "_end") <$> tail batch.

(** Strictly descending instants. *)
Definition earlier (a b : Z) : Prop := b < a.

(** [R] holds of every document of the list and the one right after it. *)
Fixpoint adjacent (R : doc → doc → Prop) (l : list doc) : Prop :=
  match l with
  | a :: l' => match l' with
               | b :: _ => R a b ∧ adjacent R l'
               | [] => True
               end
  | [] => True
  end.

(** [older] ends at an instant, and has the value of [newer] under every
    key that is not reserved and that no activity of [l] at that instant
    names. *)
Definition same_but (l : list activity) (newer older : doc) : Prop :=
  ∀ w k, older !! "_end" = Some (VDate w) → k ∉ reserved →
         (∀ a, a ∈ l → when a = w → field a ≠ k) →
         older !! k = newer !! k.

(** The undo of the activity takes the scalar branch: [removed] and
    [added], once converted, are not both lists. *)
Definition scalar_change (dt2ts : Z → value) (act : activity) : Prop :=
  ¬ (is_list (to_ts dt2ts (added act)) = true ∧
     is_list (to_ts dt2ts (removed act)) = true).

(** The document [d], which ends at [w], holds what the activities at [w]
    removed: under a key that is not reserved, that an activity of [p] at [w]
    names, and for which all activities of [l] at [w] are scalar and removed
    the same value, [d] has that value. *)
Definition holds_removed (dt2ts : Z → value) (l p : list activity)
  (d : doc) (w : Z) : Prop :=
  ∀ k r, k ∉ reserved →
         (∃ a, a ∈ p ∧ when a = w ∧ field a = k) →
         (∀ a, a ∈ l → when a = w → field a = k →
               scalar_change dt2ts a ∧ to_ts dt2ts (removed a) = r) →
         d !! k = Some r.

(** What the loop keeps true of the values, once the activities [p] are
    handled, the last of them at [lo]: the last document of the batch ends at
    [lo], the ones between the first and the last end later, and each holds
    what the activities at its end removed. *)
Definition val_inv (dt2ts : Z → value) (l p : list activity)
  (lo : option Z) (batch : list doc) : Prop :=
  match lo with
  | None => (∃ a0, batch = [a0]) ∧ p = []
  | Some w0 =>
      ∃ a0 tl dk,
        batch = a0 :: tl ++ [dk] ∧
        dk !! "_end" = Some (VDate w0) ∧ holds_removed dt2ts l p dk w0 ∧
        Forall (λ d : doc, ∃ w, d !! "_end" = Some (VDate w) ∧ w0 < w ∧
                                holds_removed dt2ts l p d w) tl ∧
        Forall (λ a, w0 ≤ when a) p
  end.

(** The document marks the field [f] as corrupted. *)
Definition marked (d : doc) (f : string) : Prop :=
  ∃ c, d !! "_corrupted" = Some (VDict c) ∧ is_Some (c !! f).

(** An inconsistency on the field [f] is in the log. *)
Definition logged (log : list logrec) (f : string) : Prop :=
  ∃ i, LogIncon i ∈ log ∧ incon_field i = f.

(** Where the [_corrupted] entry of a document of the batch comes from: it
    is that of the anchor [td], or a dictionary written after an inconsistency
    was logged, whose fields the anchor marked or the log names. *)
Definition provenance (td : doc) (log : list logrec) (d : doc) : Prop :=
  d !! "_corrupted" = td !! "_corrupted" ∨
  ∃ c, d !! "_corrupted" = Some (VDict c) ∧
       (∃ i, LogIncon i ∈ log) ∧
       ∀ f, is_Some (c !! f) → marked td f ∨ logged log f.

(** What the loop keeps true of the marks and the log: the loop logs no
    warning, every logged inconsistency is marked in a document after the
    first, and every mark has its provenance. *)
Definition mark_inv (td : doc) (st : list doc * list logrec) : Prop :=
  ∃ a0 tl,
    fst st = a0 :: tl ∧
    (LogWarn ∉ snd st) ∧
    (∀ i, LogIncon i ∈ snd st → ∃ d, d ∈ tl ∧ marked d (incon_field i)) ∧
    Forall (provenance td (snd st)) (a0 :: tl).

(** The stored document as [_activity_import] hands it on, once [_id] and
    [_hash] are popped. *)
Definition stripped (d : doc) : doc := delete "_hash" (delete "_id" d).

(** The identifiers of the documents whose batch is not empty. *)
Fixpoint removed_ids (docs : list doc) (batches : list (list doc))
  : list (option value) :=
  match docs, batches with
  | d :: docs', b :: batches' =>
      (if decide (b = []) then [] else [d !! "_id"])
      ++ removed_ids docs' batches'
  | _, _ => []
  end.

(** ** The choice of the anchors in [_activity_import] *)

(** Lists and dictionaries cannot be keys of a dictionary: [oid in docs]
    and [docs[oid] = doc] raise [TypeError] on them. *)
Definition hashable (v : value) : bool :=
  match v with
  | VList _ | VDict _ => false
  | _ => true
  end.

(** [docs[oid]] on the dictionary [docs], kept as an association list:
    [None] when [oid] is not a key. *)
Fixpoint dict_get (docs : list (value * doc)) (oid : value) : option doc :=
  match docs with
  | [] => None
  | (k, d) :: rest => if decide (k = oid) then Some d else dict_get rest oid
  end.

(** [docs[oid] = doc] *)
Fixpoint dict_set (docs : list (value * doc)) (oid : value) (d : doc)
  : list (value * doc) :=
  match docs with
  | [] => [(oid, d)]
  | (k, d') :: rest =>
      if decide (k = oid) then (k, d) :: rest
      else (k, d') :: dict_set rest oid d
  end.

Section Anchors.
Variable py2_lt : value → value → option bool.

(** One iteration over [time_docs]:
    [if oid not in docs or docs[oid]['_start'] > doc['_start']: docs[oid] = doc].
    [a > b] is [b < a]. *)
Definition select_body (docs : list (value * doc)) (d : doc)
  : option (list (value * doc)) :=
  oid ← d !! "_oid";
  if hashable oid then
    match dict_get docs oid with
    | None => Some (dict_set docs oid d)
    | Some cur =>
        cur_start ← cur !! "_start";
        start ← d !! "_start";
        gt ← py_lt py2_lt start cur_start;
        Some (if gt : bool then dict_set docs oid d else docs)
    end
  else None.

(** The dictionary [docs] that the first loop of [_activity_import]
    builds from the documents found. *)
Definition select_anchors (time_docs : list doc)
  : option (list (value * doc)) :=
  for_each select_body [] time_docs.

End Anchors.

(** The timestamp a stored document holds under [_start]. *)
Definition start_ts (d : doc) : option Z :=
  match d !! "_start" with
  | Some (VNum n) => Some n
  | _ => None
  end.

(** A document as the timeline stores it: a hashable [_oid] and a
    timestamp under [_start]. *)
Definition stored_ok (d : doc) : Prop :=
  (∃ oid, d !! "_oid" = Some oid ∧ hashable oid = true) ∧ is_Some (start_ts d).

(** [a] is the oldest of the documents of [l] with the identifier [oid],
    and the first of them in [l] when several start with it. *)
Definition oldest_of (l : list doc) (oid : value) (a : doc) : Prop :=
  ∃ s l1 l2, l = l1 ++ a :: l2 ∧
    a !! "_oid" = Some oid ∧ start_ts a = Some s ∧
    Forall (λ d : doc, d !! "_oid" = Some oid →
                       ∃ t, start_ts d = Some t ∧ s < t) l1 ∧
    Forall (λ d : doc, d !! "_oid" = Some oid →
                       ∃ t, start_ts d = Some t ∧ s ≤ t) l2.

(** What the first loop keeps true of [docs] once the documents [pre] are
    handled. *)
Definition anchors_inv (pre : list doc) (docs : list (value * doc)) : Prop :=
  NoDup docs.*1 ∧
  ∀ oid, match dict_get docs oid with
         | Some a => oldest_of pre oid a
         | None => Forall (λ d : doc, d !! "_oid" ≠ Some oid) pre
         end.

(** ** The chunks of [activity_import] *)

(** [range(start, stop, step)]: [ValueError] when the step is zero. *)
Definition py_range (start stop step : Z) : option (list Z) :=
  if decide (step = 0) then None
  else
    let n := if decide (0 < step) then (stop - start + step - 1) / step
             else (start - stop - step - 1) / (- step) in
    Some ((λ k : nat, start + Z.of_nat k * step) <$> seq 0 (Z.to_nat n)).

(** A bound of a slice on a sequence of length [n]: counted from the end
    when negative, and cut to the sequence. *)
Definition slice_bound (n i : Z) : Z :=
  if decide (i < 0) then Z.max 0 (i + n) else Z.min i n.

(** [l[i:j]] *)
Definition py_slice {A : Type} (l : list A) (i j : Z) : list A :=
  let n := Z.of_nat (length l) in
  let lo := slice_bound n i in
  let hi := slice_bound n j in
  take (Z.to_nat (hi - lo)) (drop (Z.to_nat lo) l).

(** The lists of identifiers that [activity_import] submits to
    [_activity_import], in the order of submission:
    [oids[i:i + chunk_size] for i in range(0, len(oids), chunk_size)]. *)
Definition activity_import_chunks (oids : list value) (chunk_size : Z)
  : option (list (list value)) :=
  starts ← py_range 0 (Z.of_nat (length oids)) chunk_size;
  Some ((λ i, py_slice oids i (i + chunk_size)) <$> (starts : list Z)).

(** ** Documents and activities on which the import does not raise *)

(** The undo of the activity takes the list branch. *)
Definition list_change (dt2ts : Z → value) (act : activity) : Prop :=
  is_list (to_ts dt2ts (added act)) = true ∧
  is_list (to_ts dt2ts (removed act)) = true.

(** A value the list branch of the undo accepts: [None] or a list. *)
Definition list_val (v : value) : Prop := v = VNone ∨ is_list v = true.

(** What [sorted] looks at first in an activity. *)
Definition act_key (a : activity) : Z * string := (when a, field a).

(** A document the loop can go on from: apart from the reserved keys its
    values can be dumped to the log, the fields that list changes name hold
    lists or [None], and [_corrupted], when there, is a dictionary. *)
Definition well_kept (dt2ts : Z → value) (acts : list activity) (d : doc)
  : Prop :=
  map_Forall (λ k v, k ∈ reserved ∨ json_ok v = true) d ∧
  Forall (λ a, list_change dt2ts a →
               match d !! field a with
               | Some v => list_val v
               | None => True
               end) acts ∧
  is_Some (corrupted_dict d).

(** An activity the loop can undo: it names no reserved key, what it
    removed and added can be dumped to the log, and when it changes a list
    so do the other activities on its field. *)
Definition undoable (dt2ts : Z → value) (acts : list activity) (a : activity)
  : Prop :=
  (field a ∉ reserved) ∧
  json_ok (to_ts dt2ts (removed a)) = true ∧
  json_ok (to_ts dt2ts (added a)) = true ∧
  Forall (λ b, field b = field a → list_change dt2ts b →
               list_change dt2ts a) acts.

(** A stored document, once [_id] and [_hash] are popped, and activities
    with which [_activity_import_doc] runs to its end. *)
Definition importable (dt2ts : Z → value) (time_doc : doc)
  (acts : list activity) : Prop :=
  is_Some (time_doc !! "_oid") ∧
  (match time_doc !! "_end" with
   | Some e => Forall (λ a, e ≠ VDate (when a)) acts
   | None => False
   end) ∧
  well_kept dt2ts acts time_doc ∧
  NoDup (act_key <$> acts) ∧
  Forall (undoable dt2ts acts) acts.

(** The document has every key of [td], [_id] apart. *)
Definition has_keys (td d : doc) : Prop :=
  ∀ k, k ≠ "_id" → is_Some (td !! k) → is_Some (d !! k).

(** A stored document that [_activity_import] can handle: it has [_oid],
    [_id] and [_hash], its [_start] converts to a [datetime], and without
    [_id] and [_hash] it is importable with the activities of its [_oid]. *)
Definition stored_importable (ts2dt : value → option value)
  (dt2ts : Z → value) (activities : list (value * list activity)) (d : doc)
  : Prop :=
  ∃ oid ts t,
    d !! "_oid" = Some oid ∧ is_Some (d !! "_id") ∧ is_Some (d !! "_hash") ∧
    d !! "_start" = Some ts ∧ ts2dt ts = Some (VDate t) ∧
    importable dt2ts (stripped d) (setdefault activities oid).

(** ** Further documents for the scenarios *)

(** Two stored versions of the object 1 and one of the object 2. *)
Definition stored_300 : doc :=
  {[ "_oid" := VNum 1; "_start" := VNum 300; "_end" := VNone;
     "status" := VStr "closed" ]}.

Definition other_250 : doc :=
  {[ "_oid" := VNum 2; "_start" := VNum 250; "_end" := VNone;
     "status" := VStr "new" ]}.

(** ** Activities on the key [_end] *)

(** An activity on the key [_end] of the interval: at 150 it went from 5
    to [None]. *)
Definition end_cleared : list activity := [Act 150 "_end" (VNum 5) VNone].

(** The version that the loop leaves before the anchor for it: the undo
    has overwritten the [_end] that the loop had set to 150. *)
Definition ended_at_5 : doc :=
  {[ "_oid" := VNum 1; "_start" := VDate 150; "_end" := VNum 5;
     "status" := VStr "open";
     "_corrupted" := VDict {[ "_end" := VNone ]} ]}.

(** An anchor with the field [A], and two activities at the instant 150,
    one on the key [_end] and one on [A]; [sorted] puts the one on [_end]
    first. *)
Definition anchor_A : doc :=
  {[ "_oid" := VNum 1; "_start" := VNum 200; "_end" := VNone;
     "A" := VStr "x" ]}.

Definition end_and_A_at_150 : list activity :=
  [Act 150 "_end" (VNum 5) VNone; Act 150 "A" (VStr "w") (VStr "x")].

(** The three documents returned for them. *)
Definition A_x_at_150 : doc :=
  {[ "_oid" := VNum 1; "_start" := VDate 150; "_end" := VNone;
     "A" := VStr "x" ]}.

Definition A_x_until_5 : doc :=
  {[ "_oid" := VNum 1; "_start" := VDate 150; "_end" := VNum 5;
     "A" := VStr "x"; "_corrupted" := VDict {[ "_end" := VNone ]} ]}.

Definition A_w_until_150 : doc :=
  {[ "_oid" := VNum 1; "_start" := VDate 150; "_end" := VDate 150;
     "A" := VStr "w"; "_corrupted" := VDict {[ "_end" := VNone ]} ]}.

(** * Properties *)

(** ** Lists and [pop] *)

Lemma pop_snoc {A : Type} (l : list A) (x : A) : pop (l ++ [x]) = Some (l, x).
Proof.
  unfold pop. rewrite last_snoc. simpl. by rewrite removelast_last.
Qed.

Lemma pop_Some {A : Type} (l l' : list A) (x : A) :
  pop l = Some (l', x) → l = l' ++ [x].
Proof.
  destruct l as [|a l] using rev_ind; [done|].
  rewrite pop_snoc. by intros [= <- <-].
Qed.

(** ** The undo function on lists *)

Lemma list_remove_spec (x : value) (l : list value) :
  x ∈ l →
  ∃ l', list_remove x l = Some l' ∧ sublist l' l ∧
        ∀ y, count l' y = (count l y - (if decide (x = y) then 1 else 0))%nat.
Proof.
  induction l as [|a l IH]; [by intros ?%elem_of_nil|].
  intros Hin. cbn [list_remove]. destruct (decide (x = a)) as [->|Hne].
  - exists l. split; [done|]. split; [by constructor|].
    intros y. destruct (decide (a = y)) as [->|Hay].
    + rewrite count_occ_cons_eq; [lia|done].
    + rewrite count_occ_cons_neq; [lia|done].
  - apply elem_of_cons in Hin as [?|Hin]; [done|].
    destruct (IH Hin) as (l' & -> & Hsub & Hcnt). cbn [mbind option_bind].
    exists (a :: l'). split; [done|]. split; [by constructor|].
    intros y. destruct (decide (a = y)) as [->|Hay].
    + rewrite !count_occ_cons_eq by done. rewrite Hcnt.
      destruct (decide (x = y)); [done|lia].
    + rewrite !count_occ_cons_neq by done. apply Hcnt.
Qed.

Lemma count_pos_elem_of (x : value) (l : list value) :
  x ∈ l ↔ (0 < count l x)%nat.
Proof. rewrite list_elem_of_In. apply count_occ_In. Qed.

Lemma undo_added_spec (ad : list value) :
  ∀ (val : list value) (flag : bool),
    ∃ rest flag', undo_added ad val flag = Some (rest, flag') ∧
      sublist rest val ∧
      (∀ x, count rest x = (count val x - count ad x)%nat) ∧
      (flag' = true ↔ flag = true ∨ ∃ x, x ∈ ad ∧ (count val x < count ad x)%nat).
Proof.
  induction ad as [|a ad IH]; intros val flag; cbn [undo_added].
  - exists val, flag. split; [done|]. split; [done|].
    split; [intros x; simpl; lia|].
    split; [by left|]. intros [?|(x & []%elem_of_nil & _)]. done.
  - destruct (decide (a ∈ val)) as [Hin|Hnin].
    + destruct (list_remove_spec a val Hin) as (val' & -> & Hsub & Hcnt).
      cbn [mbind option_bind].
      destruct (IH val' flag) as (rest & flag' & -> & Hsub' & Hcnt' & Hflag).
      exists rest, flag'. split; [done|]. split; [by etrans|]. split.
      * intros x. rewrite Hcnt', Hcnt. destruct (decide (a = x)) as [->|?].
        -- rewrite count_occ_cons_eq by done. lia.
        -- rewrite count_occ_cons_neq by done. lia.
      * rewrite Hflag. split; (intros [?|(x & Hx & Hlt)]; [by left|right]).
        -- exists x. split; [by right|]. rewrite Hcnt in Hlt.
           destruct (decide (a = x)) as [->|?].
           ++ rewrite count_occ_cons_eq by done. lia.
           ++ rewrite count_occ_cons_neq by done. lia.
        -- exists x. rewrite Hcnt. destruct (decide (a = x)) as [->|?].
           ++ rewrite count_occ_cons_eq in Hlt by done.
              apply count_pos_elem_of in Hin.
              split; [apply count_pos_elem_of|]; lia.
           ++ rewrite count_occ_cons_neq in Hlt by done.
              apply elem_of_cons in Hx as [?|?]; [done|]. split; [done|lia].
    + destruct (IH val true) as (rest & flag' & -> & Hsub' & Hcnt' & Hflag).
      assert (count val a = 0%nat) as Hz.
      { apply count_occ_not_In. by rewrite <- list_elem_of_In. }
      exists rest, flag'. split; [done|]. split; [done|]. split.
      * intros x. rewrite Hcnt'. destruct (decide (a = x)) as [->|?].
        -- rewrite count_occ_cons_eq by done. lia.
        -- rewrite count_occ_cons_neq by done. lia.
      * split; [|intros _; apply Hflag; by left].
        intros _. right. exists a. split; [by left|].
        rewrite count_occ_cons_eq by done. lia.
Qed.

(** C5.  When [removed] and [added] are lists and the current value is a
    list, or [None] for the empty one, the undo function returns what is left
    of the collection followed by every element of [removed]: what is left
    keeps the order and, of each value, as many copies as the collection had
    more than [added]; the flag is raised exactly when [added] has more copies
    of some value than the collection.  So [undo(['a','b'], ['c'], ['a'])] is
    [['b','c']], consistent, and with [added = ['x']] the flag is raised and
    [removed] is still appended. *)
Theorem C5_undo_list :
  (∀ (val : value) (coll rm ad : list value),
      (val = VNone ∧ coll = []) ∨ val = VList coll →
      ∃ rest flag,
        _activity_backwards val (VList rm) (VList ad) = Some (VList (rest ++ rm), flag) ∧
        sublist rest coll ∧
        (∀ x, count rest x = (count coll x - count ad x)%nat) ∧
        (flag = true ↔ ∃ x, x ∈ ad ∧ (count coll x < count ad x)%nat))
  ∧ _activity_backwards (VList [VStr "a"; VStr "b"]) (VList [VStr "c"]) (VList [VStr "a"])
    = Some (VList [VStr "b"; VStr "c"], false)
  ∧ _activity_backwards (VList [VStr "a"; VStr "b"]) (VList [VStr "c"]) (VList [VStr "x"])
    = Some (VList [VStr "a"; VStr "b"; VStr "c"], true).
Proof.
  split; [|split; by vm_compute].
  intros val coll rm ad Hval.
  destruct (undo_added_spec ad coll false) as (rest & flag & Hrun & Hsub & Hcnt & Hflag).
  exists rest, flag. split.
  - unfold _activity_backwards.
    destruct Hval as [[-> ->]| ->]; simpl; by rewrite Hrun.
  - split; [done|]. split; [done|]. rewrite Hflag.
    split; [by intros [?|?]|by right].
Qed.

Lemma C5_undo_list_witness :
  ∃ rest flag,
    _activity_backwards (VList [VStr "a"; VStr "a"; VStr "b"]) (VList [VStr "c"])
                        (VList [VStr "a"; VStr "z"])
    = Some (VList (rest ++ [VStr "c"]), flag) ∧
    sublist rest [VStr "a"; VStr "a"; VStr "b"] ∧
    (∀ x, count rest x = (count [VStr "a"; VStr "a"; VStr "b"] x
                          - count [VStr "a"; VStr "z"] x)%nat) ∧
    (flag = true ↔ ∃ x, x ∈ [VStr "a"; VStr "z"] ∧
        (count [VStr "a"; VStr "a"; VStr "b"] x < count [VStr "a"; VStr "z"] x)%nat).
Proof.
  apply (proj1 C5_undo_list (VList [VStr "a"; VStr "a"; VStr "b"])).
  right. reflexivity.
Defined.

(** ** The undo function on scalars *)


(** ** Filtering and sorting the activities *)

Section Sorting.
Variable py2_lt : value → value → option bool.

Lemma act_lt_true (a b : activity) :
  act_lt py2_lt a b = Some true → when a ≤ when b.
Proof.
  unfold act_lt. case_bool_decide as Hw; simpl.
  - intros _. lia.
  - intros [= ?%bool_decide_eq_true]. lia.
Qed.

Lemma act_lt_false (a b : activity) :
  act_lt py2_lt a b = Some false → when b ≤ when a.
Proof.
  unfold act_lt. case_bool_decide as Hw; simpl.
  - intros _. lia.
  - intros [= ?%bool_decide_eq_false]. lia.
Qed.

Lemma insert_desc_perm (x : activity) (l r : list activity) :
  insert_desc py2_lt x l = Some r → r ≡ₚ x :: l.
Proof.
  revert r. induction l as [|y l IH]; intros r; cbn [insert_desc].
  - by intros [= <-].
  - destruct (act_lt py2_lt x y) as [[]|]; cbn [mbind option_bind]; [| |done].
    + destruct (insert_desc py2_lt x l) as [r'|]; [|done].
      cbn [mbind option_bind]. intros [= <-].
      rewrite (IH r' eq_refl). apply Permutation_swap.
    + by intros [= <-].
Qed.

Lemma insert_desc_sorted (x : activity) (l r : list activity) :
  StronglySorted later_first l →
  insert_desc py2_lt x l = Some r → StronglySorted later_first r.
Proof.
  revert r. induction l as [|y l IH]; intros r Hs; cbn [insert_desc].
  - intros [= <-]. repeat constructor.
  - destruct (act_lt py2_lt x y) as [[]|] eqn:Hlt; cbn [mbind option_bind];
      [| |done].
    + destruct (insert_desc py2_lt x l) as [r'|] eqn:Hr'; [|done].
      cbn [mbind option_bind]. intros [= <-].
      apply StronglySorted_inv in Hs as [Hs Hall].
      constructor; [by apply IH|].
      rewrite (insert_desc_perm _ _ _ Hr'). constructor; [|done].
      by apply act_lt_true.
    + intros [= <-]. constructor; [done|].
      apply act_lt_false in Hlt.
      constructor; [done|].
      apply StronglySorted_inv in Hs as [_ Hall].
      eapply Forall_impl; [exact Hall|].
      unfold later_first. intros; lia.
Qed.

Lemma sorted_desc_perm (l r : list activity) :
  sorted_desc py2_lt l = Some r → r ≡ₚ l.
Proof.
  revert r. induction l as [|x l IH]; intros r; cbn [sorted_desc].
  - by intros [= <-].
  - destruct (sorted_desc py2_lt l) as [r'|]; [|done].
    cbn [mbind option_bind]. intros ->%insert_desc_perm.
    by rewrite (IH r' eq_refl).
Qed.

Lemma sorted_desc_sorted (l r : list activity) :
  sorted_desc py2_lt l = Some r → StronglySorted later_first r.
Proof.
  revert r. induction l as [|x l IH]; intros r; cbn [sorted_desc].
  - intros [= <-]. constructor.
  - destruct (sorted_desc py2_lt l) as [r'|]; [|done].
    cbn [mbind option_bind]. apply insert_desc_sorted. by apply IH.
Qed.

Lemma filter_acts_date (time_doc : doc) (t : Z) (acts r : list activity) :
  filter_acts py2_lt (VDate t) time_doc acts = Some r →
  ∀ a, a ∈ r ↔ a ∈ acts ∧ when a < t ∧ is_Some (time_doc !! field a).
Proof.
  revert r. induction acts as [|x acts IH]; intros r; cbn [filter_acts].
  - intros [= <-] a. split; [by intros ?%elem_of_nil|].
    by intros [?%elem_of_nil _].
  - cbn [py_lt mbind option_bind].
    destruct (filter_acts py2_lt (VDate t) time_doc acts) as [r'|]; [|done].
    cbn [mbind option_bind]. intros [= <-] a.
    specialize (IH r' eq_refl a).
    case_bool_decide as Hlt; case_bool_decide as Hin; cbn [andb];
      rewrite ?elem_of_cons, IH; naive_solver.
Qed.

Lemma filter_acts_inv (td_start : value) (time_doc : doc)
  (acts r : list activity) :
  filter_acts py2_lt td_start time_doc acts = Some r →
  acts = [] ∧ r = [] ∨ ∃ t, td_start = VDate t.
Proof.
  destruct acts as [|x acts]; cbn [filter_acts].
  - intros [= <-]. by left.
  - destruct td_start; cbn [py_lt mbind option_bind]; try done.
    intros _. right. by eexists.
Qed.
End Sorting.

(** ** One iteration of the loop *)

Lemma group_or_split_inv (batch rest : list doc) (w : Z) (last_doc new_doc : doc) :
  group_or_split batch w = Some (rest, last_doc, new_doc) →
  (batch = rest ++ [last_doc; new_doc] ∧ new_doc !! "_end" = Some (VDate w))
  ∨ (∃ x e, batch = rest ++ [x] ∧ x !! "_end" = Some e ∧ e ≠ VDate w ∧
            last_doc = <["_start" := VDate w]> x ∧
            new_doc = <["_end" := VDate w]> (<["_start" := VDate w]> (delete "_id" x))).
Proof.
  unfold group_or_split.
  destruct (pop batch) as [[b1 x]|] eqn:Hpop; [|done].
  apply pop_Some in Hpop as ->. cbn [mbind option_bind].
  destruct (x !! "_end") as [e|] eqn:He; [|done]. cbn [mbind option_bind].
  destruct (decide (e = VDate w)) as [->|Hne].
  - destruct (pop b1) as [[b2 y]|] eqn:Hpop; [|done].
    apply pop_Some in Hpop as ->. cbn [mbind option_bind].
    intros [= <- <- <-]. left. by rewrite <- app_assoc.
  - intros [= <- <- <-]. right. by exists x, e.
Qed.

Lemma loop_body_inv (dt2ts : Z → value) (batch batch' : list doc)
  (log log' : list logrec) (act : activity) :
  loop_body dt2ts (batch, log) act = Some (batch', log') →
  ∃ rest last_doc new_doc new_doc',
    group_or_split batch (when act) = Some (rest, last_doc, new_doc) ∧
    batch' = rest ++ [last_doc; new_doc'] ∧
    amends (field act) new_doc new_doc'.
Proof.
  unfold loop_body.
  destruct (group_or_split batch (when act)) as [[[rest last_doc] new_doc]|];
    [|done]. cbn [mbind option_bind].
  destruct (last_doc !! field act) as [lv|]; [|done]. cbn [mbind option_bind].
  destruct (new_doc !! field act) as [val|] eqn:Hval; [|done].
  cbn [mbind option_bind].
  destruct (_activity_backwards _ _ _) as [[nv inc]|]; [|done].
  cbn [mbind option_bind]. destruct inc.
  - unfold mark_corrupted.
    destruct (last_doc !! "_oid") as [oid|]; [|done]. cbn [mbind option_bind].
    destruct (incon_json_ok _); [|done].
    destruct (corrupted_dict _) as [c|]; [|done]. cbn [mbind option_bind].
    intros [= <- <-]. eexists rest, last_doc, new_doc, _.
    split; [done|]. split; [done|]. split; [by rewrite Hval|]. split.
    + intros k Hk Hc. by rewrite lookup_insert_ne, lookup_insert_ne.
    + intros k. destruct (decide (k = "_corrupted")) as [->|?]; [by right|].
      rewrite lookup_insert_ne by done.
      destruct (decide (k = field act)) as [->|?]; [rewrite Hval; by left|].
      rewrite lookup_insert_ne by done. by left.
  - intros [= <- <-]. eexists rest, last_doc, new_doc, _.
    split; [done|]. split; [done|]. split; [by rewrite Hval|]. split.
    + intros k Hk Hc. by rewrite lookup_insert_ne.
    + intros k. destruct (decide (k = field act)) as [->|?]; [rewrite Hval; by left|].
      rewrite lookup_insert_ne by done. by left.
Qed.

Lemma amends_instant (f k : string) (d d' : doc) :
  amends f d d' → f ≠ k → k ≠ "_corrupted" → instant d' k = instant d k.
Proof.
  intros (_ & Hsame & _) ? ?. unfold instant. by rewrite Hsame.
Qed.

Lemma follows_instants (a b a' b' : doc) :
  instant a' "_start" = instant a "_start" →
  instant a' "_end" = instant a "_end" →
  instant b' "_start" = instant b "_start" →
  follows a' b' = follows a b.
Proof. unfold follows. by intros -> -> ->. Qed.

Lemma instant_insert_eq (d : doc) (k : string) (t : Z) :
  instant (<[k := VDate t]> d) k = Some t.
Proof. unfold instant. by rewrite lookup_insert_eq. Qed.

Lemma instant_insert_ne (d : doc) (k k' : string) (v : value) :
  k ≠ k' → instant (<[k := v]> d) k' = instant d k'.
Proof. intros ?. unfold instant. by rewrite lookup_insert_ne. Qed.

Lemma partitions_cons (a b : doc) (l : list doc) :
  partitions (a :: b :: l) = follows a b && partitions (b :: l).
Proof. reflexivity. Qed.


Lemma reverse_snoc2 {A : Type} (l : list A) (x y : A) :
  reverse (l ++ [x; y]) = y :: x :: reverse l.
Proof. by rewrite reverse_app. Qed.

Lemma snoc_eq_singleton {A : Type} (l : list A) (x y : A) :
  l ++ [x] = [y] → l = [] ∧ x = y.
Proof.
  destruct l as [|a l]; simpl; [by intros [= ->]|].
  intros [= _ H]. by destruct l.
Qed.

Lemma follows_inv (a b : doc) :
  follows a b = true →
  ∃ s e, instant a "_start" = Some s ∧ instant a "_end" = Some e ∧
         instant b "_start" = Some e ∧ s ≤ e.
Proof.
  unfold follows.
  destruct (instant a "_start") as [s|]; [|done].
  destruct (instant a "_end") as [e|]; [|done].
  destruct (instant b "_start") as [t|]; [|done].
  intros [->%bool_decide_eq_true ?%bool_decide_eq_true]%andb_true_iff.
  by exists s, t.
Qed.

Lemma loop_body_chain (dt2ts : Z → value) (td : doc) (lo : option Z)
  (batch batch' : list doc) (log log' : list logrec) (act : activity) :
  chain_inv td lo batch → names_field act →
  (∀ w, lo = Some w → when act ≤ w) →
  loop_body dt2ts (batch, log) act = Some (batch', log') →
  chain_inv td (Some (when act)) batch'.
Proof.
  intros (Hpart & (a & Hhead & Hend) & Hlo) [Hfs Hfe] Hle Hbody.
  apply loop_body_inv in Hbody
    as (rest & last_doc & new_doc & new_doc' & Hgs & -> & Ham).
  pose proof (amends_instant _ "_start" _ _ Ham Hfs ltac:(done)) as Hs'.
  pose proof (amends_instant _ "_end" _ _ Ham Hfe ltac:(done)) as He'.
  apply group_or_split_inv in Hgs
    as [[-> Hnd] | (x & e & -> & Hxe & Hne & -> & ->)].
  - (* grouped with the previous activity *)
    destruct lo as [w|]; [|by destruct rest as [|? [|]]].
    destruct Hlo as (rest0 & dk & Heq & _ & Hdks & Hdke).
    change [last_doc; new_doc] with ([last_doc] ++ [new_doc]) in Heq.
    rewrite app_assoc in Heq. apply app_inj_tail in Heq as [<- <-].
    assert (w = when act) as ->.
    { unfold instant in Hdke. rewrite Hnd in Hdke. by injection Hdke. }
    rewrite reverse_snoc2, partitions_cons in Hpart.
    split; [|split].
    + rewrite reverse_snoc2, partitions_cons.
      by rewrite (follows_instants new_doc last_doc new_doc' last_doc).
    + exists a. split; [|done]. by destruct rest.
    + exists (rest ++ [last_doc]), new_doc'.
      rewrite <- app_assoc. split; [done|]. split; [by destruct rest|].
      by rewrite Hs', He'.
  - (* a new version that ends at [when] *)
    set (w := when act) in *.
    set (nd := <["_end" := VDate w]> (<["_start" := VDate w]> (delete "_id" x))) in *.
    assert (instant nd "_start" = Some w) as Hnds.
    { unfold nd. rewrite instant_insert_ne by done. apply instant_insert_eq. }
    assert (instant nd "_end" = Some w) as Hnde by apply instant_insert_eq.
    assert (follows new_doc' (<["_start" := VDate w]> x) = true) as Hfol.
    { unfold follows. rewrite Hs', He', Hnds, Hnde, instant_insert_eq.
      by rewrite !bool_decide_eq_true_2. }
    rewrite reverse_snoc in Hpart.
    split; [|split].
    + rewrite reverse_snoc2, partitions_cons, Hfol. cbn [andb].
      destruct lo as [w0|].
      * destruct Hlo as (rest0 & dk & Heq & Hne0 & Hdks & Hdke).
        apply app_inj_tail in Heq as [<- <-].
        destruct (reverse rest) as [|y s] eqn:Hrev.
        { destruct Hne0. apply (f_equal reverse) in Hrev.
          by rewrite reverse_involutive in Hrev. }
        rewrite partitions_cons in Hpart |- *.
        apply andb_true_iff in Hpart as [Hxy ->]. rewrite andb_true_r.
        apply follows_inv in Hxy as (s0 & e0 & Hs0 & He0 & Hy & _).
        unfold follows.
        rewrite instant_insert_eq, instant_insert_ne, He0, Hy by done.
        rewrite !bool_decide_eq_true_2; [done| |done].
        specialize (Hle w0 eq_refl). congruence.
      * apply snoc_eq_singleton in Hlo as [-> _]. done.
    + destruct rest as [|r rest].
      * exists (<["_start" := VDate w]> x). split; [done|].
        injection Hhead as <-. by rewrite lookup_insert_ne.
      * by exists a.
    + exists (rest ++ [<["_start" := VDate w]> x]), new_doc'.
      rewrite <- app_assoc. split; [done|]. split; [by destruct rest|].
      by rewrite Hs', He'.
Qed.

Lemma for_each_chain (dt2ts : Z → value) (td : doc) (l : list activity) :
  ∀ (lo : option Z) (batch batch' : list doc) (log log' : list logrec),
    chain_inv td lo batch → Forall names_field l →
    StronglySorted later_first l →
    (∀ w, lo = Some w → Forall (λ a, when a ≤ w) l) →
    for_each (loop_body dt2ts) (batch, log) l = Some (batch', log') →
    chain_inv td (match last l with Some a => Some (when a) | None => lo end) batch'.
Proof.
  induction l as [|a l IH]; intros lo batch batch' log log' Hinv Hf Hs Hle.
  - by intros [= <- <-].
  - cbn [for_each].
    destruct (loop_body dt2ts (batch, log) a) as [[b1 l1]|] eqn:Hb; [|done].
    cbn [mbind option_bind]. intros Hrun.
    apply Forall_cons in Hf as [Hfa Hf].
    apply StronglySorted_inv in Hs as [Hs Hall].
    eapply loop_body_chain in Hb; [|done|done|].
    2:{ intros w Hw. specialize (Hle w Hw). by apply Forall_cons in Hle as [? _]. }
    eapply IH in Hrun; [|done|done|done|by intros w [= <-]].
    destruct l as [|a0 l]; [exact Hrun|]. rewrite last_cons_cons.
    destruct (last (a0 :: l)) eqn:Hl; [exact Hrun|]. by apply last_None in Hl.
Qed.

Lemma loop_body_keys (dt2ts : Z → value) (td : doc)
  (batch batch' : list doc) (log log' : list logrec) (act : activity) :
  is_Some (td !! "_start") →
  Forall (keys_within td) batch →
  loop_body dt2ts (batch, log) act = Some (batch', log') →
  Forall (keys_within td) batch'.
Proof.
  intros Htd Hall Hbody.
  apply loop_body_inv in Hbody
    as (rest & last_doc & new_doc & new_doc' & Hgs & -> & Ham).
  assert (keys_within td new_doc → keys_within td new_doc') as Hnew.
  { intros Hk k Hin. destruct Ham as (_ & _ & Hdom).
    destruct (Hdom k Hin) as [?| ->]; [by apply Hk|by right]. }
  apply group_or_split_inv in Hgs
    as [[-> Hnd] | (x & e & -> & Hxe & Hne & -> & ->)].
  - apply Forall_app in Hall as [Hrest Hlast].
    apply Forall_cons in Hlast as [Hl Hn]. apply Forall_cons in Hn as [Hn _].
    apply Forall_app. split; [done|].
    apply Forall_cons. split; [done|].
    apply Forall_cons. split; [by apply Hnew|constructor].
  - apply Forall_app in Hall as [Hrest Hx]. apply Forall_cons in Hx as [Hx _].
    assert (is_Some (td !! "_end")) as Hte.
    { destruct (Hx "_end") as [?|?]; [by rewrite Hxe|done|done]. }
    apply Forall_app. split; [done|].
    apply Forall_cons. split; [|apply Forall_cons; split; [|constructor]].
    + intros k. destruct (decide (k = "_start")) as [->|?]; [by left|].
      rewrite lookup_insert_ne by done. apply Hx.
    + apply Hnew. intros k.
      destruct (decide (k = "_end")) as [->|?]; [by left|].
      rewrite lookup_insert_ne by done.
      destruct (decide (k = "_start")) as [->|?]; [by left|].
      rewrite lookup_insert_ne by done.
      destruct (decide (k = "_id")) as [->|?];
        [by rewrite lookup_delete_eq; intros []|].
      rewrite lookup_delete_ne by done. apply Hx.
Qed.

Lemma for_each_keys (dt2ts : Z → value) (td : doc) (l : list activity) :
  ∀ (batch batch' : list doc) (log log' : list logrec),
    is_Some (td !! "_start") →
    Forall (keys_within td) batch →
    for_each (loop_body dt2ts) (batch, log) l = Some (batch', log') →
    Forall (keys_within td) batch'.
Proof.
  induction l as [|a l IH]; intros batch batch' log log' Htd Hall.
  - by intros [= <- <-].
  - cbn [for_each].
    destruct (loop_body dt2ts (batch, log) a) as [[b1 l1]|] eqn:Hb; [|done].
    cbn [mbind option_bind]. intros Hrun.
    eapply IH; [done| |done]. by eapply loop_body_keys.
Qed.

(** ** The whole loop and the creation time *)

Section Run.
Variable ts2dt : value → option value.
Variable dt2ts : Z → value.
Variable cfield : option string.
Variable py2_lt : value → value → option bool.

Lemma reconstruct_inv (time_doc : doc) (acts : list activity)
  (batch : list doc) (log : list logrec) :
  reconstruct ts2dt dt2ts py2_lt time_doc acts = Some (batch, log) →
  ∃ ts td_start l,
    time_doc !! "_start" = Some ts ∧ ts2dt ts = Some td_start ∧
    for_each (loop_body dt2ts) ([<["_start" := td_start]> time_doc], []) l
      = Some (batch, log) ∧
    StronglySorted later_first l ∧
    ((acts = [] ∧ l = []) ∨
     ∃ t, td_start = VDate t ∧
          ∀ a, a ∈ l ↔ a ∈ acts ∧ when a < t ∧
                       is_Some (<["_start" := td_start]> time_doc !! field a)).
Proof.
  unfold reconstruct.
  destruct (time_doc !! "_start") as [ts|]; [|done]. cbn [mbind option_bind].
  destruct (ts2dt ts) as [td_start|] eqn:Htd; [|done].
  cbn [mbind option_bind].
  destruct (filter_acts _ _ _ _) as [fl|] eqn:Hfl; [|done].
  cbn [mbind option_bind].
  destruct (sorted_desc py2_lt fl) as [l|] eqn:Hl; [|done].
  cbn [mbind option_bind]. intros Hrun.
  exists ts, td_start, l. split; [done|]. split; [done|].
  split; [exact Hrun|]. split; [by eapply sorted_desc_sorted|].
  pose proof (sorted_desc_perm _ _ _ Hl) as Hperm.
  destruct (filter_acts_inv _ _ _ _ _ Hfl) as [[-> ->]|[t ->]].
  - left. split; [done|]. by apply Permutation_nil_r in Hperm.
  - right. exists t. split; [done|]. intros a.
    rewrite Hperm. by apply (filter_acts_date py2_lt).
Qed.

Lemma creation_step_inv (batch ret : list doc) :
  creation_step ts2dt cfield py2_lt batch = Some ret →
  ∃ older last_doc f raw c st (lt : bool),
    batch = older ++ [last_doc] ∧ cfield = Some f ∧
    last_doc !! f = Some raw ∧ ts2dt raw = Some c ∧
    last_doc !! "_start" = Some st ∧ py_lt py2_lt c st = Some lt ∧
    ret = if lt then older ++ [<["_start" := c]> last_doc]
          else if decide (length batch = 1%nat) then [] else batch.
Proof.
  unfold creation_step.
  destruct (pop batch) as [[older last_doc]|] eqn:Hpop; [|done].
  apply pop_Some in Hpop. cbn [mbind option_bind].
  destruct cfield as [f|]; [|done]. cbn [mbind option_bind].
  destruct (last_doc !! f) as [raw|] eqn:Hraw; [|done]. cbn [mbind option_bind].
  destruct (ts2dt raw) as [c|] eqn:Hc; [|done]. cbn [mbind option_bind].
  destruct (last_doc !! "_start") as [st|] eqn:Hst; [|done].
  cbn [mbind option_bind].
  destruct (py_lt py2_lt c st) as [lt|] eqn:Hlt; [|done].
  cbn [mbind option_bind]. intros Hret.
  exists older, last_doc, f, raw, c, st, lt.
  repeat (split; [done|]). by destruct lt; [|case_decide]; injection Hret.
Qed.

Lemma py_lt_date_r (c : value) (w : Z) (lt : bool) :
  py_lt py2_lt c (VDate w) = Some lt →
  ∃ t, c = VDate t ∧ lt = bool_decide (t < w).
Proof. destruct c; try done. intros [= <-]. by eexists. Qed.

Lemma instant_lookup (d : doc) (k : string) (t : Z) :
  instant d k = Some t → d !! k = Some (VDate t).
Proof.
  unfold instant. destruct (d !! k) as [[]|]; try done. by intros [= ->].
Qed.

(** The batch that the loop leaves satisfies the invariant. *)
Lemma reconstruct_chain (time_doc : doc) (acts : list activity)
  (batch : list doc) (log : list logrec) :
  Forall names_field acts →
  reconstruct ts2dt dt2ts py2_lt time_doc acts = Some (batch, log) →
  ∃ ts td_start l,
    time_doc !! "_start" = Some ts ∧ ts2dt ts = Some td_start ∧
    StronglySorted later_first l ∧
    ((acts = [] ∧ l = []) ∨
     ∃ t, td_start = VDate t ∧
          ∀ a, a ∈ l ↔ a ∈ acts ∧ when a < t ∧
                       is_Some (<["_start" := td_start]> time_doc !! field a)) ∧
    chain_inv (<["_start" := td_start]> time_doc)
              (when <$> last l) batch ∧
    Forall (keys_within (<["_start" := td_start]> time_doc)) batch.
Proof.
  intros Hf (ts & td_start & l & Hts & Htd & Hrun & Hs & Hl)%reconstruct_inv.
  exists ts, td_start, l. repeat (split; [done|]).
  assert (Forall names_field l) as Hfl.
  { destruct Hl as [[_ ->]|(t & _ & Hl)]; [constructor|].
    rewrite Forall_forall in Hf |- *. intros a Ha. apply Hf. by apply Hl. }
  split.
  - eapply (for_each_chain _ (<["_start" := td_start]> time_doc) _ None)
      in Hrun; [|split; [done|split; [by eexists|done]]|done|done|done].
    by destruct (last l).
  - eapply for_each_keys; [| |done].
    + by rewrite lookup_insert_eq.
    + apply Forall_cons. split; [|constructor]. intros k ?. by left.
Qed.

(** C2.  Whatever the anchor and the activities, as long as these name
    fields of the document and not the keys [_start] and [_end] of its
    interval: a batch that [_activity_import_doc] returns and that is not
    empty, read from its last document to its first, is in ascending order
    of [_start] and has every document end at the instant at which the next
    one starts; the newest one, first in the batch, keeps the [_end] of the
    anchor. *)
Theorem C2_partition (time_doc : doc) (acts : list activity)
  (batch : list doc) (log : list logrec) :
  Forall names_field acts →
  _activity_import_doc ts2dt dt2ts cfield py2_lt time_doc acts = Some (batch, log) →
  batch ≠ [] →
  partitions (reverse batch) = true ∧
  ∃ newest, head batch = Some newest ∧ newest !! "_end" = time_doc !! "_end".
Proof.
  intros Hf Hrun Hne. unfold _activity_import_doc in Hrun.
  destruct (reconstruct _ _ _ _ _) as [[b1 log1]|] eqn:Hrec; [|done].
  cbn [mbind option_bind] in Hrun.
  apply reconstruct_chain in Hrec
    as (ts & td_start & l & Hts & Htd & Hs & Hl & Hinv & _); [|done].
  destruct Hinv as (Hpart & (a & Hhead & Hend) & Hlo).
  rewrite lookup_insert_ne in Hend by done.
  destruct (creation_step _ _ _ b1) as [ret|] eqn:Hc.
  2:{ injection Hrun as <- <-. split; [done|]. by exists a. }
  injection Hrun as <- <-.
  apply creation_step_inv in Hc
    as (older & last_doc & f & raw & c & st & lt & -> & _ & _ & _ & Hst & Hlt & ->).
  destruct lt; [|case_decide; [done|split; [done|by exists a]]].
  rewrite reverse_snoc in Hpart |- *. split.
  - destruct (when <$> last l) as [w|].
    + destruct Hlo as (rest0 & dk & Heq & Hne0 & Hdks & Hdke).
      apply app_inj_tail in Heq as [<- <-].
      apply instant_lookup in Hdks. rewrite Hdks in Hst. injection Hst as <-.
      apply py_lt_date_r in Hlt as (t & -> & Ht).
      symmetry in Ht. apply bool_decide_eq_true in Ht.
      destruct (reverse older) as [|y s]; [done|].
      rewrite partitions_cons in Hpart |- *.
      apply andb_true_iff in Hpart as [Hxy ->]. rewrite andb_true_r.
      apply follows_inv in Hxy as (s0 & e0 & Hs0 & He0 & Hy & Hse).
      unfold follows.
      rewrite instant_insert_eq, instant_insert_ne, He0, Hy by done.
      rewrite !bool_decide_eq_true_2; [done| |done].
      unfold instant in Hs0. rewrite Hdks in Hs0. injection Hs0 as <-. lia.
    + apply snoc_eq_singleton in Hlo as [-> _]. done.
  - destruct older as [|r older].
    + eexists. split; [done|]. injection Hhead as <-.
      by rewrite lookup_insert_ne.
    + by exists a.
Qed.
End Run.

(** ** The end-to-end scenario *)

(** C1, as the code has it.  For the anchor
    [{oid:1, start:200, end:None, status:'open'}] and the activity
    [(150, 'status', 'new', 'open')], on a cube whose creation field the
    document does not carry, [_activity_import_doc] returns the anchor first,
    now starting at 150 where the activity put the value ['open'], and then
    the version before it with [status = 'new'], which ends at 150 and, no
    earlier instant being known, starts there too; the unread creation time is
    logged as a warning. *)
Theorem C1_scenario (ts2dt : value → option value) (dt2ts : Z → value)
  (cfield : option string) (py2_lt : value → value → option bool) :
  ts2dt (VNum 200) = Some (VDate 200) →
  (∀ f, cfield = Some f → anchor_200 !! f = None) →
  _activity_import_doc ts2dt dt2ts cfield py2_lt anchor_200 status_opened
  = Some ([opened_at_150; new_until_150], [LogWarn]).
Proof.
  intros Hts Hcf. unfold _activity_import_doc, reconstruct.
  change (anchor_200 !! "_start") with (Some (VNum 200)).
  cbn [mbind option_bind]. rewrite Hts. cbn [mbind option_bind].
  change (filter_acts py2_lt (VDate 200) (<["_start" := VDate 200]> anchor_200)
            status_opened) with (Some status_opened).
  cbn [mbind option_bind status_opened sorted_desc insert_desc for_each].
  assert (loop_body dt2ts ([<["_start" := VDate 200]> anchor_200], [])
            (Act 150 "status" (VStr "new") (VStr "open"))
          = Some ([opened_at_150; new_until_150], [])) as -> by by vm_compute.
  cbn [mbind option_bind].
  assert (creation_step ts2dt cfield py2_lt [opened_at_150; new_until_150] = None)
    as ->; [|done].
  unfold creation_step.
  change (pop [opened_at_150; new_until_150])
    with (Some ([opened_at_150], new_until_150)).
  cbn [mbind option_bind]. destruct cfield as [f|]; [|done].
  cbn [mbind option_bind]. specialize (Hcf f eq_refl).
  assert (new_until_150 !! f = None) as ->; [|done].
  destruct (decide (f = "_oid")) as [->|?]; [done|].
  destruct (decide (f = "_start")) as [->|?]; [done|].
  destruct (decide (f = "_end")) as [->|?]; [done|].
  destruct (decide (f = "status")) as [->|?]; [done|].
  unfold new_until_150.
  by rewrite !lookup_insert_ne, lookup_singleton_ne.
Qed.

(** ** Activities at the same instant *)

Lemma loop_body_end (dt2ts : Z → value) (batch batch' : list doc)
  (log log' : list logrec) (act : activity) :
  field act ≠ "_end" →
  loop_body dt2ts (batch, log) act = Some (batch', log') →
  ∃ rest d, batch' = rest ++ [d] ∧ d !! "_end" = Some (VDate (when act)) ∧
            rest ≠ [].
Proof.
  intros Hf (rest & last_doc & new_doc & new_doc' & Hgs & -> & Ham)%loop_body_inv.
  exists (rest ++ [last_doc]), new_doc'. rewrite <- app_assoc.
  split; [done|].
  assert (new_doc' !! "_end" = new_doc !! "_end") as ->.
  { destruct Ham as (_ & Hsame & _). by apply Hsame. }
  apply group_or_split_inv in Hgs
    as [[-> Hnd] | (x & e & -> & Hxe & Hne & -> & ->)].
  - split; [done|by destruct rest].
  - split; [by rewrite lookup_insert_eq|by destruct rest].
Qed.

Lemma loop_body_group (dt2ts : Z → value) (rest : list doc) (d : doc)
  (batch' : list doc) (log log' : list logrec) (act : activity) :
  d !! "_end" = Some (VDate (when act)) →
  loop_body dt2ts (rest ++ [d], log) act = Some (batch', log') →
  ∃ d', batch' = rest ++ [d'] ∧ amends (field act) d d'.
Proof.
  intros Hd (rest2 & last_doc & new_doc & new_doc' & Hgs & -> & Ham)%loop_body_inv.
  apply group_or_split_inv in Hgs
    as [[Heq Hnd] | (x & e & Heq & Hxe & Hne & -> & ->)].
  - change [last_doc; new_doc] with ([last_doc] ++ [new_doc]) in Heq.
    rewrite app_assoc in Heq. apply app_inj_tail in Heq as [-> ->].
    exists new_doc'. by rewrite <- app_assoc.
  - apply app_inj_tail in Heq as [_ ->]. congruence.
Qed.

(** C6.  Two activities at the same instant, handled one after the other,
    the first on a field other than the key [_end]: the second one amends in
    place the document that the first one left last in the batch, so the batch
    keeps its length and all its other documents, and the amended document
    differs at most in the field of the second activity and in [_corrupted].
    From an anchor that both activities match, neither of them on the key
    [_end], [_activity_import_doc] returns two documents: the anchor and one
    version before it. *)
Theorem C6_same_instant :
  (∀ (dt2ts : Z → value) (batch b1 b2 : list doc) (log l1 l2 : list logrec)
     (a1 a2 : activity),
      when a1 = when a2 → field a1 ≠ "_end" →
      loop_body dt2ts (batch, log) a1 = Some (b1, l1) →
      loop_body dt2ts (b1, l1) a2 = Some (b2, l2) →
      ∃ rest d d', b1 = rest ++ [d] ∧ b2 = rest ++ [d'] ∧
                   d !! "_end" = Some (VDate (when a2)) ∧
                   amends (field a2) d d')
  ∧ (∀ (ts2dt : value → option value) (dt2ts : Z → value)
       (cfield : option string) (py2_lt : value → value → option bool)
       (time_doc : doc) (a1 a2 : activity) (ts : value) (t0 : Z)
       (batch : list doc) (log : list logrec),
      when a1 = when a2 → field a1 ≠ "_end" → field a2 ≠ "_end" →
      time_doc !! "_start" = Some ts → ts2dt ts = Some (VDate t0) →
      when a1 < t0 →
      is_Some (time_doc !! field a1) → is_Some (time_doc !! field a2) →
      _activity_import_doc ts2dt dt2ts cfield py2_lt time_doc [a1; a2]
        = Some (batch, log) →
      length batch = 2%nat).
Proof.
  assert (Hstep : ∀ (dt2ts : Z → value) (batch b1 b2 : list doc)
     (log l1 l2 : list logrec) (a1 a2 : activity),
      when a1 = when a2 → field a1 ≠ "_end" →
      loop_body dt2ts (batch, log) a1 = Some (b1, l1) →
      loop_body dt2ts (b1, l1) a2 = Some (b2, l2) →
      ∃ rest d d', b1 = rest ++ [d] ∧ b2 = rest ++ [d'] ∧
                   d !! "_end" = Some (VDate (when a2)) ∧
                   amends (field a2) d d').
  { intros dt2ts batch b1 b2 log l1 l2 a1 a2 Hw Hf H1 H2.
    apply loop_body_end in H1 as (rest & d & -> & Hd & _); [|done].
    rewrite Hw in Hd.
    apply loop_body_group in H2 as (d' & -> & Ham); [|done].
    by exists rest, d, d'. }
  split; [exact Hstep|].
  intros ts2dt dt2ts cfield py2_lt time_doc a1 a2 ts t0 batch log
    Hw Hf1 Hf2 Hts Htd Hlt Hin1 Hin2.
  unfold _activity_import_doc, reconstruct.
  rewrite Hts. cbn [mbind option_bind]. rewrite Htd.
  cbn [mbind option_bind filter_acts py_lt].
  assert (∀ k, is_Some (time_doc !! k) →
               is_Some (<["_start" := VDate t0]> time_doc !! k)) as Hkeep.
  { intros k ?. destruct (decide (k = "_start")) as [->|?].
    - by rewrite lookup_insert_eq.
    - by rewrite lookup_insert_ne. }
  rewrite <- Hw, !bool_decide_eq_true_2 by auto.
  cbn [andb mbind option_bind].
  destruct (sorted_desc py2_lt [a1; a2]) as [l|] eqn:Hl; [|done].
  cbn [mbind option_bind].
  destruct (for_each _ _ l) as [[b lg]|] eqn:Hrun; [|done].
  cbn [mbind option_bind].
  assert (length b = 2%nat) as Hlen.
  { apply sorted_desc_perm in Hl. symmetry in Hl.
    apply Permutation_length_2_inv in Hl as [-> | ->];
      cbn [for_each] in Hrun;
      (destruct (loop_body _ _ _) as [[b1 lg1]|] eqn:H1; [|done]);
      cbn [mbind option_bind] in Hrun;
      (destruct (loop_body _ (b1, lg1) _) as [[b2 lg2]|] eqn:H2; [|done]);
      cbn [mbind option_bind] in Hrun; injection Hrun as <- <-.
    - destruct (Hstep _ _ _ _ _ _ _ _ _ Hw Hf1 H1 H2) as (rest & d & d' & -> & -> & _).
      apply loop_body_inv in H1 as (r & ld & nd & nd' & Hgs & Heq & _).
      apply group_or_split_inv in Hgs as [[? _]|(x & e & Hx & _)].
      + by destruct r as [|? [|]].
      + symmetry in Hx. apply snoc_eq_singleton in Hx as [-> _].
        change [ld; nd'] with ([ld] ++ [nd']) in Heq.
        apply app_inj_tail in Heq as [-> _]. done.
    - symmetry in Hw.
      destruct (Hstep _ _ _ _ _ _ _ _ _ Hw Hf2 H1 H2) as (rest & d & d' & -> & -> & _).
      apply loop_body_inv in H1 as (r & ld & nd & nd' & Hgs & Heq & _).
      apply group_or_split_inv in Hgs as [[? _]|(x & e & Hx & _)].
      + by destruct r as [|? [|]].
      + symmetry in Hx. apply snoc_eq_singleton in Hx as [-> _].
        change [ld; nd'] with ([ld] ++ [nd']) in Heq.
        apply app_inj_tail in Heq as [-> _]. done. }
  destruct (creation_step ts2dt cfield py2_lt b) as [ret|] eqn:Hc.
  - intros [= <- <-].
    apply creation_step_inv in Hc
      as (older & last_doc & f & raw & c & st & lt & -> & _ & _ & _ & _ & _ & ->).
    destruct lt; [by rewrite length_app in Hlen |- *|].
    case_decide; [congruence|done].
  - by intros [= <- <-].
Qed.

(** ** The creation time and the empty batch *)

Section Creation.
Variable ts2dt : value → option value.
Variable dt2ts : Z → value.
Variable cfield : option string.
Variable py2_lt : value → value → option bool.

Lemma filter_acts_none (t : Z) (td : doc) (acts : list activity) :
  Forall (λ a, ¬ matches t td a) acts →
  filter_acts py2_lt (VDate t) td acts = Some [].
Proof.
  induction 1 as [|a acts Ha _ IH]; [done|].
  cbn [filter_acts py_lt mbind option_bind]. rewrite IH.
  cbn [mbind option_bind].
  case_bool_decide; [|done]. case_bool_decide; [|done].
  by destruct Ha.
Qed.

Lemma reconstruct_no_match (time_doc : doc) (acts : list activity)
  (ts : value) (t : Z) :
  time_doc !! "_start" = Some ts → ts2dt ts = Some (VDate t) →
  Forall (λ a, ¬ matches t (<["_start" := VDate t]> time_doc) a) acts →
  reconstruct ts2dt dt2ts py2_lt time_doc acts
  = Some ([<["_start" := VDate t]> time_doc], []).
Proof.
  intros Hts Htd Hno. unfold reconstruct.
  rewrite Hts. cbn [mbind option_bind]. rewrite Htd. cbn [mbind option_bind].
  by rewrite filter_acts_none.
Qed.

Lemma creation_unread_raises (older : list doc) (last_doc : doc) :
  creation_unread ts2dt cfield last_doc →
  creation_step ts2dt cfield py2_lt (older ++ [last_doc]) = None.
Proof.
  intros Hun. unfold creation_step. rewrite pop_snoc.
  cbn [mbind option_bind].
  destruct Hun as [->|(f & -> & [Hf|(raw & Hf & Hraw)])]; [done| |];
    cbn [mbind option_bind]; rewrite Hf; [done|].
  cbn [mbind option_bind]. by rewrite Hraw.
Qed.

Lemma creation_read (older : list doc) (last_doc : doc) (f : string)
  (raw : value) (c s : Z) :
  cfield = Some f → last_doc !! f = Some raw → ts2dt raw = Some (VDate c) →
  last_doc !! "_start" = Some (VDate s) →
  creation_step ts2dt cfield py2_lt (older ++ [last_doc])
  = Some (if bool_decide (c < s)
          then older ++ [<["_start" := VDate c]> last_doc]
          else if decide (length (older ++ [last_doc]) = 1%nat) then []
               else older ++ [last_doc]).
Proof.
  intros -> Hf Hraw Hs. unfold creation_step. rewrite pop_snoc.
  cbn [mbind option_bind]. rewrite Hf. cbn [mbind option_bind].
  rewrite Hraw. cbn [mbind option_bind]. rewrite Hs.
  cbn [mbind option_bind py_lt]. case_bool_decide; [done|]. by case_decide.
Qed.

(** C7, as the code has it.  When the creation instant of the oldest
    document of the batch is read and is earlier than its start, the
    document starts at the creation instant in what is returned; when it is
    read, is not earlier, and the batch holds nothing but the anchor, the
    empty batch is returned.  An anchor that starts at 100, with creation
    instant 50 and no matching activity, comes back alone, starting at
    50. *)
Theorem C7_creation_time :
  (∀ (time_doc : doc) (acts : list activity) (older : list doc)
     (last_doc : doc) (log : list logrec) (f : string) (raw : value) (c s : Z),
      reconstruct ts2dt dt2ts py2_lt time_doc acts
        = Some (older ++ [last_doc], log) →
      cfield = Some f → last_doc !! f = Some raw →
      ts2dt raw = Some (VDate c) →
      last_doc !! "_start" = Some (VDate s) →
      (c < s →
       _activity_import_doc ts2dt dt2ts cfield py2_lt time_doc acts
       = Some (older ++ [<["_start" := VDate c]> last_doc], log))
      ∧ (s ≤ c → older = [] →
         _activity_import_doc ts2dt dt2ts cfield py2_lt time_doc acts
         = Some ([], log)))
  ∧ (∀ acts : list activity,
      ts2dt (VNum 100) = Some (VDate 100) →
      ts2dt (VNum 50) = Some (VDate 50) →
      cfield = Some "created" →
      Forall (λ a, ¬ matches 100 (<["_start" := VDate 100]> anchor_100) a) acts →
      _activity_import_doc ts2dt dt2ts cfield py2_lt anchor_100 acts
      = Some ([<["_start" := VDate 50]> anchor_100], [])).
Proof.
  assert (Hgen : ∀ (time_doc : doc) (acts : list activity) (older : list doc)
     (last_doc : doc) (log : list logrec) (f : string) (raw : value) (c s : Z),
      reconstruct ts2dt dt2ts py2_lt time_doc acts
        = Some (older ++ [last_doc], log) →
      cfield = Some f → last_doc !! f = Some raw →
      ts2dt raw = Some (VDate c) →
      last_doc !! "_start" = Some (VDate s) →
      (c < s →
       _activity_import_doc ts2dt dt2ts cfield py2_lt time_doc acts
       = Some (older ++ [<["_start" := VDate c]> last_doc], log))
      ∧ (s ≤ c → older = [] →
         _activity_import_doc ts2dt dt2ts cfield py2_lt time_doc acts
         = Some ([], log))).
  { intros time_doc acts older last_doc log f raw c s Hrec Hcf Hf Hraw Hs.
    unfold _activity_import_doc. rewrite Hrec. cbn [mbind option_bind].
    rewrite (creation_read _ _ _ _ _ _ Hcf Hf Hraw Hs). split.
    - intros ?. by rewrite bool_decide_eq_true_2.
    - intros ? ->. rewrite bool_decide_eq_false_2 by lia. done. }
  split; [exact Hgen|].
  intros acts H100 H50 Hcf Hno.
  pose proof (reconstruct_no_match anchor_100 acts (VNum 100) 100
                eq_refl H100 Hno) as Hrec.
  destruct (Hgen anchor_100 acts [] _ [] "created" (VNum 50) 50 100
              Hrec Hcf eq_refl H50 (lookup_insert_eq _ _ _)) as [Hext _].
  rewrite Hext by lia. by rewrite insert_insert_eq.
Qed.

(** C10.  When reading or parsing the creation field of the oldest
    document of the batch raises, [_activity_import_doc] logs a warning and
    returns the batch as the loop left it, without the check for an
    unchanged anchor.  With no matching activity that batch is the anchor
    alone, and [_activity_import] then hands the identifier of the stored
    document to the removal and the anchor to the save. *)
Theorem C10_creation_unread :
  (∀ (time_doc : doc) (acts : list activity) (older : list doc)
     (last_doc : doc) (log : list logrec),
      reconstruct ts2dt dt2ts py2_lt time_doc acts
        = Some (older ++ [last_doc], log) →
      creation_unread ts2dt cfield last_doc →
      _activity_import_doc ts2dt dt2ts cfield py2_lt time_doc acts
      = Some (older ++ [last_doc], log ++ [LogWarn]))
  ∧ (∀ (time_doc : doc) (acts : list activity) (ts : value) (t : Z),
      time_doc !! "_start" = Some ts → ts2dt ts = Some (VDate t) →
      Forall (λ a, ¬ matches t (<["_start" := VDate t]> time_doc) a) acts →
      creation_unread ts2dt cfield (<["_start" := VDate t]> time_doc) →
      _activity_import_doc ts2dt dt2ts cfield py2_lt time_doc acts
      = Some ([<["_start" := VDate t]> time_doc], [LogWarn]))
  ∧ (∀ (activities : list (value * list activity)) (stored : doc)
       (remove_ids : list value) (save_objects : list doc) (log : list logrec)
       (oid _id _hash ts : value) (t : Z),
      let time_doc := delete "_hash" (delete "_id" stored) in
      stored !! "_oid" = Some oid → stored !! "_id" = Some _id →
      delete "_id" stored !! "_hash" = Some _hash →
      time_doc !! "_start" = Some ts → ts2dt ts = Some (VDate t) →
      Forall (λ a, ¬ matches t (<["_start" := VDate t]> time_doc) a)
             (setdefault activities oid) →
      creation_unread ts2dt cfield (<["_start" := VDate t]> time_doc) →
      import_body ts2dt dt2ts cfield py2_lt activities
                  (remove_ids, save_objects, log) stored
      = Some (remove_ids ++ [_id],
              save_objects ++ [<["_start" := VDate t]> time_doc],
              log ++ [LogWarn])).
Proof.
  assert (H1 : ∀ (time_doc : doc) (acts : list activity) (older : list doc)
     (last_doc : doc) (log : list logrec),
      reconstruct ts2dt dt2ts py2_lt time_doc acts
        = Some (older ++ [last_doc], log) →
      creation_unread ts2dt cfield last_doc →
      _activity_import_doc ts2dt dt2ts cfield py2_lt time_doc acts
      = Some (older ++ [last_doc], log ++ [LogWarn])).
  { intros time_doc acts older last_doc log Hrec Hun.
    unfold _activity_import_doc. rewrite Hrec. cbn [mbind option_bind].
    by rewrite creation_unread_raises. }
  assert (H2 : ∀ (time_doc : doc) (acts : list activity) (ts : value) (t : Z),
      time_doc !! "_start" = Some ts → ts2dt ts = Some (VDate t) →
      Forall (λ a, ¬ matches t (<["_start" := VDate t]> time_doc) a) acts →
      creation_unread ts2dt cfield (<["_start" := VDate t]> time_doc) →
      _activity_import_doc ts2dt dt2ts cfield py2_lt time_doc acts
      = Some ([<["_start" := VDate t]> time_doc], [LogWarn])).
  { intros time_doc acts ts t Hts Htd Hno Hun.
    apply (H1 time_doc acts [] _ []); [|done].
    by eapply reconstruct_no_match. }
  split; [exact H1|]. split; [exact H2|].
  intros activities stored remove_ids save_objects log oid _id _hash ts t
    time_doc Hoid Hid Hhash Hts Htd Hno Hun.
  unfold import_body. rewrite Hoid. cbn [mbind option_bind].
  rewrite Hid. cbn [mbind option_bind]. rewrite Hhash.
  cbn [mbind option_bind]. fold time_doc.
  by rewrite (H2 time_doc _ ts t).
Qed.
End Creation.

(** ** Identifiers and a second run *)

Lemma sorted_last_min (l : list activity) (z : activity) :
  StronglySorted later_first l → last l = Some z →
  ∀ a, a ∈ l → when z ≤ when a.
Proof.
  induction 1 as [|a0 l Hs IH Hall]; [done|].
  intros Hlast a Ha.
  destruct l as [|a1 l].
  - injection Hlast as <-. by apply list_elem_of_singleton in Ha as ->.
  - rewrite last_cons_cons in Hlast.
    apply elem_of_cons in Ha as [->|Ha]; [|by apply IH].
    rewrite Forall_forall in Hall. apply Hall. by apply last_Some_elem_of.
Qed.

Section Rerun.
Variable ts2dt : value → option value.
Variable dt2ts : Z → value.
Variable cfield : option string.
Variable py2_lt : value → value → option bool.

Lemma import_doc_keys (time_doc : doc) (acts : list activity)
  (batch : list doc) (log : list logrec) :
  _activity_import_doc ts2dt dt2ts cfield py2_lt time_doc acts
    = Some (batch, log) →
  ∃ ts td_start,
    time_doc !! "_start" = Some ts ∧ ts2dt ts = Some td_start ∧
    Forall (keys_within (<["_start" := td_start]> time_doc)) batch.
Proof.
  unfold _activity_import_doc.
  destruct (reconstruct _ _ _ _ _) as [[b1 log1]|] eqn:Hrec; [|done].
  cbn [mbind option_bind]. intros Hrun.
  apply reconstruct_inv in Hrec
    as (ts & td_start & l & Hts & Htd & Hfor & _).
  exists ts, td_start. split; [done|]. split; [done|].
  assert (Forall (keys_within (<["_start" := td_start]> time_doc)) b1) as Hb1.
  { eapply for_each_keys; [| |done].
    - by rewrite lookup_insert_eq.
    - apply Forall_cons. split; [|constructor]. intros k ?. by left. }
  destruct (creation_step _ _ _ b1) as [ret|] eqn:Hc;
    injection Hrun as <- <-; [|done].
  apply (creation_step_inv ts2dt cfield py2_lt) in Hc
    as (older & last_doc & f & raw & c & st & lt & -> & _ & _ & _ & _ & _ & ->).
  destruct lt; [|case_decide; [constructor|done]].
  apply Forall_app in Hb1 as [Hold Hlast].
  apply Forall_cons in Hlast as [Hlast _].
  apply Forall_app. split; [done|].
  apply Forall_cons. split; [|constructor].
  intros k. destruct (decide (k = "_start")) as [->|?].
  - intros _. left. by rewrite lookup_insert_eq.
  - rewrite lookup_insert_ne by done. apply Hlast.
Qed.

(** C8, as the code has it.  [_activity_import] pops [_id] from the
    anchor before the reconstruction and keeps it for the removal: in what
    it adds to [save_objects] no document carries [_id], the anchor no more
    than the versions copied from it, and the identifier of the stored
    anchor joins [remove_ids] exactly when the batch is not empty. *)
Theorem C8_ids (activities : list (value * list activity)) (stored : doc)
  (remove_ids remove_ids' : list value) (save_objects save_objects' : list doc)
  (log log' : list logrec) :
  import_body ts2dt dt2ts cfield py2_lt activities
              (remove_ids, save_objects, log) stored
    = Some (remove_ids', save_objects', log') →
  ∃ _id updates,
    stored !! "_id" = Some _id ∧
    save_objects' = save_objects ++ updates ∧
    Forall (λ d : doc, d !! "_id" = None) updates ∧
    remove_ids' = match updates with
                  | [] => remove_ids
                  | _ => remove_ids ++ [_id]
                  end.
Proof.
  unfold import_body.
  destruct (stored !! "_oid") as [oid|]; [|done]. cbn [mbind option_bind].
  destruct (stored !! "_id") as [_id|]; [|done]. cbn [mbind option_bind].
  destruct (delete "_id" stored !! "_hash") as [_hash|]; [|done].
  cbn [mbind option_bind].
  destruct (_activity_import_doc _ _ _ _ _ _) as [[updates lg]|] eqn:Hdoc;
    [|done].
  cbn [mbind option_bind]. intros Hret.
  exists _id, updates. split; [done|].
  apply import_doc_keys in Hdoc as (ts & td_start & _ & _ & Hkeys).
  assert (Forall (λ d : doc, d !! "_id" = None) updates) as Hno.
  { eapply Forall_impl; [exact Hkeys|]. intros d Hd.
    destruct (d !! "_id") as [v|] eqn:Hv; [|done].
    destruct (Hd "_id") as [Hin|?]; [by rewrite Hv| |done].
    rewrite lookup_insert_ne, lookup_delete_ne, lookup_delete_eq in Hin by done.
    by destruct Hin. }
  destruct updates; injection Hret as <- <- <-;
    [by rewrite app_nil_r|done].
Qed.

Lemma rerun_empty (oldest : doc) (acts : list activity) (s c : Z)
  (f : string) (raw : value) :
  (∀ t, ts2dt (VDate t) = Some (VDate t)) →
  oldest !! "_start" = Some (VDate s) →
  cfield = Some f → oldest !! f = Some raw → ts2dt raw = Some (VDate c) →
  s ≤ c →
  Forall (λ a, ¬ matches s oldest a) acts →
  _activity_import_doc ts2dt dt2ts cfield py2_lt oldest acts = Some ([], []).
Proof.
  intros Hid Hs Hcf Hf Hraw Hle Hno.
  unfold _activity_import_doc.
  assert (<["_start" := VDate s]> oldest = oldest) as Hsame
    by by apply insert_id.
  rewrite (reconstruct_no_match ts2dt dt2ts py2_lt oldest acts (VDate s) s),
    Hsame by (by rewrite ?Hsame).
  cbn [mbind option_bind].
  pose proof (creation_read ts2dt cfield py2_lt [] oldest f raw c s
                Hcf Hf Hraw Hs) as Hcr.
  cbn [app] in Hcr. rewrite Hcr.
  by rewrite bool_decide_eq_false_2 by lia.
Qed.
End Rerun.

Section Idempotence.
Variable ts2dt : value → option value.
Variable dt2ts : Z → value.
Variable cfield : option string.
Variable py2_lt : value → value → option bool.

(** C3, as the code has it.  Let [ts2dt] leave a [datetime] as it is, let
    the anchor start at an instant, and let the activities name fields of
    the document and none of the keys [_start], [_end] and [_corrupted].  If
    a first run returns a batch and logs no warning, so that the creation
    time was read, then a second run from the oldest document of that
    batch, the last one, with the same activities returns the empty batch
    and logs nothing, and the loop of [_activity_import] adds nothing to
    [remove_ids] and nothing to [save_objects] for that document. *)
Theorem C3_second_run (time_doc : doc) (acts : list activity)
  (batch : list doc) (log : list logrec) (oldest : doc) (ts : value) (t0 : Z) :
  (∀ t, ts2dt (VDate t) = Some (VDate t)) →
  time_doc !! "_start" = Some ts → ts2dt ts = Some (VDate t0) →
  Forall (λ a, names_field a ∧ field a ≠ "_corrupted") acts →
  _activity_import_doc ts2dt dt2ts cfield py2_lt time_doc acts
    = Some (batch, log) →
  LogWarn ∉ log →
  last batch = Some oldest →
  _activity_import_doc ts2dt dt2ts cfield py2_lt oldest acts = Some ([], [])
  ∧ ∀ (activities : list (value * list activity)) (stored : doc)
      (remove_ids : list value) (save_objects : list doc) (lg : list logrec)
      (oid _id _hash : value),
      stored !! "_oid" = Some oid → stored !! "_id" = Some _id →
      delete "_id" stored !! "_hash" = Some _hash →
      delete "_hash" (delete "_id" stored) = oldest →
      setdefault activities oid = acts →
      import_body ts2dt dt2ts cfield py2_lt activities
                  (remove_ids, save_objects, lg) stored
      = Some (remove_ids, save_objects, lg).
Proof.
  intros Hid Hts Htd Hf Hrun Hnw Hlast.
  assert (_activity_import_doc ts2dt dt2ts cfield py2_lt oldest acts
          = Some ([], [])) as Hsecond.
  { unfold _activity_import_doc in Hrun.
    destruct (reconstruct _ _ _ _ _) as [[b1 log1]|] eqn:Hrec; [|done].
    cbn [mbind option_bind] in Hrun.
    destruct (creation_step _ _ _ b1) as [ret|] eqn:Hc; injection Hrun as <- <-.
    2:{ destruct Hnw. apply elem_of_app. right. by left. }
    apply reconstruct_chain in Hrec
      as (ts' & td' & l & Hts' & Htd' & Hs & Hl & Hinv & Hkeys).
    2:{ eapply Forall_impl; [exact Hf|]. by intros a [? _]. }
    rewrite Hts in Hts'. injection Hts' as <-.
    rewrite Htd in Htd'. injection Htd' as <-.
    set (td := <["_start" := VDate t0]> time_doc) in *.
    destruct Hinv as (_ & _ & Hlo).
    apply creation_step_inv in Hc
      as (older & dk & f & raw & c & st & lt & -> & Hcf & Hraw & Hc & Hst & Hlt & ->).
    apply Forall_app in Hkeys as [_ Hdk].
    apply Forall_cons in Hdk as [Hdk _].
    (* the oldest document starts at an instant that no matching activity
       precedes *)
    assert (∃ s0, st = VDate s0 ∧
              ∀ a, a ∈ acts → when a < s0 → is_Some (td !! field a) → False)
      as (s0 & -> & Hmin).
    { destruct (last l) as [z|] eqn:Hz; cbn [fmap option_fmap option_map] in Hlo.
      - destruct Hlo as (rest0 & dk0 & Heq & _ & Hdks & _).
        apply app_inj_tail in Heq as [_ <-].
        apply instant_lookup in Hdks. rewrite Hdks in Hst. injection Hst as <-.
        exists (when z). split; [done|]. intros a Ha Hlt' Hin.
        destruct Hl as [[_ ->]|(t & [= <-] & Hl)]; [done|].
        assert (z ∈ l) as Hzl by by apply last_Some_elem_of.
        assert (a ∈ l) as Hal.
        { apply Hl. split; [done|]. split; [|done].
          apply Hl in Hzl as (_ & ? & _). lia. }
        pose proof (sorted_last_min l z Hs Hz a Hal). lia.
      - apply snoc_eq_singleton in Hlo as [-> ->].
        unfold td in Hst. rewrite lookup_insert_eq in Hst. injection Hst as <-.
        exists t0. split; [done|]. intros a Ha Hlt' Hin.
        apply last_None in Hz as ->.
        destruct Hl as [[-> _]|(t & [= <-] & Hl)];
          [by apply elem_of_nil in Ha|].
        eapply elem_of_nil, Hl. by split. }
    apply py_lt_date_r in Hlt as (c' & -> & ->).
    assert (∀ a, a ∈ acts → is_Some (dk !! field a) → is_Some (td !! field a))
      as Hfield.
    { intros a Ha Hin. destruct (Hdk _ Hin) as [?|Hcor]; [done|].
      rewrite Forall_forall in Hf. by destruct (Hf a Ha) as [_ ?]. }
    case_bool_decide as Hcs.
    - (* the first run moved the start back to the creation time *)
      rewrite last_snoc in Hlast. injection Hlast as <-.
      destruct (decide (f = "_start")) as [->|Hfs].
      + eapply (rerun_empty _ _ _ _ _ _ c' c' "_start");
          [done|by rewrite lookup_insert_eq|done|by rewrite lookup_insert_eq
          |by apply Hid|lia|].
        apply Forall_forall. intros a Ha [Hlt' Hin].
        rewrite Forall_forall in Hf. destruct (Hf a Ha) as [[Hns _] _].
        rewrite lookup_insert_ne in Hin by done.
        apply (Hmin a Ha); [lia|by apply Hfield].
      + eapply (rerun_empty _ _ _ _ _ _ c' c' f);
          [done|by rewrite lookup_insert_eq|done
          |by rewrite lookup_insert_ne|done|lia|].
        apply Forall_forall. intros a Ha [Hlt' Hin].
        rewrite Forall_forall in Hf. destruct (Hf a Ha) as [[Hns _] _].
        rewrite lookup_insert_ne in Hin by done.
        apply (Hmin a Ha); [lia|by apply Hfield].
    - (* the creation time is not earlier: the batch is as the loop left it *)
      case_decide; [done|].
      rewrite last_snoc in Hlast. injection Hlast as <-.
      eapply (rerun_empty _ _ _ _ _ _ s0 c' f); [done..|lia|].
      apply Forall_forall. intros a Ha [Hlt' Hin].
      apply (Hmin a Ha); [lia|by apply Hfield]. }
  split; [exact Hsecond|].
  intros activities stored remove_ids save_objects lg oid _id _hash
    Hoid Hid' Hhash Hdel Hacts.
  unfold import_body. rewrite Hoid. cbn [mbind option_bind].
  rewrite Hid'. cbn [mbind option_bind]. rewrite Hhash.
  cbn [mbind option_bind]. rewrite Hdel, Hacts, Hsecond.
  cbn [mbind option_bind]. by rewrite app_nil_r.
Qed.
End Idempotence.

(** * The theorems on the scenarios *)

Lemma neq_by_decide {A : Type} `{EqDecision A} (x y : A) :
  bool_decide (x = y) = false → x ≠ y.
Proof. apply bool_decide_eq_false. Qed.

(** The scenario of C1 on a cube without creation field. *)
Lemma C1_scenario_witness :
  ts2dt_std (VNum 200) = Some (VDate 200) ∧
  _activity_import_doc ts2dt_std dt2ts_std None py2_lt_std anchor_200 status_opened
  = Some ([opened_at_150; new_until_150], [LogWarn]).
Proof.
  split; [reflexivity|].
  apply C1_scenario; [reflexivity|]. intros f Hf. discriminate Hf.
Defined.

(** The batch expected of the scenario is not the batch returned, however
    its instants are written and whichever its order: the anchor does not
    keep its start at 200, and the version before it does not end at 200. *)
Lemma C1_expected_refuted :
  fst <$> _activity_import_doc ts2dt_std dt2ts_std None py2_lt_std
            anchor_200 status_opened
  = Some [opened_at_150; new_until_150] ∧
  [opened_at_150; new_until_150] ≠ expected_batch VDate ∧
  [opened_at_150; new_until_150] ≠ expected_batch VNum ∧
  [opened_at_150; new_until_150] ≠ reverse (expected_batch VDate) ∧
  [opened_at_150; new_until_150] ≠ reverse (expected_batch VNum).
Proof.
  split; [by vm_compute|].
  split; [|split; [|split]]; apply neq_by_decide; by vm_compute.
Qed.

(** Two changes of status: the batch of three versions partitions time. *)
Lemma C2_partition_witness :
  ∃ batch log,
    _activity_import_doc ts2dt_std dt2ts_std None py2_lt_std anchor_200 status_history
    = Some (batch, log) ∧
    length batch = 3%nat ∧
    partitions (reverse batch) = true ∧
    ∃ newest, head batch = Some newest ∧ newest !! "_end" = anchor_200 !! "_end".
Proof.
  eexists _, _. split; [reflexivity|]. split; [reflexivity|].
  eapply (C2_partition ts2dt_std dt2ts_std None py2_lt_std anchor_200 status_history).
  - repeat constructor; discriminate.
  - reflexivity.
  - discriminate.
Defined.

(** An activity may name the key [_end]: the undo then overwrites the
    [_end] that the loop has just set, and the two documents returned chain
    in neither order.  And on the first scenario the two documents start at
    the same instant: the order by [_start] does not tell them apart, and of
    the two orders only the batch read from last to first chains. *)
Lemma C2_partition_refuted :
  (fst <$> _activity_import_doc ts2dt_std dt2ts_std None py2_lt_std
             anchor_200 end_cleared
   = Some [opened_at_150; ended_at_5] ∧
   partitions [ended_at_5; opened_at_150] = false ∧
   partitions [opened_at_150; ended_at_5] = false)
  ∧ (fst <$> _activity_import_doc ts2dt_std dt2ts_std None py2_lt_std
               anchor_200 status_opened
     = Some [opened_at_150; new_until_150] ∧
     instant opened_at_150 "_start" = instant new_until_150 "_start" ∧
     partitions [opened_at_150; new_until_150] = false ∧
     partitions [new_until_150; opened_at_150] = true).
Proof. repeat split; by vm_compute. Qed.

(** A cube with the creation field [created]: the first run on
    [anchor_100] leaves [new_since_50] as the oldest version, and the second
    run from it changes nothing. *)
Lemma C3_second_run_witness :
  (last <$> (fst <$> _activity_import_doc ts2dt_std dt2ts_std (Some "created")
                       py2_lt_std anchor_100 opened_at_80))
  = Some (Some new_since_50) ∧
  _activity_import_doc ts2dt_std dt2ts_std (Some "created") py2_lt_std
                       new_since_50 opened_at_80
  = Some ([], []).
Proof.
  split; [by vm_compute|].
  refine (proj1 (C3_second_run ts2dt_std dt2ts_std (Some "created") py2_lt_std
                   anchor_100 opened_at_80 _ _ new_since_50 (VNum 100) 100
                   _ _ _ _ _ _ _)).
  - intros t. reflexivity.
  - reflexivity.
  - reflexivity.
  - repeat constructor; discriminate.
  - reflexivity.
  - apply not_elem_of_nil.
  - by vm_compute.
Defined.

(** On a cube without creation field the second run is not empty.  The two
    documents of the first batch both start at 150; from either of them, and
    with no new activity, the second run returns that document again, and
    [_activity_import] removes the stored document and saves it anew. *)
Lemma C3_second_run_not_empty :
  fst <$> _activity_import_doc ts2dt_std dt2ts_std None py2_lt_std
            anchor_200 status_opened
  = Some [opened_at_150; new_until_150] ∧
  _activity_import_doc ts2dt_std dt2ts_std None py2_lt_std
                       new_until_150 status_opened
  = Some ([new_until_150], [LogWarn]) ∧
  _activity_import_doc ts2dt_std dt2ts_std None py2_lt_std
                       opened_at_150 status_opened
  = Some ([opened_at_150], [LogWarn]) ∧
  _activity_import ts2dt_std dt2ts_std None py2_lt_std
    [<["_id" := VStr "6a2"]> (<["_hash" := VStr "beef"]> new_until_150)]
    [(VNum 1, status_opened)]
  = Some ([VStr "6a2"], [new_until_150], [LogWarn]).
Proof. split; [|split; [|split]]; by vm_compute. Qed.


(** Two activities at 150 on [status] and [owner]: one version before the
    anchor. *)
Lemma C6_same_instant_witness :
  (∃ b1 l1 b2 l2,
      loop_body dt2ts_std ([<["_start" := VDate 200]> anchor_owned], [])
                (Act 150 "status" (VStr "new") (VStr "open")) = Some (b1, l1) ∧
      loop_body dt2ts_std (b1, l1) (Act 150 "owner" VNone (VStr "ann"))
        = Some (b2, l2) ∧
      ∃ rest d d', b1 = rest ++ [d] ∧ b2 = rest ++ [d'] ∧
                   d !! "_end" = Some (VDate 150) ∧ amends "owner" d d')
  ∧ ∃ batch log,
      _activity_import_doc ts2dt_std dt2ts_std None py2_lt_std
                           anchor_owned together_at_150
      = Some (batch, log) ∧
      length batch = 2%nat.
Proof.
  split.
  - eexists _, _, _, _. split; [reflexivity|]. split; [reflexivity|].
    eapply (proj1 C6_same_instant dt2ts_std
              [<["_start" := VDate 200]> anchor_owned] _ _ [] _ _
              (Act 150 "status" (VStr "new") (VStr "open"))
              (Act 150 "owner" VNone (VStr "ann")));
      [reflexivity|discriminate|reflexivity|reflexivity].
  - eexists _, _. split; [reflexivity|].
    eapply (proj2 C6_same_instant ts2dt_std dt2ts_std None py2_lt_std anchor_owned
              (Act 150 "status" (VStr "new") (VStr "open"))
              (Act 150 "owner" VNone (VStr "ann")) (VNum 200) 200).
    + reflexivity.
    + discriminate.
    + discriminate.
    + reflexivity.
    + reflexivity.
    + reflexivity.
    + by eexists.
    + by eexists.
    + reflexivity.
Defined.

(** Two activities at 150, the first handled on the key [_end]: its undo
    leaves 5 under [_end] of the new document, so the second activity finds
    no document that ends at 150 and makes another one.  The batch has two
    documents before the anchor for the one instant. *)
Lemma C6_split_twice :
  (∃ l1 l2,
     loop_body dt2ts_std ([<["_start" := VDate 200]> anchor_A], [])
               (Act 150 "_end" (VNum 5) VNone)
     = Some ([A_x_at_150; A_x_until_5], l1) ∧
     A_x_until_5 !! "_end" = Some (VNum 5) ∧
     loop_body dt2ts_std ([A_x_at_150; A_x_until_5], l1)
               (Act 150 "A" (VStr "w") (VStr "x"))
     = Some ([A_x_at_150; A_x_until_5; A_w_until_150], l2))
  ∧ fst <$> _activity_import_doc ts2dt_std dt2ts_std None py2_lt_std
              anchor_A end_and_A_at_150
    = Some [A_x_at_150; A_x_until_5; A_w_until_150].
Proof.
  split.
  - eexists _, _. split; [by vm_compute|]. split; [reflexivity|by vm_compute].
  - by vm_compute.
Qed.

(** The anchor that starts at 100 with creation instant 50: with the
    activity at 80 the version before the anchor starts at 50; with no
    activity the anchor itself does. *)
Lemma C7_creation_time_witness :
  _activity_import_doc ts2dt_std dt2ts_std (Some "created") py2_lt_std
                       anchor_100 opened_at_80
  = Some ([open_since_80] ++ [<["_start" := VDate 50]> new_at_80], [])
  ∧ _activity_import_doc ts2dt_std dt2ts_std (Some "created") py2_lt_std
                         anchor_100 []
    = Some ([<["_start" := VDate 50]> anchor_100], []).
Proof.
  destruct (C7_creation_time ts2dt_std dt2ts_std (Some "created") py2_lt_std)
    as [Hgen Hex].
  split.
  - apply (Hgen anchor_100 opened_at_80 [open_since_80] new_at_80 []
             "created" (VNum 50) 50 80);
      [by vm_compute|reflexivity|reflexivity|reflexivity|reflexivity|lia].
  - apply Hex; [reflexivity|reflexivity|reflexivity|constructor].
Defined.

(** No boundary changed, the batch holds only the anchor, and yet it is
    returned: the cube has no creation field, and neither has the
    document. *)
Lemma C7_unchanged_anchor_returned :
  _activity_import_doc ts2dt_std dt2ts_std None py2_lt_std anchor_200 []
  = Some ([<["_start" := VDate 200]> anchor_200], [LogWarn]) ∧
  _activity_import_doc ts2dt_std dt2ts_std (Some "created") py2_lt_std anchor_200 []
  = Some ([<["_start" := VDate 200]> anchor_200], [LogWarn]).
Proof. split; by vm_compute. Qed.

(** The stored anchor of the first scenario through [_activity_import]. *)
Lemma C8_ids_witness :
  ∃ _id updates,
    stored_200 !! "_id" = Some _id ∧
    [opened_at_150; new_until_150] = [] ++ updates ∧
    Forall (λ d : doc, d !! "_id" = None) updates ∧
    [VStr "5f1"] = match updates with [] => [] | _ => [] ++ [_id] end.
Proof.
  apply (C8_ids ts2dt_std dt2ts_std None py2_lt_std [(VNum 1, status_opened)]
           stored_200 [] [VStr "5f1"] [] [opened_at_150; new_until_150]
           [] [LogWarn]).
  by vm_compute.
Defined.

(** What is handed to the save for the stored anchor [stored_200], whose
    identifier is ["5f1"]: two documents, none of which carries the
    identifier; it is handed to the removal. *)
Lemma C8_anchor_id_not_kept :
  _activity_import ts2dt_std dt2ts_std None py2_lt_std [stored_200]
                   [(VNum 1, status_opened)]
  = Some ([VStr "5f1"], [opened_at_150; new_until_150], [LogWarn]) ∧
  stored_200 !! "_id" = Some (VStr "5f1") ∧
  opened_at_150 !! "_id" = None ∧ new_until_150 !! "_id" = None.
Proof. repeat split; by vm_compute. Qed.

(** A cube without creation field: the first scenario, the anchor with no
    activity, and the stored anchor with no activity. *)
Lemma C10_creation_unread_witness :
  _activity_import_doc ts2dt_std dt2ts_std None py2_lt_std anchor_200 status_opened
  = Some ([opened_at_150] ++ [new_until_150], [] ++ [LogWarn]) ∧
  _activity_import_doc ts2dt_std dt2ts_std None py2_lt_std anchor_200 []
  = Some ([<["_start" := VDate 200]> anchor_200], [LogWarn]) ∧
  import_body ts2dt_std dt2ts_std None py2_lt_std [] ([], [], []) stored_200
  = Some ([] ++ [VStr "5f1"],
          [] ++ [<["_start" := VDate 200]> (delete "_hash" (delete "_id" stored_200))],
          [] ++ [LogWarn]).
Proof.
  destruct (C10_creation_unread ts2dt_std dt2ts_std None py2_lt_std)
    as (Hloop & Hdoc & Hcaller).
  split; [|split].
  - apply (Hloop anchor_200 status_opened [opened_at_150] new_until_150 []);
      [by vm_compute|by left].
  - apply (Hdoc anchor_200 [] (VNum 200) 200);
      [reflexivity|reflexivity|constructor|by left].
  - apply (Hcaller [] stored_200 [] [] [] (VNum 1) (VStr "5f1") (VStr "c0de")
             (VNum 200) 200);
      [reflexivity|reflexivity|reflexivity|reflexivity|reflexivity
      |constructor|by left].
Defined.

(** * Further properties of the code *)

(** * Further properties of the code *)

(** ** The undo function and its inverse *)

Lemma undo_added_flag_false (ad val rest : list value) :
  undo_added ad val false = Some (rest, false) →
  ∀ x, (count ad x ≤ count val x)%nat.
Proof.
  intros Hrun x.
  destruct (undo_added_spec ad val false) as (rest' & flag & Hrun' & _ & _ & Hflag).
  rewrite Hrun in Hrun'. injection Hrun' as <- <-.
  destruct (decide (x ∈ ad)) as [Hin|Hnin].
  - destruct (le_lt_dec (count ad x) (count val x)) as [?|Hlt]; [done|].
    assert (false = true) as [=]. apply Hflag. right. by exists x.
  - assert (count ad x = 0%nat) as ->; [|lia].
    apply count_occ_not_In. by rewrite <- list_elem_of_In.
Qed.

(** X1.  An undo on lists that finds every element of [added] is undone by
    the undo of the opposite change: from the result, taking out [removed] and
    putting back [added] finds every element of [removed] and gives the
    collection back, up to the order of its elements.  On scalars the same
    holds with equality. *)
Theorem undo_inverse :
  (∀ (coll rm ad res : list value),
      _activity_backwards (VList coll) (VList rm) (VList ad)
        = Some (VList res, false) →
      ∃ back, _activity_backwards (VList res) (VList ad) (VList rm)
                = Some (VList back, false) ∧ back ≡ₚ coll)
  ∧ (∀ val removed added : value,
        ¬ (is_list added = true ∧ is_list removed = true) →
        _activity_backwards val removed added = Some (removed, false) →
        _activity_backwards removed added removed = Some (val, false)).
Proof.
  split.
  - intros coll rm ad res Hrun. unfold _activity_backwards in Hrun |- *.
    cbn [mbind option_bind] in Hrun |- *.
    destruct (undo_added_spec ad coll false)
      as (rest & flag & Hrun1 & _ & Hcnt1 & _).
    rewrite Hrun1 in Hrun. cbn [mbind option_bind] in Hrun.
    injection Hrun as <- ->.
    pose proof (undo_added_flag_false _ _ _ Hrun1) as Hle.
    destruct (undo_added_spec rm (rest ++ rm) false)
      as (rest2 & flag2 & Hrun2 & _ & Hcnt2 & Hflag2).
    rewrite Hrun2. cbn [mbind option_bind].
    assert (flag2 = false) as ->.
    { destruct flag2; [|done].
      destruct (proj1 Hflag2 eq_refl) as [[=]|(x & _ & Hlt)].
      rewrite count_occ_app in Hlt. lia. }
    eexists. split; [done|].
    apply (Permutation_count_occ value_eq_dec). intros x.
    rewrite count_occ_app, Hcnt2, count_occ_app, Hcnt1.
    specialize (Hle x). lia.
  - intros val removed added Hns Hrun.
    assert (val = added) as ->.
    { unfold _activity_backwards in Hrun.
      destruct added, removed; try (injection Hrun as Hd;
        apply bool_decide_eq_false in Hd; by apply dec_stable in Hd).
      destruct Hns. by split. }
    unfold _activity_backwards.
    destruct added, removed; try (by rewrite bool_decide_eq_false_2 by (by intros [])).
    destruct Hns. by split.
Qed.

(** ** The activities that count *)

Lemma filter_acts_filter (py2_lt : value → value → option bool) (t : Z)
  (td : doc) (acts : list activity) :
  filter_acts py2_lt (VDate t) td acts = Some (filter (matches t td) acts).
Proof.
  induction acts as [|a acts IH]; [done|].
  cbn [filter_acts py_lt mbind option_bind]. rewrite IH.
  cbn [mbind option_bind].
  destruct (decide (matches t td a)) as [Hm|Hm].
  - rewrite filter_cons_True by done. destruct Hm.
    by rewrite !bool_decide_eq_true_2.
  - rewrite filter_cons_False by done.
    case_bool_decide; [|done]. case_bool_decide; [|done]. by destruct Hm.
Qed.

(** X2.  The result of [_activity_import_doc] depends on the activities
    only through those that pass the filter, in their order: activities at or
    after the start of the anchor, or on a field the anchor does not have, can
    be added or left out without any effect on the batch or on the log. *)
Theorem unmatched_activities_ignored (ts2dt : value → option value)
  (dt2ts : Z → value) (cfield : option string)
  (py2_lt : value → value → option bool)
  (time_doc : doc) (ts : value) (t : Z) (acts acts' : list activity) :
  time_doc !! "_start" = Some ts → ts2dt ts = Some (VDate t) →
  filter (matches t (<["_start" := VDate t]> time_doc)) acts
  = filter (matches t (<["_start" := VDate t]> time_doc)) acts' →
  _activity_import_doc ts2dt dt2ts cfield py2_lt time_doc acts
  = _activity_import_doc ts2dt dt2ts cfield py2_lt time_doc acts'.
Proof.
  intros Hts Htd Heq. unfold _activity_import_doc, reconstruct.
  rewrite Hts. cbn [mbind option_bind]. rewrite Htd. cbn [mbind option_bind].
  by rewrite !filter_acts_filter, Heq.
Qed.

(** ** What an iteration of the loop changes *)

Lemma loop_body_cases (dt2ts : Z → value) (batch batch' : list doc)
  (log log' : list logrec) (act : activity) :
  loop_body dt2ts (batch, log) act = Some (batch', log') →
  ∃ rest last_doc new_doc last_val val nv (inc : bool),
    group_or_split batch (when act) = Some (rest, last_doc, new_doc) ∧
    last_doc !! field act = Some last_val ∧
    new_doc !! field act = Some val ∧
    _activity_backwards val (to_ts dt2ts (removed act)) (to_ts dt2ts (added act))
      = Some (nv, inc) ∧
    if inc then
      ∃ oid c,
        last_doc !! "_oid" = Some oid ∧
        corrupted_dict (<[field act := nv]> new_doc) = Some c ∧
        batch' = rest ++ [last_doc;
                   <["_corrupted" := VDict (<[field act := to_ts dt2ts (added act)]> c)]>
                     (<[field act := nv]> new_doc)] ∧
        log' = log ++ [LogIncon (Incon oid (field act)
                         (to_ts dt2ts (removed act)) (type_str (to_ts dt2ts (removed act)))
                         (to_ts dt2ts (added act)) (type_str (to_ts dt2ts (added act)))
                         last_val (type_str last_val))]
    else batch' = rest ++ [last_doc; <[field act := nv]> new_doc] ∧ log' = log.
Proof.
  unfold loop_body.
  destruct (group_or_split batch (when act)) as [[[rest last_doc] new_doc]|];
    [|done]. cbn [mbind option_bind].
  destruct (last_doc !! field act) as [lv|] eqn:Hlv; [|done].
  cbn [mbind option_bind].
  destruct (new_doc !! field act) as [val|] eqn:Hval; [|done].
  cbn [mbind option_bind].
  destruct (_activity_backwards _ _ _) as [[nv inc]|] eqn:Hundo; [|done].
  cbn [mbind option_bind]. intros Hret.
  exists rest, last_doc, new_doc, lv, val, nv, inc.
  split; [done|]. split; [done|]. split; [done|]. split; [done|].
  destruct inc.
  - unfold mark_corrupted in Hret.
    destruct (last_doc !! "_oid") as [oid|] eqn:Hoid; [|done].
    cbn [mbind option_bind] in Hret.
    destruct (incon_json_ok _); [|done].
    destruct (corrupted_dict _) as [c|] eqn:Hc; [|done].
    cbn [mbind option_bind] in Hret. injection Hret as <- <-.
    by exists oid, c.
  - by injection Hret as <- <-.
Qed.

Lemma for_each_inv {S A : Type} (body : S → A → option S) (P : S → Prop)
  (Q : A → Prop) (l : list A) :
  (∀ s a s', Q a → P s → body s a = Some s' → P s') →
  Forall Q l →
  ∀ s s', P s → for_each body s l = Some s' → P s'.
Proof.
  intros Hstep. induction 1 as [|a l Ha _ IH]; intros s s' Hs.
  - by intros [= <-].
  - cbn [for_each]. destruct (body s a) as [s1|] eqn:Hb; [|done].
    cbn [mbind option_bind]. apply IH. by eapply Hstep.
Qed.

Lemma loop_body_anchor (dt2ts : Z → value) (td : doc)
  (batch batch' : list doc) (log log' : list logrec) (act : activity) :
  (∃ v rest, batch = <["_start" := v]> td :: rest) →
  loop_body dt2ts (batch, log) act = Some (batch', log') →
  ∃ v rest, batch' = <["_start" := v]> td :: rest.
Proof.
  intros (v & rest0 & ->)
    (rest & last_doc & new_doc & new_doc' & Hgs & -> & _)%loop_body_inv.
  apply group_or_split_inv in Hgs
    as [[Heq _] | (x & e & Heq & _ & _ & -> & ->)].
  - destruct rest as [|r rest]; injection Heq as <- _; by eexists _, _.
  - destruct rest as [|r rest]; injection Heq as Heq _.
    + subst x. rewrite insert_insert_eq. by eexists _, _.
    + subst r. by eexists _, _.
Qed.

Lemma loop_body_untouched (dt2ts : Z → value) (td : doc) (k : string)
  (batch batch' : list doc) (log log' : list logrec) (act : activity) :
  k ∉ reserved → field act ≠ k →
  Forall (λ d : doc, d !! k = td !! k) batch →
  loop_body dt2ts (batch, log) act = Some (batch', log') →
  Forall (λ d : doc, d !! k = td !! k) batch'.
Proof.
  intros Hk Hf Hall
    (rest & last_doc & new_doc & new_doc' & Hgs & -> & Ham)%loop_body_inv.
  assert (k ≠ "_start" ∧ k ≠ "_end" ∧ k ≠ "_corrupted" ∧ k ≠ "_id")
    as (Hks & Hke & Hkc & Hki).
  { unfold reserved in Hk. rewrite !not_elem_of_cons in Hk. naive_solver. }
  assert (new_doc' !! k = new_doc !! k) as Hnew.
  { destruct Ham as (_ & Hsame & _). by apply Hsame. }
  apply group_or_split_inv in Hgs
    as [[-> _] | (x & e & -> & _ & _ & -> & ->)].
  - apply Forall_app in Hall as [Hrest Hlast].
    apply Forall_cons in Hlast as [Hl Hn]. apply Forall_cons in Hn as [Hn _].
    apply Forall_app. split; [done|].
    apply Forall_cons. split; [done|].
    apply Forall_cons. split; [congruence|constructor].
  - apply Forall_app in Hall as [Hrest Hx]. apply Forall_cons in Hx as [Hx _].
    apply Forall_app. split; [done|].
    apply Forall_cons. split; [by rewrite lookup_insert_ne|].
    apply Forall_cons. split; [|constructor].
    by rewrite Hnew, !lookup_insert_ne, lookup_delete_ne.
Qed.

(** X3.  The anchor comes back first in the batch and differs from the
    document given at most in [_start]; and a key that no activity names, and
    that is none of [_start], [_end], [_corrupted] and [_id], has in every
    document of the batch the value it has in the anchor. *)
Theorem reconstruction_frame (ts2dt : value → option value)
  (dt2ts : Z → value) (cfield : option string)
  (py2_lt : value → value → option bool)
  (time_doc : doc) (acts : list activity) (batch : list doc)
  (log : list logrec) :
  _activity_import_doc ts2dt dt2ts cfield py2_lt time_doc acts
    = Some (batch, log) →
  (∀ anchor, head batch = Some anchor →
             ∀ k, k ≠ "_start" → anchor !! k = time_doc !! k)
  ∧ (∀ k, k ∉ reserved → (∀ a, a ∈ acts → field a ≠ k) →
          Forall (λ d : doc, d !! k = time_doc !! k) batch).
Proof.
  unfold _activity_import_doc.
  destruct (reconstruct _ _ _ _ _) as [[b1 log1]|] eqn:Hrec; [|done].
  cbn [mbind option_bind]. intros Hret.
  apply reconstruct_inv in Hrec
    as (ts & td_start & l & Hts & Htd & Hfor & _ & Hl).
  set (td := <["_start" := td_start]> time_doc) in *.
  assert (∀ a, a ∈ l → a ∈ acts) as Hsub.
  { intros a Ha. destruct Hl as [[_ ->]|(t & _ & Hl)].
    - by apply elem_of_nil in Ha.
    - by apply Hl. }
  assert (∃ v rest, b1 = <["_start" := v]> td :: rest) as Hanchor.
  { revert Hfor.
    apply (for_each_inv (loop_body dt2ts)
             (λ st, ∃ v rest, st.1 = <["_start" := v]> td :: rest)
             (λ _, True) l).
    - intros [b lg] a [b' lg'] _ Hb Hbody. by eapply loop_body_anchor.
    - by apply Forall_true.
    - exists td_start, []. unfold td. by rewrite insert_insert_eq. }
  assert (∀ k, k ∉ reserved → (∀ a, a ∈ acts → field a ≠ k) →
               Forall (λ d : doc, d !! k = td !! k) b1) as Hframe.
  { intros k Hk Hno. revert Hfor.
    apply (for_each_inv (loop_body dt2ts)
             (λ st, Forall (λ d : doc, d !! k = td !! k) st.1)
             (λ a, field a ≠ k) l).
    - intros [b lg] a [b' lg'] Ha Hb Hbody. by eapply loop_body_untouched.
    - apply Forall_forall. intros a Ha. by apply Hno, Hsub.
    - by repeat constructor. }
  assert (∀ k, k ≠ "_start" → td !! k = time_doc !! k) as Htdk.
  { intros k ?. unfold td. by rewrite lookup_insert_ne. }
  destruct Hanchor as (v & rest & ->).
  destruct (creation_step ts2dt cfield py2_lt _) as [ret|] eqn:Hc;
    injection Hret as <- <-.
  2:{ split.
      - intros anchor [= <-] k Hk. rewrite lookup_insert_ne by done. auto.
      - intros k Hk Hno. eapply Forall_impl; [by apply Hframe|].
        intros d ->. apply Htdk. unfold reserved in Hk.
        rewrite !not_elem_of_cons in Hk. naive_solver. }
  apply creation_step_inv in Hc
    as (older & last_doc & f & raw & c & st & lt & Heq & _ & _ & _ & _ & _ & ->).
  destruct lt.
  - split.
    + destruct older as [|o older]; injection Heq as <- ?.
      * intros anchor [= <-] k Hk. rewrite !lookup_insert_ne by done. auto.
      * intros anchor [= <-] k Hk. rewrite lookup_insert_ne by done. auto.
    + intros k Hk Hno. specialize (Hframe k Hk Hno). rewrite Heq in Hframe.
      assert (k ≠ "_start") as Hks.
      { unfold reserved in Hk. rewrite !not_elem_of_cons in Hk. naive_solver. }
      apply Forall_app in Hframe as [Hold Hlast].
      apply Forall_cons in Hlast as [Hlast _].
      apply Forall_app. split.
      * eapply Forall_impl; [exact Hold|]. intros d ->. by apply Htdk.
      * apply Forall_cons. split; [|constructor].
        rewrite lookup_insert_ne by done. rewrite Hlast. by apply Htdk.
  - case_decide.
    + split; [done|]. intros; constructor.
    + split.
      * intros anchor [= <-] k Hk. rewrite lookup_insert_ne by done. auto.
      * intros k Hk Hno. eapply Forall_impl; [by apply Hframe|].
        intros d ->. apply Htdk. unfold reserved in Hk.
        rewrite !not_elem_of_cons in Hk. naive_solver.
Qed.

(** ** The keys of the versions *)

Lemma copied_from_insert (td d : doc) (k : string) (v : value) :
  k ≠ "_id" → copied_from td d → copied_from td (<[k := v]> d).
Proof.
  intros Hk [Hid Hkeys]. split; [by rewrite lookup_insert_ne|].
  intros k' ? ?. destruct (decide (k = k')) as [->|?].
  - by rewrite lookup_insert_eq.
  - rewrite lookup_insert_ne by done. by apply Hkeys.
Qed.

Lemma copied_from_anchor (td : doc) (v v' w : value) :
  copied_from td
    (<["_end" := w]> (<["_start" := v']> (delete "_id" (<["_start" := v]> td)))).
Proof.
  split; [by rewrite !lookup_insert_ne, lookup_delete_eq|].
  intros k Hk Hin.
  destruct (decide (k = "_end")) as [->|?]; [by rewrite lookup_insert_eq|].
  rewrite lookup_insert_ne by done.
  destruct (decide (k = "_start")) as [->|?]; [by rewrite lookup_insert_eq|].
  by rewrite lookup_insert_ne, lookup_delete_ne, lookup_insert_ne.
Qed.

Lemma copied_from_copy (td x : doc) (v w : value) :
  copied_from td x →
  copied_from td (<["_end" := w]> (<["_start" := v]> (delete "_id" x))).
Proof.
  intros [Hid Hkeys].
  split; [by rewrite !lookup_insert_ne, lookup_delete_eq|].
  intros k Hk Hin.
  destruct (decide (k = "_end")) as [->|?]; [by rewrite lookup_insert_eq|].
  rewrite lookup_insert_ne by done.
  destruct (decide (k = "_start")) as [->|?]; [by rewrite lookup_insert_eq|].
  rewrite lookup_insert_ne, lookup_delete_ne by done. by apply Hkeys.
Qed.

Lemma loop_body_anchor_first (dt2ts : Z → value) (td : doc)
  (batch batch' : list doc) (log log' : list logrec) (act : activity) :
  anchor_first td batch →
  loop_body dt2ts (batch, log) act = Some (batch', log') →
  anchor_first td batch'.
Proof.
  intros (v & tl & -> & Htl)
    (rest & last_doc & new_doc & lv & val & nv & inc & Hgs & Hlv & Hval & _ & Hret)%loop_body_cases.
  assert (copied_from td new_doc →
          ∃ nd', batch' = rest ++ [last_doc; nd'] ∧ copied_from td nd')
    as Hamend.
  { intros Hcp.
    assert (field act ≠ "_id") as Hfid.
    { intros Heq. destruct Hcp as [Hid _]. rewrite Heq in Hval. congruence. }
    destruct inc.
    - destruct Hret as (oid & c & _ & _ & -> & _). eexists. split; [done|].
      apply copied_from_insert; [done|]. by apply copied_from_insert.
    - destruct Hret as [-> _]. eexists. split; [done|].
      by apply copied_from_insert. }
  apply group_or_split_inv in Hgs
    as [[Heq _] | (x & e & Heq & _ & _ & -> & ->)].
  - destruct rest as [|r rest]; injection Heq as <- ->.
    + apply Forall_cons in Htl as [Hnew _].
      destruct (Hamend Hnew) as (nd' & -> & Hnd').
      exists v, [nd']. split; [done|]. by apply Forall_cons.
    + apply Forall_app in Htl as [Hrest Hlast].
      apply Forall_cons in Hlast as [Hl Hn]. apply Forall_cons in Hn as [Hn _].
      destruct (Hamend Hn) as (nd' & -> & Hnd').
      exists v, (rest ++ [last_doc; nd']). split; [done|].
      apply Forall_app. split; [done|].
      apply Forall_cons. split; [done|]. by apply Forall_cons.
  - destruct rest as [|r rest]; injection Heq as Heq1 Heq2.
    + subst x tl. exists (VDate (when act)).
      destruct (Hamend (copied_from_anchor td _ _ _)) as (nd' & -> & Hnd').
      exists [nd']. rewrite insert_insert_eq. split; [done|].
      by apply Forall_cons.
    + subst r tl. apply Forall_app in Htl as [Hrest Hx].
      apply Forall_cons in Hx as [Hx _].
      destruct (Hamend (copied_from_copy td x _ _ Hx)) as (nd' & -> & Hnd').
      exists v, (rest ++ [<["_start" := VDate (when act)]> x; nd']).
      split; [done|]. apply Forall_app. split; [done|].
      apply Forall_cons. split; [by apply copied_from_insert|].
      by apply Forall_cons.
Qed.

Lemma reconstruct_anchor_first (ts2dt : value → option value)
  (dt2ts : Z → value) (py2_lt : value → value → option bool)
  (time_doc : doc) (acts : list activity) (batch : list doc)
  (log : list logrec) :
  reconstruct ts2dt dt2ts py2_lt time_doc acts = Some (batch, log) →
  ∃ ts td_start,
    time_doc !! "_start" = Some ts ∧ ts2dt ts = Some td_start ∧
    anchor_first (<["_start" := td_start]> time_doc) batch.
Proof.
  intros (ts & td_start & l & Hts & Htd & Hfor & _)%reconstruct_inv.
  exists ts, td_start. split; [done|]. split; [done|]. revert Hfor.
  apply (for_each_inv (loop_body dt2ts)
           (λ st, anchor_first (<["_start" := td_start]> time_doc) st.1)
           (λ _, True) l).
  - intros [b lg] a [b' lg'] _ Hb Hbody. by eapply loop_body_anchor_first.
  - by apply Forall_true.
  - exists td_start, []. by rewrite insert_insert_eq.
Qed.

Lemma import_doc_anchor_first (ts2dt : value → option value)
  (dt2ts : Z → value) (cfield : option string)
  (py2_lt : value → value → option bool)
  (time_doc : doc) (acts : list activity) (batch : list doc)
  (log : list logrec) :
  _activity_import_doc ts2dt dt2ts cfield py2_lt time_doc acts
    = Some (batch, log) →
  batch = [] ∨
  ∃ ts td_start,
    time_doc !! "_start" = Some ts ∧ ts2dt ts = Some td_start ∧
    anchor_first (<["_start" := td_start]> time_doc) batch.
Proof.
  unfold _activity_import_doc.
  destruct (reconstruct _ _ _ _ _) as [[b1 log1]|] eqn:Hrec; [|done].
  cbn [mbind option_bind]. intros Hret.
  apply reconstruct_anchor_first in Hrec
    as (ts & td_start & Hts & Htd & (v & tl & -> & Htl)).
  destruct (creation_step ts2dt cfield py2_lt _) as [ret|] eqn:Hc;
    injection Hret as <- <-.
  2:{ right. exists ts, td_start. split; [done|]. split; [done|]. by exists v, tl. }
  apply creation_step_inv in Hc
    as (older & last_doc & f & raw & c & st & lt & Heq & _ & _ & _ & _ & _ & ->).
  destruct lt; [|case_decide].
  - right. exists ts, td_start. split; [done|]. split; [done|].
    destruct older as [|o older]; injection Heq as Heq1 Heq2.
    + subst last_doc. exists c, []. rewrite insert_insert_eq.
      split; [done|]. constructor.
    + subst o tl. exists v, (older ++ [<["_start" := c]> last_doc]).
      split; [done|]. apply Forall_app in Htl as [Hold Hlast].
      apply Forall_cons in Hlast as [Hlast _].
      apply Forall_app. split; [done|].
      apply Forall_cons. split; [by apply copied_from_insert|constructor].
  - by left.
  - right. exists ts, td_start. split; [done|]. split; [done|]. by exists v, tl.
Qed.

(** X4.  Every document of the batch has the keys of the anchor: apart from
    [_id] and [_corrupted], a key is in a document of the batch exactly when
    it is in the document given; and no document after the first carries
    [_id]. *)
Theorem version_keys (ts2dt : value → option value)
  (dt2ts : Z → value) (cfield : option string)
  (py2_lt : value → value → option bool)
  (time_doc : doc) (acts : list activity) (batch : list doc)
  (log : list logrec) :
  _activity_import_doc ts2dt dt2ts cfield py2_lt time_doc acts
    = Some (batch, log) →
  Forall (λ d : doc, ∀ k, k ≠ "_id" → k ≠ "_corrupted" →
                          (is_Some (d !! k) ↔ is_Some (time_doc !! k))) batch
  ∧ Forall (λ d : doc, d !! "_id" = None) (tail batch).
Proof.
  intros Hrun.
  pose proof (import_doc_keys _ _ _ _ _ _ _ _ Hrun)
    as (ts & td_start & Hts & Htd & Hup).
  assert (∀ k, is_Some (<["_start" := td_start]> time_doc !! k)
               ↔ is_Some (time_doc !! k)) as Htdk.
  { intros k. destruct (decide (k = "_start")) as [->|?].
    - rewrite lookup_insert_eq, Hts. split; by eexists.
    - by rewrite lookup_insert_ne. }
  apply import_doc_anchor_first in Hrun
    as [->|(ts' & td' & Hts' & Htd' & (v & tl & -> & Htl))];
    [split; constructor|].
  rewrite Hts in Hts'. injection Hts' as <-.
  rewrite Htd in Htd'. injection Htd' as <-.
  split.
  - apply Forall_cons in Hup as [Ha Hup]. apply Forall_cons. split.
    + intros k Hid Hc. split.
      * intros Hin. apply Htdk. by destruct (Ha k Hin).
      * intros Hin. destruct (decide (k = "_start")) as [->|?].
        -- by rewrite lookup_insert_eq.
        -- rewrite lookup_insert_ne by done. by apply Htdk.
    + apply Forall_forall. intros d Hd k Hid Hc.
      rewrite Forall_forall in Hup, Htl. split.
      * intros Hin. apply Htdk. by destruct (Hup d Hd k Hin).
      * intros Hin. apply (Htl d Hd); [done|]. by apply Htdk.
  - cbn [tail]. eapply Forall_impl; [exact Htl|]. by intros d [? _].
Qed.

(** ** One version for every instant *)

Lemma fresh_spec (l : list activity) :
  ∀ lo : option Z,
    StronglySorted later_first l →
    (∀ w0, lo = Some w0 → Forall (λ a, when a ≤ w0) l) →
    StronglySorted earlier (fresh lo l) ∧
    (∀ w0, lo = Some w0 → Forall (λ w, w < w0) (fresh lo l)) ∧
    (∀ w, w ∈ fresh lo l ↔ (∃ a, a ∈ l ∧ when a = w) ∧ lo ≠ Some w).
Proof.
  induction l as [|a l IH]; intros lo Hs Hle; cbn [fresh].
  - split; [constructor|]. split; [intros; constructor|].
    intros w. split; [by intros ?%elem_of_nil|].
    by intros [(a & ?%elem_of_nil & _) _].
  - apply StronglySorted_inv in Hs as [Hs Hall].
    destruct (IH (Some (when a)) Hs) as (Hss & Hlt & Hmem).
    { by intros w0 [= <-]. }
    specialize (Hlt (when a) eq_refl).
    destruct (decide (lo = Some (when a))) as [->|Hne]; cbn [app].
    + split; [done|]. split; [by intros w0 [= <-]|].
      intros w. rewrite Hmem. split.
      * intros [(a' & Ha' & Hw) Hn]. split; [|done]. exists a'. split; [by right|done].
      * intros [(a' & Ha' & Hw) Hn]. split; [|done].
        apply elem_of_cons in Ha' as [->|Ha']; [by subst w|]. by exists a'.
    + assert (∀ w0, lo = Some w0 → when a < w0) as Hlo.
      { intros w0 ->. specialize (Hle w0 eq_refl).
        apply Forall_cons in Hle as [? _].
        assert (when a ≠ w0) by congruence. lia. }
      split; [by constructor|]. split.
      * intros w0 Hw0. specialize (Hlo w0 Hw0). constructor; [done|].
        eapply Forall_impl; [exact Hlt|]. intros; simpl in *; lia.
      * intros w. rewrite elem_of_cons, Hmem. split.
        -- intros [->|[(a' & Ha' & Hw) Hn]].
           ++ split; [|congruence]. exists a. split; [by left|done].
           ++ split; [exists a'; split; [by right|done]|].
              intros ->. specialize (Hlo w eq_refl).
              rewrite Forall_forall in Hall. specialize (Hall a' Ha').
              unfold later_first in Hall. lia.
        -- intros [(a' & Ha' & Hw) Hn].
           destruct (decide (w = when a)) as [->|Hwa]; [by left|right].
           split; [|congruence].
           apply elem_of_cons in Ha' as [->|Ha']; [done|]. by exists a'.
Qed.

Lemma loop_body_ends (dt2ts : Z → value) (td : doc) (lo : option Z)
  (batch batch' : list doc) (log log' : list logrec) (act : activity) :
  chain_inv td lo batch → names_field act →
  loop_body dt2ts (batch, log) act = Some (batch', log') →
  ends batch' = ends batch ++ (Some ∘ VDate <$> fresh lo [act]).
Proof.
  intros (_ & _ & Hlo) [Hfs Hfe]
    (rest & last_doc & new_doc & new_doc' & Hgs & -> & Ham)%loop_body_inv.
  assert (new_doc' !! "_end" = new_doc !! "_end") as Hend.
  { destruct Ham as (_ & Hsame & _). by apply Hsame. }
  cbn [fresh]. rewrite app_nil_r.
  apply group_or_split_inv in Hgs
    as [[-> Hnd] | (x & e & -> & Hxe & Hne & -> & ->)].
  - destruct lo as [w|]; [|by destruct rest as [|? [|]]].
    destruct Hlo as (rest0 & dk & Heq & _ & _ & Hdke).
    change [last_doc; new_doc] with ([last_doc] ++ [new_doc]) in Heq.
    rewrite app_assoc in Heq. apply app_inj_tail in Heq as [_ <-].
    apply instant_lookup in Hdke. rewrite Hnd in Hdke. injection Hdke as <-.
    rewrite decide_True by done. cbn [fmap list_fmap]. rewrite app_nil_r.
    unfold ends. destruct rest as [|r rest]; cbn [tail app].
    + cbn [fmap list_fmap]. by rewrite Hend.
    + rewrite !fmap_app. cbn [fmap list_fmap]. by rewrite Hend.
  - rewrite decide_False.
    2:{ destruct lo as [w|]; [|done].
        destruct Hlo as (rest0 & dk & Heq & _ & _ & Hdke).
        apply app_inj_tail in Heq as [_ <-].
        apply instant_lookup in Hdke. congruence. }
    rewrite lookup_insert_eq in Hend.
    unfold ends. destruct rest as [|r rest]; cbn [tail app].
    + cbn [fmap list_fmap]. by rewrite Hend.
    + rewrite !fmap_app. cbn [fmap list_fmap app].
      rewrite Hend, lookup_insert_ne by done. by rewrite <- app_assoc.
Qed.

Lemma for_each_ends (dt2ts : Z → value) (td : doc) (l : list activity) :
  ∀ (lo : option Z) (batch batch' : list doc) (log log' : list logrec),
    chain_inv td lo batch → Forall names_field l →
    StronglySorted later_first l →
    (∀ w, lo = Some w → Forall (λ a, when a ≤ w) l) →
    for_each (loop_body dt2ts) (batch, log) l = Some (batch', log') →
    ends batch' = ends batch ++ (Some ∘ VDate <$> fresh lo l).
Proof.
  induction l as [|a l IH]; intros lo batch batch' log log' Hinv Hf Hs Hle.
  - intros [= <- <-]. cbn [fresh fmap list_fmap]. by rewrite app_nil_r.
  - cbn [for_each].
    destruct (loop_body dt2ts (batch, log) a) as [[b1 l1]|] eqn:Hb; [|done].
    cbn [mbind option_bind]. intros Hrun.
    apply Forall_cons in Hf as [Hfa Hf].
    apply StronglySorted_inv in Hs as [Hs Hall].
    pose proof (loop_body_ends _ _ _ _ _ _ _ _ Hinv Hfa Hb) as Hstep.
    eapply loop_body_chain in Hb; [|done|done|].
    2:{ intros w Hw. specialize (Hle w Hw). by apply Forall_cons in Hle as [? _]. }
    eapply IH in Hrun; [|done|done|done|by intros w [= <-]].
    rewrite Hrun, Hstep. cbn [fresh]. rewrite app_nil_r.
    by rewrite <- app_assoc, fmap_app.
Qed.

(** X5.  When the activities name fields and not the keys [_start] and
    [_end], the batch has one document before the anchor for every distinct
    instant of a matching activity: the [_end]s of the documents after the
    first are these instants, each once, from the latest to the earliest, and
    the batch has one document more than there are such instants. *)
Theorem version_boundaries (ts2dt : value → option value)
  (dt2ts : Z → value) (cfield : option string)
  (py2_lt : value → value → option bool)
  (time_doc : doc) (ts : value) (t : Z) (acts : list activity)
  (batch : list doc) (log : list logrec) :
  Forall names_field acts →
  time_doc !! "_start" = Some ts → ts2dt ts = Some (VDate t) →
  _activity_import_doc ts2dt dt2ts cfield py2_lt time_doc acts
    = Some (batch, log) →
  batch ≠ [] →
  ∃ ws : list Z,
    ends batch = Some ∘ VDate <$> ws ∧
    StronglySorted earlier ws ∧
    (∀ w, w ∈ ws ↔
          ∃ a, a ∈ acts ∧ matches t (<["_start" := VDate t]> time_doc) a ∧
               when a = w) ∧
    length batch = S (length ws).
Proof.
  intros Hf Hts Htd Hrun Hne. unfold _activity_import_doc in Hrun.
  destruct (reconstruct _ _ _ _ _) as [[b1 log1]|] eqn:Hrec; [|done].
  cbn [mbind option_bind] in Hrun.
  apply reconstruct_inv in Hrec
    as (ts' & td' & l & Hts' & Htd' & Hfor & Hs & Hl).
  rewrite Hts in Hts'. injection Hts' as <-.
  rewrite Htd in Htd'. injection Htd' as <-.
  set (td := <["_start" := VDate t]> time_doc) in *.
  assert (∀ a, a ∈ l ↔ a ∈ acts ∧ matches t td a) as Hmem.
  { intros a. destruct Hl as [[-> ->]|(t' & [= <-] & Hl)]; [|by apply Hl].
    split; [by intros ?%elem_of_nil|by intros [?%elem_of_nil _]]. }
  assert (Forall names_field l) as Hfl.
  { rewrite Forall_forall in Hf |- *. intros a Ha. by apply Hf, Hmem. }
  assert (chain_inv td None [td]) as Hinit.
  { split; [done|]. split; [by eexists|done]. }
  pose proof (for_each_ends dt2ts td l None _ _ _ _ Hinit Hfl Hs
                ltac:(done) Hfor) as Hends.
  destruct (fresh_spec l None Hs ltac:(done)) as (Hss & _ & Hfresh).
  assert (ends b1 = Some ∘ VDate <$> fresh None l) as Hb1 by exact Hends.
  assert (length b1 = S (length (fresh None l))) as Hlen.
  { apply (f_equal length) in Hb1. unfold ends in Hb1.
    rewrite !length_fmap in Hb1. destruct b1 as [|? b1]; [|by cbn in *; lia].
    by apply for_each_chain with (td := td) (lo := None) in Hfor
      as (_ & (? & [=] & _) & _). }
  assert (ends batch = ends b1 ∧ length batch = length b1) as [He Hl'].
  { destruct (creation_step ts2dt cfield py2_lt b1) as [ret|] eqn:Hc;
      injection Hrun as <- <-; [|done].
    apply creation_step_inv in Hc
      as (older & last_doc & f & raw & c & st & lt & -> & _ & _ & _ & _ & _ & ->).
    destruct lt; [|by case_decide].
    split; [|by rewrite !length_app]. unfold ends.
    destruct older as [|o older]; cbn [tail app]; [done|].
    rewrite !fmap_app. cbn [fmap list_fmap]. by rewrite lookup_insert_ne. }
  exists (fresh None l). rewrite He, Hl'. split; [done|]. split; [done|].
  split; [|done]. intros w. rewrite Hfresh. split.
  - intros [(a & Ha & Hw) _]. exists a. apply Hmem in Ha as [? ?]. done.
  - intros (a & Ha & Hm & Hw). split; [|done]. exists a. split; [|done].
    by apply Hmem.
Qed.

(** ** From one version to the next *)

Lemma adjacent_snoc2 (R : doc → doc → Prop) (l : list doc) (x y : doc) :
  adjacent R (l ++ [x; y]) ↔ adjacent R (l ++ [x]) ∧ R x y.
Proof.
  induction l as [|a l IH]; [cbn; tauto|].
  destruct l as [|b l]; [cbn; tauto|].
  change (adjacent R ((a :: b :: l) ++ [x; y]))
    with (R a b ∧ adjacent R ((b :: l) ++ [x; y])).
  change (adjacent R ((a :: b :: l) ++ [x]))
    with (R a b ∧ adjacent R ((b :: l) ++ [x])).
  rewrite IH. tauto.
Qed.

Lemma adjacent_snoc_change (R : doc → doc → Prop) (l : list doc) (x x' : doc) :
  (∀ a, R a x → R a x') →
  adjacent R (l ++ [x]) → adjacent R (l ++ [x']).
Proof.
  intros HR. induction l as [|a l IH]; [done|].
  destruct l as [|b l].
  - cbn. intros [? _]. auto.
  - change (adjacent R ((a :: b :: l) ++ [x]))
      with (R a b ∧ adjacent R ((b :: l) ++ [x])).
    change (adjacent R ((a :: b :: l) ++ [x']))
      with (R a b ∧ adjacent R ((b :: l) ++ [x'])).
    intros [? ?]. auto.
Qed.

Lemma adjacent_lookup (R : doc → doc → Prop) (l : list doc) :
  adjacent R l →
  ∀ (i : nat) (a b : doc), l !! i = Some a → l !! S i = Some b → R a b.
Proof.
  induction l as [|x l IH]; [done|].
  destruct l as [|y l]; [by intros _ [|i]|].
  intros [Hxy Hadj] [|i] a b.
  - by intros [= <-] [= <-].
  - intros Ha Hb. by apply (IH Hadj i).
Qed.

Lemma not_reserved (k : string) :
  k ∉ reserved →
  k ≠ "_start" ∧ k ≠ "_end" ∧ k ≠ "_corrupted" ∧ k ≠ "_id".
Proof.
  unfold reserved. rewrite !not_elem_of_cons. naive_solver.
Qed.

Lemma loop_body_same_but (dt2ts : Z → value) (l : list activity)
  (batch batch' : list doc) (log log' : list logrec) (act : activity) :
  act ∈ l → names_field act →
  adjacent (same_but l) batch →
  loop_body dt2ts (batch, log) act = Some (batch', log') →
  adjacent (same_but l) batch'.
Proof.
  intros Hact [Hfs Hfe] Hadj
    (rest & last_doc & new_doc & new_doc' & Hgs & -> & Ham)%loop_body_inv.
  destruct Ham as (_ & Hsame & _).
  apply group_or_split_inv in Hgs
    as [[-> Hnd] | (x & e & -> & Hxe & Hne & -> & ->)].
  - apply adjacent_snoc2 in Hadj as [Hrest Hln].
    apply adjacent_snoc2. split; [done|].
    intros w k Hw Hk Hno. destruct (not_reserved k Hk) as (? & ? & ? & ?).
    rewrite Hsame in Hw by done.
    assert (field act ≠ k) as Hfk.
    { apply Hno; [done|]. rewrite Hnd in Hw. by injection Hw. }
    rewrite Hsame by done. by apply (Hln w k).
  - apply adjacent_snoc2. split.
    + eapply adjacent_snoc_change; [|exact Hadj].
      intros a Ha w k Hw Hk Hno. destruct (not_reserved k Hk) as (? & ? & ? & ?).
      rewrite lookup_insert_ne in Hw |- * by done. by apply (Ha w k).
    + intros w k Hw Hk Hno. destruct (not_reserved k Hk) as (? & ? & ? & ?).
      rewrite Hsame in Hw by done. rewrite lookup_insert_eq in Hw.
      assert (field act ≠ k) as Hfk.
      { apply Hno; [done|]. by injection Hw. }
      rewrite Hsame by done.
      by rewrite !lookup_insert_ne, lookup_delete_ne.
Qed.

(** X6.  A document of the batch and the one after it, which is the version
    before it, differ only where an activity says so: when the activities
    name fields and not the keys [_start] and [_end], the later document of
    the two ends at an instant, and under every key other than [_start],
    [_end], [_corrupted] and [_id] that no matching activity at that instant
    names it has the value of the earlier document. *)
Theorem versions_differ_by_activities (ts2dt : value → option value)
  (dt2ts : Z → value) (cfield : option string)
  (py2_lt : value → value → option bool)
  (time_doc : doc) (ts : value) (t : Z) (acts : list activity)
  (batch : list doc) (log : list logrec) :
  Forall names_field acts →
  time_doc !! "_start" = Some ts → ts2dt ts = Some (VDate t) →
  _activity_import_doc ts2dt dt2ts cfield py2_lt time_doc acts
    = Some (batch, log) →
  ∀ (i : nat) (newer older : doc) (w : Z) (k : string),
    batch !! i = Some newer → batch !! S i = Some older →
    older !! "_end" = Some (VDate w) → k ∉ reserved →
    (∀ a, a ∈ acts → matches t (<["_start" := VDate t]> time_doc) a →
          when a = w → field a ≠ k) →
    older !! k = newer !! k.
Proof.
  intros Hf Hts Htd Hrun i newer older w k Hi HSi Hw Hk Hno.
  unfold _activity_import_doc in Hrun.
  destruct (reconstruct _ _ _ _ _) as [[b1 log1]|] eqn:Hrec; [|done].
  cbn [mbind option_bind] in Hrun.
  apply reconstruct_inv in Hrec
    as (ts' & td' & l & Hts' & Htd' & Hfor & Hs & Hl).
  rewrite Hts in Hts'. injection Hts' as <-.
  rewrite Htd in Htd'. injection Htd' as <-.
  set (td := <["_start" := VDate t]> time_doc) in *.
  assert (∀ a, a ∈ l ↔ a ∈ acts ∧ matches t td a) as Hmem.
  { intros a. destruct Hl as [[-> ->]|(t' & [= <-] & Hl)]; [|by apply Hl].
    split; [by intros ?%elem_of_nil|by intros [?%elem_of_nil _]]. }
  assert (adjacent (same_but l) b1) as Hb1.
  { revert Hfor.
    apply (for_each_inv (loop_body dt2ts)
             (λ st, adjacent (same_but l) st.1)
             (λ a, a ∈ l ∧ names_field a) l).
    - intros [b lg] a [b' lg'] [Ha Hn] Hb Hbody. by eapply loop_body_same_but.
    - apply Forall_forall. intros a Ha. split; [done|].
      rewrite Forall_forall in Hf. by apply Hf, Hmem.
    - done. }
  assert (adjacent (same_but l) batch) as Hadj.
  { destruct (creation_step ts2dt cfield py2_lt b1) as [ret|] eqn:Hc;
      injection Hrun as <- <-; [|done].
    apply creation_step_inv in Hc
      as (older' & last_doc & f & raw & c & st & lt & -> & _ & _ & _ & _ & _ & ->).
    destruct lt; [|by case_decide].
    eapply adjacent_snoc_change; [|exact Hb1].
    intros a Ha w' k' Hw' Hk' Hno'.
    destruct (not_reserved k' Hk') as (? & ? & ? & ?).
    rewrite lookup_insert_ne in Hw' |- * by done. by apply (Ha w' k'). }
  apply (adjacent_lookup _ _ Hadj i newer older Hi HSi w k Hw Hk).
  intros a Ha. apply Hmem in Ha as [? ?]. by apply Hno.
Qed.

(** ** The values of the versions *)

Lemma loop_body_values (dt2ts : Z → value) (batch batch' : list doc)
  (log log' : list logrec) (act : activity) :
  loop_body dt2ts (batch, log) act = Some (batch', log') →
  ∃ rest last_doc new_doc nd',
    group_or_split batch (when act) = Some (rest, last_doc, new_doc) ∧
    batch' = rest ++ [last_doc; nd'] ∧
    amends (field act) new_doc nd' ∧
    (scalar_change dt2ts act → field act ≠ "_corrupted" →
     nd' !! field act = Some (to_ts dt2ts (removed act))).
Proof.
  intros Hbody.
  pose proof (loop_body_inv _ _ _ _ _ _ Hbody)
    as (rest & last_doc & new_doc & nd' & Hgs & Hb' & Ham).
  exists rest, last_doc, new_doc, nd'. repeat (split; [done|]).
  intros Hsc Hfc.
  apply loop_body_cases in Hbody
    as (rest2 & ld2 & nd2 & lv & val & nv & inc & Hgs2 & _ & _ & Hundo & Hret).
  rewrite Hgs in Hgs2. injection Hgs2 as <- <- <-.
  assert (nv = to_ts dt2ts (removed act)) as ->.
  { unfold scalar_change in Hsc. unfold _activity_backwards in Hundo.
    destruct (to_ts dt2ts (added act)), (to_ts dt2ts (removed act));
      try (by injection Hundo as <- _).
    destruct Hsc. by split. }
  destruct inc.
  - destruct Hret as (oid & c & _ & _ & Heq & _). rewrite Hb' in Heq.
    apply app_inv_head in Heq. injection Heq as ->.
    by rewrite lookup_insert_ne, lookup_insert_eq.
  - destruct Hret as [Heq _]. rewrite Hb' in Heq.
    apply app_inv_head in Heq. injection Heq as ->.
    by rewrite lookup_insert_eq.
Qed.

Lemma holds_removed_other (dt2ts : Z → value) (l p : list activity)
  (act : activity) (d : doc) (w : Z) :
  when act ≠ w →
  holds_removed dt2ts l p d w → holds_removed dt2ts l (p ++ [act]) d w.
Proof.
  intros Hne Hd k r Hk (a & Ha & Hw & Hfa) Hall.
  apply (Hd k r Hk); [|done]. exists a. split; [|done].
  apply elem_of_app in Ha as [?|Heq%list_elem_of_singleton]; [done|subst a].
  by destruct Hne.
Qed.

Lemma holds_removed_start (dt2ts : Z → value) (l p : list activity)
  (d : doc) (w : Z) (v : value) :
  holds_removed dt2ts l p d w →
  holds_removed dt2ts l p (<["_start" := v]> d) w.
Proof.
  intros Hd k r Hk Hex Hall. destruct (not_reserved k Hk) as (? & _).
  rewrite lookup_insert_ne by done. by apply Hd.
Qed.

Lemma holds_removed_amend (dt2ts : Z → value) (l p : list activity)
  (act : activity) (new_doc nd' : doc) :
  act ∈ l →
  amends (field act) new_doc nd' →
  (scalar_change dt2ts act → field act ≠ "_corrupted" →
   nd' !! field act = Some (to_ts dt2ts (removed act))) →
  (∀ k r, k ∉ reserved → field act ≠ k →
          (∃ a, a ∈ p ∧ when a = when act ∧ field a = k) →
          (∀ a, a ∈ l → when a = when act → field a = k →
                scalar_change dt2ts a ∧ to_ts dt2ts (removed a) = r) →
          new_doc !! k = Some r) →
  holds_removed dt2ts l (p ++ [act]) nd' (when act).
Proof.
  intros Hact (_ & Hsame & _) Hval Hold k r Hk (a & Ha & Hw & Hfa) Hall.
  destruct (not_reserved k Hk) as (_ & _ & Hkc & _).
  destruct (decide (field act = k)) as [Heq|Hne].
  - destruct (Hall act Hact eq_refl Heq) as [Hsc <-].
    rewrite <- Heq. apply Hval; [done|]. by rewrite Heq.
  - rewrite Hsame by done. apply Hold; [done|done| |done].
    exists a. split; [|done].
    apply elem_of_app in Ha as [?|Heq%list_elem_of_singleton]; [done|subst a].
    by destruct Hne.
Qed.

Lemma loop_body_val_inv (dt2ts : Z → value) (l p : list activity)
  (lo : option Z) (batch batch' : list doc) (log log' : list logrec)
  (act : activity) :
  val_inv dt2ts l p lo batch → act ∈ l → names_field act →
  (∀ w0, lo = Some w0 → when act ≤ w0) →
  loop_body dt2ts (batch, log) act = Some (batch', log') →
  val_inv dt2ts l (p ++ [act]) (Some (when act)) batch'.
Proof.
  intros Hinv Hact [Hfs Hfe] Hle
    (rest & last_doc & new_doc & nd' & Hgs & -> & Ham & Hval)%loop_body_values.
  assert (nd' !! "_end" = new_doc !! "_end") as Hend.
  { destruct Ham as (_ & Hsame & _). by apply Hsame. }
  apply group_or_split_inv in Hgs
    as [[-> Hnd] | (x & e & -> & Hxe & Hne & -> & ->)].
  - (* grouped *)
    destruct lo as [w0|].
    2:{ destruct Hinv as [(a0 & Heq) _]. by destruct rest as [|? [|]]. }
    destruct Hinv as (a0 & tl & dk & Heq & Hdk & Hdkv & Htl & Hp).
    change [last_doc; new_doc] with ([last_doc] ++ [new_doc]) in Heq.
    rewrite app_assoc, app_comm_cons in Heq.
    apply app_inj_tail in Heq as [Heq <-].
    rewrite Hnd in Hdk. injection Hdk as <-.
    exists a0, tl, nd'. split.
    { change [last_doc; nd'] with ([last_doc] ++ [nd']).
      by rewrite app_assoc, Heq. }
    split; [by rewrite Hend|]. split.
    { eapply holds_removed_amend; [done|exact Ham|exact Hval|].
      intros k r Hk _ Hex Hall. by apply Hdkv. }
    split.
    + eapply Forall_impl; [exact Htl|].
      intros d (w & Hw & Hlt & Hd). exists w. split; [done|]. split; [done|].
      apply holds_removed_other; [lia|done].
    + apply Forall_app. split; [done|]. apply Forall_singleton. lia.
  - (* a new version *)
    assert (nd' !! "_end" = Some (VDate (when act))) as Hnde
      by by rewrite Hend, lookup_insert_eq.
    assert (∀ p0, Forall (λ a, when act < when a) p0 →
              holds_removed dt2ts l (p0 ++ [act]) nd' (when act)) as Hnew.
    { intros p0 Hp0. eapply holds_removed_amend; [done|exact Ham|exact Hval|].
      intros k r _ _ (a & Ha & Hw & _) _.
      rewrite Forall_forall in Hp0. specialize (Hp0 a Ha). lia. }
    destruct lo as [w0|].
    + destruct Hinv as (a0 & tl & dk & Heq & Hdk & Hdkv & Htl & Hp).
      rewrite app_comm_cons in Heq. apply app_inj_tail in Heq as [-> <-].
      assert (when act < w0) as Hlt.
      { specialize (Hle w0 eq_refl). rewrite Hxe in Hdk. injection Hdk as ->.
        assert (when act ≠ w0) by congruence. lia. }
      exists a0, (tl ++ [<["_start" := VDate (when act)]> x]), nd'.
      split; [by rewrite <- app_assoc|]. split; [done|]. split.
      { apply Hnew. eapply Forall_impl; [exact Hp|]. intros; simpl in *; lia. }
      split.
      * apply Forall_app. split.
        -- eapply Forall_impl; [exact Htl|].
           intros d (w & Hw & Hlt' & Hd). exists w. split; [done|].
           split; [lia|]. apply holds_removed_other; [lia|done].
        -- apply Forall_singleton. exists w0.
           split; [by rewrite lookup_insert_ne|]. split; [done|].
           apply holds_removed_other; [lia|]. by apply holds_removed_start.
      * apply Forall_app. split; [|apply Forall_singleton; lia].
        eapply Forall_impl; [exact Hp|]. intros; simpl in *; lia.
    + destruct Hinv as [(a0 & Heq) ->].
      apply snoc_eq_singleton in Heq as [-> ->].
      exists (<["_start" := VDate (when act)]> a0), [], nd'.
      split; [done|]. split; [done|]. split; [by apply (Hnew [])|].
      split; [constructor|]. apply Forall_singleton. lia.
Qed.

Lemma for_each_val_inv (dt2ts : Z → value) (l q : list activity) :
  ∀ (p : list activity) (lo : option Z) (batch batch' : list doc)
    (log log' : list logrec),
    val_inv dt2ts l p lo batch →
    Forall (λ a, a ∈ l ∧ names_field a) q →
    StronglySorted later_first q →
    (∀ w, lo = Some w → Forall (λ a, when a ≤ w) q) →
    for_each (loop_body dt2ts) (batch, log) q = Some (batch', log') →
    val_inv dt2ts l (p ++ q)
            (match last q with Some a => Some (when a) | None => lo end) batch'.
Proof.
  induction q as [|a q IH]; intros p lo batch batch' log log' Hinv Hf Hs Hle.
  - intros [= <- <-]. by rewrite app_nil_r.
  - cbn [for_each].
    destruct (loop_body dt2ts (batch, log) a) as [[b1 l1]|] eqn:Hb; [|done].
    cbn [mbind option_bind]. intros Hrun.
    apply Forall_cons in Hf as [[Hal Hfa] Hf].
    apply StronglySorted_inv in Hs as [Hs Hall].
    eapply loop_body_val_inv in Hb; [|done|done|done|].
    2:{ intros w Hw. specialize (Hle w Hw). by apply Forall_cons in Hle as [? _]. }
    eapply IH in Hrun; [|done|done|done|by intros w [= <-]].
    rewrite <- app_assoc in Hrun. cbn [app] in Hrun.
    destruct q as [|a1 q]; [exact Hrun|]. rewrite last_cons_cons.
    destruct (last (a1 :: q)) eqn:Hl; [exact Hrun|]. by apply last_None in Hl.
Qed.

(** X7.  The version that ends at an instant holds what the activities at
    that instant removed.  When the activities name fields and not the keys
    [_start] and [_end]: if a document after the first ends at [w], some
    matching activity at [w] names the key [k], which is none of [_start],
    [_end], [_corrupted], [_id], and all matching activities at [w] on [k] are
    scalar and removed the same value, then the document has that value under
    [k], whether or not the activities agreed with the value found. *)
Theorem version_holds_removed (ts2dt : value → option value)
  (dt2ts : Z → value) (cfield : option string)
  (py2_lt : value → value → option bool)
  (time_doc : doc) (ts : value) (t : Z) (acts : list activity)
  (batch : list doc) (log : list logrec) :
  Forall names_field acts →
  time_doc !! "_start" = Some ts → ts2dt ts = Some (VDate t) →
  _activity_import_doc ts2dt dt2ts cfield py2_lt time_doc acts
    = Some (batch, log) →
  ∀ (d : doc) (w : Z) (k : string) (r : value),
    d ∈ tail batch → d !! "_end" = Some (VDate w) → k ∉ reserved →
    (∃ a, a ∈ acts ∧ matches t (<["_start" := VDate t]> time_doc) a ∧
          when a = w ∧ field a = k) →
    (∀ a, a ∈ acts → matches t (<["_start" := VDate t]> time_doc) a →
          when a = w → field a = k →
          scalar_change dt2ts a ∧ to_ts dt2ts (removed a) = r) →
    d !! k = Some r.
Proof.
  intros Hf Hts Htd Hrun d w k r Hd Hw Hk (a & Ha & Hm & Haw & Hak) Hall.
  unfold _activity_import_doc in Hrun.
  destruct (reconstruct _ _ _ _ _) as [[b1 log1]|] eqn:Hrec; [|done].
  cbn [mbind option_bind] in Hrun.
  apply reconstruct_inv in Hrec
    as (ts' & td' & l & Hts' & Htd' & Hfor & Hs & Hl).
  rewrite Hts in Hts'. injection Hts' as <-.
  rewrite Htd in Htd'. injection Htd' as <-.
  set (td := <["_start" := VDate t]> time_doc) in *.
  assert (∀ a, a ∈ l ↔ a ∈ acts ∧ matches t td a) as Hmem.
  { intros a'. destruct Hl as [[-> ->]|(t' & [= <-] & Hl)]; [|by apply Hl].
    split; [by intros ?%elem_of_nil|by intros [?%elem_of_nil _]]. }
  eapply (for_each_val_inv dt2ts l l [] None) in Hfor; [|split; [by eexists|done]| |done|done].
  2:{ apply Forall_forall. intros a' Ha'. split; [done|].
      rewrite Forall_forall in Hf. by apply Hf, Hmem. }
  cbn [app] in Hfor.
  assert (val_inv dt2ts l l (when <$> last l) batch ∨ batch = []) as [Hinv| ->].
  { assert (val_inv dt2ts l l (when <$> last l) b1) as Hb1.
    { by destruct (last l). }
    destruct (creation_step ts2dt cfield py2_lt b1) as [ret|] eqn:Hc;
      injection Hrun as <- <-; [|by left].
    apply creation_step_inv in Hc
      as (older & last_doc & f & raw & c & st & lt & -> & _ & _ & _ & _ & _ & ->).
    destruct lt; [|case_decide; [by right|by left]].
    left. destruct (when <$> last l) as [w0|].
    - destruct Hb1 as (a0 & tl & dk & Heq & Hdk & Hdkv & Htl & Hp).
      rewrite app_comm_cons in Heq. apply app_inj_tail in Heq as [-> <-].
      exists a0, tl, (<["_start" := c]> last_doc).
      split; [done|]. split; [by rewrite lookup_insert_ne|].
      split; [by apply holds_removed_start|done].
    - destruct Hb1 as [(a0 & Heq) Hp]. split; [|done].
      apply snoc_eq_singleton in Heq as [-> ->]. by eexists. }
  2:{ by apply elem_of_nil in Hd. }
  assert (holds_removed dt2ts l l d w) as Hdv.
  { destruct (when <$> last l) as [w0|].
    - destruct Hinv as (a0 & tl & dk & -> & Hdk & Hdkv & Htl & _).
      cbn [tail] in Hd. apply elem_of_app in Hd as [Hd|Hd].
      + rewrite Forall_forall in Htl.
        destruct (Htl d Hd) as (w' & Hw' & _ & Hd').
        rewrite Hw in Hw'. by injection Hw' as <-.
      + apply list_elem_of_singleton in Hd as ->.
        rewrite Hw in Hdk. by injection Hdk as <-.
    - destruct Hinv as [(a0 & ->) _]. by apply elem_of_nil in Hd. }
  apply (Hdv k r Hk).
  - exists a. split; [by apply Hmem|done].
  - intros a' Ha'. apply Hmem in Ha' as [? ?]. by apply Hall.
Qed.

(** ** Marks of corruption and the log *)

Lemma provenance_mono (td : doc) (log log' : list logrec) (d : doc) :
  (∀ r, r ∈ log → r ∈ log') → provenance td log d → provenance td log' d.
Proof.
  intros Hsub [Heq|(c & Hc & (i & Hi) & Hf)]; [by left|right].
  exists c. split; [done|]. split; [exists i; auto|].
  intros f Hin. destruct (Hf f Hin) as [?|(j & Hj & ?)]; [by left|right].
  exists j. auto.
Qed.

Lemma marked_same (d d' : doc) (f : string) :
  d' !! "_corrupted" = d !! "_corrupted" → marked d f → marked d' f.
Proof. intros Heq (c & Hc & Hin). exists c. by rewrite Heq. Qed.

Lemma provenance_same (td : doc) (log : list logrec) (d d' : doc) :
  d' !! "_corrupted" = d !! "_corrupted" →
  provenance td log d → provenance td log d'.
Proof.
  intros Heq [Hd|(c & Hc & Hrest)]; [left|right].
  - by rewrite Heq.
  - exists c. by rewrite Heq.
Qed.

Lemma corrupted_dict_spec (d : doc) (c : gmap string value) :
  corrupted_dict d = Some c →
  (d !! "_corrupted" = None ∧ c = ∅) ∨ d !! "_corrupted" = Some (VDict c).
Proof.
  unfold corrupted_dict. destruct (d !! "_corrupted") as [[]|]; try done.
  - intros [= <-]. by right.
  - intros [= <-]. by left.
Qed.

(** What an iteration does to the marks of [new_doc] and to the log. *)
Lemma loop_body_marks (dt2ts : Z → value) (td : doc)
  (batch batch' : list doc) (log log' : list logrec) (act : activity) :
  field act ≠ "_corrupted" →
  loop_body dt2ts (batch, log) act = Some (batch', log') →
  ∃ rest last_doc new_doc nd',
    group_or_split batch (when act) = Some (rest, last_doc, new_doc) ∧
    batch' = rest ++ [last_doc; nd'] ∧
    (∀ r, r ∈ log → r ∈ log') ∧
    (LogWarn ∉ log → LogWarn ∉ log') ∧
    (∀ f, marked new_doc f → marked nd' f) ∧
    (provenance td log new_doc → provenance td log' nd') ∧
    (∀ i, LogIncon i ∈ log' → LogIncon i ∈ log ∨ marked nd' (incon_field i)).
Proof.
  intros Hfc
    (rest & last_doc & new_doc & lv & val & nv & inc & Hgs & _ & _ & _ & Hret)%loop_body_cases.
  exists rest, last_doc, new_doc. destruct inc.
  - destruct Hret as (oid & c & _ & Hc & -> & ->). eexists. split; [done|].
    split; [done|].
    apply corrupted_dict_spec in Hc. rewrite lookup_insert_ne in Hc by done.
    split; [intros r ?; apply elem_of_app; by left|].
    split.
    { intros Hw [?|[=]%list_elem_of_singleton]%elem_of_app. by apply Hw. }
    split.
    { intros f (c0 & Hc0 & Hin). eexists. rewrite lookup_insert_eq.
      split; [done|]. destruct (decide (field act = f)) as [->|?].
      - by rewrite lookup_insert_eq.
      - rewrite lookup_insert_ne by done.
        destruct Hc as [[Hn _]|Hc]; [congruence|].
        rewrite Hc0 in Hc. by injection Hc as <-. }
    split.
    { intros Hprov. right. eexists. rewrite lookup_insert_eq.
      split; [done|]. split.
      { eexists. apply elem_of_app. right. by left. }
      intros f Hin. destruct (decide (field act = f)) as [<-|Hne].
      - right. eexists. split; [apply elem_of_app; right; by left|done].
      - rewrite lookup_insert_ne in Hin by done.
        destruct Hc as [[_ ->]|Hc]; [by rewrite lookup_empty in Hin; destruct Hin|].
        destruct Hprov as [Heq|(c1 & Hc1 & _ & Hf)].
        + left. exists c. by rewrite <- Heq.
        + rewrite Hc in Hc1. injection Hc1 as <-.
          destruct (Hf f Hin) as [?|(j & Hj & ?)]; [by left|right].
          exists j. split; [|done]. apply elem_of_app. by left. }
    intros i [?|Hi%list_elem_of_singleton]%elem_of_app; [by left|right].
    injection Hi as ->. cbn [incon_field].
    eexists. rewrite lookup_insert_eq. split; [done|].
    by rewrite lookup_insert_eq.
  - destruct Hret as [-> ->]. eexists. split; [done|]. split; [done|].
    split; [done|]. split; [done|].
    split; [intros f; apply marked_same; by rewrite lookup_insert_ne|].
    split; [apply provenance_same; by rewrite lookup_insert_ne|].
    intros i ?. by left.
Qed.

Lemma loop_body_mark_inv (dt2ts : Z → value) (td : doc)
  (st st' : list doc * list logrec) (act : activity) :
  field act ≠ "_corrupted" →
  mark_inv td st → loop_body dt2ts st act = Some st' → mark_inv td st'.
Proof.
  destruct st as [batch log], st' as [batch' log'].
  intros Hfc (a0 & tl & Hb & Hw & Hlog & Hprov) Hbody.
  cbn [fst snd] in *. subst batch.
  apply (loop_body_marks dt2ts td) in Hbody
    as (rest & last_doc & new_doc & nd' & Hgs & -> & Hsub & Hwarn & Hmk & Hpv & Hnew);
    [|done].
  assert (∀ d, provenance td log d → provenance td log' d) as Hmono.
  { intros d. by apply provenance_mono. }
  apply group_or_split_inv in Hgs
    as [[Heq _] | (x & e & Heq & _ & _ & -> & ->)].
  - destruct rest as [|r rest]; injection Heq as <- ->.
    + (* the batch is the anchor and one version *)
      apply Forall_cons in Hprov as [Ha Hn]. apply Forall_cons in Hn as [Hn _].
      exists a0, [nd']. cbn [fst snd]. split; [done|]. split; [auto|]. split.
      * intros i Hi. exists nd'. split; [by left|].
        destruct (Hnew i Hi) as [Hold|?]; [|done].
        destruct (Hlog i Hold) as (d & ->%list_elem_of_singleton & Hd). auto.
      * apply Forall_cons. split; [auto|]. apply Forall_cons. split; [auto|constructor].
    + apply Forall_cons in Hprov as [Ha Hrest].
      apply Forall_app in Hrest as [Hrest Hlast].
      apply Forall_cons in Hlast as [Hl Hn]. apply Forall_cons in Hn as [Hn _].
      exists a0, (rest ++ [last_doc; nd']). cbn [fst snd].
      split; [done|]. split; [auto|]. split.
      * intros i Hi. destruct (Hnew i Hi) as [Hold|?].
        -- destruct (Hlog i Hold) as (d & Hd & Hm).
           apply elem_of_app in Hd as [Hd|Hd].
           ++ exists d. split; [apply elem_of_app; by left|done].
           ++ apply elem_of_cons in Hd as [->|Hd].
              ** exists last_doc. split; [|done]. apply elem_of_app. right. by left.
              ** apply list_elem_of_singleton in Hd as ->. exists nd'.
                 split; [|auto]. apply elem_of_app. right. right. by left.
        -- exists nd'. split; [|done]. apply elem_of_app. right. right. by left.
      * apply Forall_cons. split; [auto|]. apply Forall_app. split.
        -- eapply Forall_impl; [exact Hrest|]. auto.
        -- apply Forall_cons. split; [auto|].
           apply Forall_cons. split; [auto|constructor].
  - set (w := VDate (when act)) in *.
    assert (∀ f, marked x f →
              marked (<["_end" := w]> (<["_start" := w]> (delete "_id" x))) f)
      as Hcopy.
    { intros f. apply marked_same.
      by rewrite !lookup_insert_ne, lookup_delete_ne. }
    assert (provenance td log x →
            provenance td log (<["_end" := w]> (<["_start" := w]> (delete "_id" x))))
      as Hcopyp.
    { apply provenance_same. by rewrite !lookup_insert_ne, lookup_delete_ne. }
    assert (∀ f, marked x f → marked (<["_start" := w]> x) f) as Hst.
    { intros f. apply marked_same. by rewrite lookup_insert_ne. }
    assert (provenance td log x → provenance td log (<["_start" := w]> x)) as Hstp.
    { apply provenance_same. by rewrite lookup_insert_ne. }
    destruct rest as [|r rest]; injection Heq as Heq1 Heq2.
    + subst x tl.
      apply Forall_cons in Hprov as [Ha _].
      exists (<["_start" := w]> a0), [nd']. cbn [fst snd].
      split; [done|]. split; [auto|]. split.
      * intros i Hi. exists nd'. split; [by left|].
        destruct (Hnew i Hi) as [Hold|?]; [|done].
        destruct (Hlog i Hold) as (d & ?%elem_of_nil & _). done.
      * apply Forall_cons. split; [auto|].
        apply Forall_cons. split; [auto|constructor].
    + subst r tl.
      apply Forall_cons in Hprov as [Ha Hrest].
      apply Forall_app in Hrest as [Hrest Hx].
      apply Forall_cons in Hx as [Hx _].
      exists a0, (rest ++ [<["_start" := w]> x; nd']). cbn [fst snd].
      split; [done|]. split; [auto|]. split.
      * intros i Hi. destruct (Hnew i Hi) as [Hold|?].
        -- destruct (Hlog i Hold) as (d & Hd & Hm).
           apply elem_of_app in Hd as [Hd|Hd].
           ++ exists d. split; [apply elem_of_app; by left|done].
           ++ apply list_elem_of_singleton in Hd as ->.
              exists (<["_start" := w]> x). split; [|auto].
              apply elem_of_app. right. by left.
        -- exists nd'. split; [|done]. apply elem_of_app. right. right. by left.
      * apply Forall_cons. split; [auto|]. apply Forall_app. split.
        -- eapply Forall_impl; [exact Hrest|]. auto.
        -- apply Forall_cons. split; [auto|].
           apply Forall_cons. split; [auto|constructor].
Qed.

(** X8.  The marks of corruption and the inconsistency log say the same.
    When no activity names the key [_corrupted]: every inconsistency in the
    log is marked, under its field, in the [_corrupted] dictionary of a
    document after the first; and the [_corrupted] entry of every document of
    the batch is either that of the anchor, or a dictionary written after an
    inconsistency was logged, each field of which the anchor already marked
    or the log names.  So a run that logs no inconsistency leaves [_corrupted]
    everywhere as the anchor had it. *)
Theorem marks_match_log (ts2dt : value → option value)
  (dt2ts : Z → value) (cfield : option string)
  (py2_lt : value → value → option bool)
  (time_doc : doc) (acts : list activity) (batch : list doc)
  (log : list logrec) :
  Forall (λ a, field a ≠ "_corrupted") acts →
  _activity_import_doc ts2dt dt2ts cfield py2_lt time_doc acts
    = Some (batch, log) →
  (∀ i, LogIncon i ∈ log →
        ∃ d, d ∈ tail batch ∧ marked d (incon_field i))
  ∧ Forall (provenance time_doc log) batch
  ∧ ((∀ i, LogIncon i ∉ log) →
     Forall (λ d : doc, d !! "_corrupted" = time_doc !! "_corrupted") batch).
Proof.
  intros Hf Hrun.
  assert ((∀ i, LogIncon i ∈ log →
                ∃ d, d ∈ tail batch ∧ marked d (incon_field i))
          ∧ Forall (provenance time_doc log) batch) as [H1 H2].
  { unfold _activity_import_doc in Hrun.
    destruct (reconstruct _ _ _ _ _) as [[b1 log1]|] eqn:Hrec; [|done].
    cbn [mbind option_bind] in Hrun.
    apply reconstruct_inv in Hrec
      as (ts & td_start & l & Hts & Htd & Hfor & _ & Hl).
    set (td := <["_start" := td_start]> time_doc) in *.
    assert (Forall (λ a, field a ≠ "_corrupted") l) as Hfl.
    { destruct Hl as [[_ ->]|(t & _ & Hl)]; [constructor|].
      rewrite Forall_forall in Hf |- *. intros a Ha. by apply Hf, Hl. }
    assert (mark_inv td (b1, log1)) as (a0 & tl & Hb & Hw & Hlog & Hprov).
    { revert Hfor.
      apply (for_each_inv (loop_body dt2ts) (mark_inv td)
               (λ a, field a ≠ "_corrupted") l); [|done|].
      - intros st a st' Ha Hst Hbody. by eapply loop_body_mark_inv.
      - exists td, []. cbn [fst snd]. split; [done|].
        split; [apply not_elem_of_nil|].
        split; [by intros i ?%elem_of_nil|].
        apply Forall_singleton. by left. }
    cbn [fst snd] in *. subst b1.
    assert (∀ lg d, provenance td lg d → provenance time_doc lg d) as Htd'.
    { intros lg d [Heq|(c & Hc & Hi & Hfs)]; [left|right].
      - rewrite Heq. unfold td. by rewrite lookup_insert_ne.
      - exists c. split; [done|]. split; [done|].
        intros f Hin. destruct (Hfs f Hin) as [(c0 & Hc0 & ?)|?]; [left|by right].
        exists c0. unfold td in Hc0. by rewrite lookup_insert_ne in Hc0. }
    destruct (creation_step ts2dt cfield py2_lt _) as [ret|] eqn:Hc;
      injection Hrun as <- <-.
    2:{ split.
        - intros i [Hi|[=]%list_elem_of_singleton]%elem_of_app. by apply Hlog.
        - eapply Forall_impl; [exact Hprov|]. intros d Hd. apply Htd'.
          eapply provenance_mono; [|exact Hd].
          intros r ?. apply elem_of_app. by left. }
    apply creation_step_inv in Hc
      as (older & last_doc & f & raw & c & st & lt & Heq & _ & _ & _ & _ & _ & ->).
    destruct lt; [|case_decide as Hlen].
    - destruct older as [|o older]; injection Heq as Heq1 Heq2.
      + subst last_doc tl. split.
        * intros i Hi. by destruct (Hlog i Hi) as (d & ?%elem_of_nil & _).
        * apply Forall_cons in Hprov as [Ha _]. apply Forall_singleton.
          apply Htd'. eapply provenance_same; [|exact Ha].
          by rewrite lookup_insert_ne.
      + subst o tl. split.
        * intros i Hi. destruct (Hlog i Hi) as (d & Hd & Hm). cbn [tail app].
          apply elem_of_app in Hd as [Hd| ->%list_elem_of_singleton].
          -- exists d. split; [apply elem_of_app; by left|done].
          -- eexists. split; [apply elem_of_app; right; by left|].
             eapply marked_same; [|exact Hm]. by rewrite lookup_insert_ne.
        * apply Forall_cons in Hprov as [Ha Hrest].
          apply Forall_app in Hrest as [Hold Hlast].
          apply Forall_cons in Hlast as [Hlast _].
          apply Forall_cons. split; [auto|]. apply Forall_app. split.
          -- eapply Forall_impl; [exact Hold|]. auto.
          -- apply Forall_singleton. apply Htd'.
             eapply provenance_same; [|exact Hlast].
             by rewrite lookup_insert_ne.
    - split; [|constructor].
      intros i Hi. destruct tl; [|done].
      by destruct (Hlog i Hi) as (d & ?%elem_of_nil & _).
    - split; [done|]. eapply Forall_impl; [exact Hprov|]. auto. }
  split; [done|]. split; [done|].
  intros Hno. eapply Forall_impl; [exact H2|].
  intros d [?|(c & _ & (i & Hi) & _)]; [done|]. by destruct (Hno i).
Qed.

(** ** The order of the activities *)

Lemma when_inj_NoDup (l : list activity) (x y : activity) :
  NoDup (when <$> l) → x ∈ l → y ∈ l → when x = when y → x = y.
Proof.
  induction l as [|a l IH]; [by intros _ ?%elem_of_nil|].
  rewrite fmap_cons. intros [Hnin Hnd]%NoDup_cons Hx Hy Hw.
  apply elem_of_cons in Hx as [->|Hx]; apply elem_of_cons in Hy as [->|Hy].
  - done.
  - destruct Hnin. rewrite Hw. by apply list_elem_of_fmap_2.
  - destruct Hnin. rewrite <- Hw. by apply list_elem_of_fmap_2.
  - by apply IH.
Qed.

Lemma insert_desc_total (py2_lt : value → value → option bool)
  (x : activity) (l : list activity) :
  Forall (λ y, when y ≠ when x) l →
  is_Some (insert_desc py2_lt x l).
Proof.
  induction 1 as [|y l Hy _ IH]; [by eexists|].
  cbn [insert_desc]. unfold act_lt.
  rewrite bool_decide_eq_false_2 by congruence. cbn [negb mbind option_bind].
  destruct (bool_decide (when x < when y)); [|by eexists].
  destruct IH as [r ->]. by eexists.
Qed.

Lemma sorted_desc_total (py2_lt : value → value → option bool)
  (l : list activity) :
  NoDup (when <$> l) → is_Some (sorted_desc py2_lt l).
Proof.
  induction l as [|x l IH]; [by eexists|].
  rewrite fmap_cons. intros [Hnin Hnd]%NoDup_cons.
  cbn [sorted_desc]. destruct (IH Hnd) as [r Hr]. rewrite Hr.
  cbn [mbind option_bind]. apply insert_desc_total.
  apply Forall_forall. intros y Hy Heq. destruct Hnin. rewrite <- Heq.
  apply list_elem_of_fmap_2. by rewrite <- (sorted_desc_perm _ _ _ Hr).
Qed.

Lemma sorted_desc_order (py2_lt : value → value → option bool)
  (l1 l2 : list activity) :
  l1 ≡ₚ l2 → NoDup (when <$> l1) →
  sorted_desc py2_lt l1 = sorted_desc py2_lt l2.
Proof.
  intros Hperm Hnd.
  assert (NoDup (when <$> l2)) as Hnd2 by by rewrite <- Hperm.
  destruct (sorted_desc_total py2_lt l1 Hnd) as [r1 Hr1].
  destruct (sorted_desc_total py2_lt l2 Hnd2) as [r2 Hr2].
  rewrite Hr1, Hr2. f_equal.
  pose proof (sorted_desc_perm _ _ _ Hr1) as Hp1.
  pose proof (sorted_desc_perm _ _ _ Hr2) as Hp2.
  apply (StronglySorted_unique_strong later_first).
  - intros x1 x2 Hx1 Hx2 H12 H21. unfold later_first in *.
    apply (when_inj_NoDup l1); [done|by rewrite <- Hp1| |lia].
    by rewrite Hperm, <- Hp2.
  - by eapply sorted_desc_sorted.
  - by eapply sorted_desc_sorted.
  - by rewrite Hp1, Hp2.
Qed.

Lemma filter_acts_not_date (py2_lt : value → value → option bool)
  (td_start : value) (td : doc) (acts : list activity) :
  (∀ t, td_start ≠ VDate t) →
  filter_acts py2_lt td_start td acts
  = match acts with [] => Some [] | _ => None end.
Proof.
  intros Hnd. destruct acts as [|a acts]; [done|].
  cbn [filter_acts]. destruct td_start; try done. by destruct (Hnd t).
Qed.

(** X9.  The order in which the activities are listed does not matter, as
    long as no two of them have the same instant: two lists with the same
    activities give the same batch and the same log, or the same
    exception. *)
Theorem order_irrelevant (ts2dt : value → option value)
  (dt2ts : Z → value) (cfield : option string)
  (py2_lt : value → value → option bool)
  (time_doc : doc) (acts acts' : list activity) :
  acts ≡ₚ acts' → NoDup (when <$> acts) →
  _activity_import_doc ts2dt dt2ts cfield py2_lt time_doc acts
  = _activity_import_doc ts2dt dt2ts cfield py2_lt time_doc acts'.
Proof.
  intros Hperm Hnd. unfold _activity_import_doc, reconstruct.
  destruct (time_doc !! "_start") as [ts|]; [|done]. cbn [mbind option_bind].
  destruct (ts2dt ts) as [td_start|]; [|done]. cbn [mbind option_bind].
  assert ((∃ t, td_start = VDate t) ∨ ∀ t, td_start ≠ VDate t) as [[t ->]|Hno].
  { destruct td_start; try (by right). left. by eexists. }
  - rewrite !filter_acts_filter. cbn [mbind option_bind].
    set (P := matches t (<["_start" := VDate t]> time_doc)).
    rewrite (sorted_desc_order py2_lt (filter P acts) (filter P acts')); [done| |].
    + by rewrite Hperm.
    + apply (NoDup_fmap_2_strong when).
      * intros x y Hx%list_elem_of_filter Hy%list_elem_of_filter Hw.
        apply (when_inj_NoDup acts); tauto.
      * apply NoDup_filter. eapply NoDup_fmap_1, Hnd.
  - rewrite !filter_acts_not_date by done.
    destruct acts as [|a acts].
    + apply Permutation_nil in Hperm as ->. done.
    + destruct acts' as [|a' acts']; [|done].
      by apply Permutation_nil_r in Hperm.
Qed.

(** ** The loop of [_activity_import] *)

Lemma for_each_raises {S A : Type} (body : S → A → option S) (l : list A)
  (a : A) :
  a ∈ l → (∀ s, body s a = None) → ∀ s, for_each body s l = None.
Proof.
  intros Ha Hnone. induction l as [|x l IH]; [by apply elem_of_nil in Ha|].
  intros s. cbn [for_each].
  apply elem_of_cons in Ha as [<-|Ha]; [by rewrite Hnone|].
  destruct (body s x) as [s1|]; [|done]. cbn [mbind option_bind]. by apply IH.
Qed.

Section ImportLoop.
Variable ts2dt : value → option value.
Variable dt2ts : Z → value.
Variable cfield : option string.
Variable py2_lt : value → value → option bool.

Lemma import_body_cases (activities : list (value * list activity))
  (d : doc) (r r' : list value) (s s' : list doc) (l l' : list logrec) :
  import_body ts2dt dt2ts cfield py2_lt activities (r, s, l) d
    = Some (r', s', l') →
  ∃ oid _id updates lg,
    d !! "_oid" = Some oid ∧ d !! "_id" = Some _id ∧
    is_Some (d !! "_hash") ∧
    _activity_import_doc ts2dt dt2ts cfield py2_lt (stripped d)
                         (setdefault activities oid) = Some (updates, lg) ∧
    r' = r ++ (if decide (updates = []) then [] else [_id]) ∧
    s' = s ++ updates ∧ l' = l ++ lg.
Proof.
  unfold import_body, stripped.
  destruct (d !! "_oid") as [oid|]; [|done]. cbn [mbind option_bind].
  destruct (d !! "_id") as [_id|]; [|done]. cbn [mbind option_bind].
  destruct (delete "_id" d !! "_hash") as [h|] eqn:Hh; [|done].
  cbn [mbind option_bind].
  destruct (_activity_import_doc _ _ _ _ _ _) as [[updates lg]|] eqn:Hdoc;
    [|done].
  cbn [mbind option_bind]. intros Hret.
  exists oid, _id, updates, lg.
  rewrite lookup_delete_ne in Hh by done.
  split; [done|]. split; [done|]. split; [by eexists|]. split; [done|].
  destruct updates; injection Hret as <- <- <-.
  - by rewrite !app_nil_r.
  - done.
Qed.

Lemma import_loop_cases (activities : list (value * list activity))
  (docs : list doc) :
  ∀ (r r' : list value) (s s' : list doc) (l l' : list logrec),
    for_each (import_body ts2dt dt2ts cfield py2_lt activities) (r, s, l) docs
      = Some (r', s', l') →
    ∃ batches,
      Forall2 (λ d b, ∃ oid lg,
                 d !! "_oid" = Some oid ∧ is_Some (d !! "_hash") ∧
                 _activity_import_doc ts2dt dt2ts cfield py2_lt (stripped d)
                   (setdefault activities oid) = Some (b, lg))
              docs batches ∧
      s' = s ++ concat batches ∧
      Some <$> r' = (Some <$> r) ++ removed_ids docs batches.
Proof.
  induction docs as [|d docs IH]; intros r r' s s' l l'.
  - intros [= <- <- <-]. exists []. split; [constructor|].
    by rewrite !app_nil_r.
  - cbn [for_each].
    destruct (import_body _ _ _ _ _ _ d) as [[[r1 s1] l1]|] eqn:Hb; [|done].
    cbn [mbind option_bind]. intros Hrest.
    apply import_body_cases in Hb
      as (oid & _id & updates & lg & Hoid & Hid & Hh & Hdoc & -> & -> & ->).
    apply IH in Hrest as (batches & Hall & -> & Hr).
    exists (updates :: batches). split; [|split].
    + constructor; [|done]. by exists oid, lg.
    + cbn [concat]. by rewrite <- app_assoc.
    + rewrite Hr, fmap_app, <- app_assoc. f_equal.
      cbn [removed_ids]. f_equal. rewrite Hid. by case_decide.
Qed.

(** X10.  [_activity_import] gathers the batches of the documents one
    after the other: what it saves is the concatenation of the batches that
    [_activity_import_doc] gives for each stored document without its [_id]
    and [_hash], on the activities of its [_oid], and what it removes are the
    identifiers of the documents whose batch is not empty, in the same
    order. *)
Theorem import_collects (activities : list (value * list activity))
  (docs : list doc) (remove_ids : list value) (save_objects : list doc)
  (log : list logrec) :
  _activity_import ts2dt dt2ts cfield py2_lt docs activities
    = Some (remove_ids, save_objects, log) →
  ∃ batches,
    Forall2 (λ d b, ∃ oid lg,
               d !! "_oid" = Some oid ∧ is_Some (d !! "_hash") ∧
               _activity_import_doc ts2dt dt2ts cfield py2_lt (stripped d)
                 (setdefault activities oid) = Some (b, lg))
            docs batches ∧
    save_objects = concat batches ∧
    Some <$> remove_ids = removed_ids docs batches.
Proof.
  unfold _activity_import. intros Hrun.
  apply import_loop_cases in Hrun as (batches & Hall & -> & Hr).
  by exists batches.
Qed.

Lemma removed_ids_sublist (docs : list doc) (batches : list (list doc)) :
  removed_ids docs batches `sublist_of` (λ d : doc, d !! "_id") <$> docs.
Proof.
  revert batches. induction docs as [|d docs IH]; intros [|b batches];
    cbn [removed_ids]; try apply sublist_nil_l.
  rewrite fmap_cons. case_decide.
  - apply sublist_cons, IH.
  - apply sublist_skip, IH.
Qed.

Lemma removed_ids_nil (docs : list doc) (batches : list (list doc)) :
  length docs = length batches →
  removed_ids docs batches = [] ↔ concat batches = [].
Proof.
  revert batches. induction docs as [|d docs IH]; intros [|b batches] Hlen;
    try done.
  cbn [removed_ids concat]. injection Hlen as Hlen.
  case_decide as Hb.
  - subst b. by apply IH.
  - split; [done|]. by intros [? _]%app_eq_nil.
Qed.

Lemma import_doc_no_ids (d : doc) (acts : list activity) (batch : list doc)
  (log : list logrec) :
  _activity_import_doc ts2dt dt2ts cfield py2_lt (stripped d) acts
    = Some (batch, log) →
  Forall (λ v : doc, v !! "_id" = None ∧ v !! "_hash" = None) batch.
Proof.
  intros (ts & td_start & _ & _ & Hkeys)%import_doc_keys.
  eapply Forall_impl; [exact Hkeys|]. intros v Hv. unfold stripped in Hv.
  split.
  - destruct (v !! "_id") as [x|] eqn:Hx; [|done].
    destruct (Hv "_id") as [Hin|?]; [by rewrite Hx| |done].
    rewrite lookup_insert_ne, lookup_delete_ne, lookup_delete_eq in Hin by done.
    by destruct Hin.
  - destruct (v !! "_hash") as [x|] eqn:Hx; [|done].
    destruct (Hv "_hash") as [Hin|?]; [by rewrite Hx| |done].
    rewrite lookup_insert_ne, lookup_delete_eq in Hin by done.
    by destruct Hin.
Qed.

(** X11.  Of what [_activity_import] hands to [cube_save] no document
    carries [_id] or [_hash]; what it hands to [cube_remove] are identifiers
    of the stored documents, in their order and at most one for each; and it
    removes nothing exactly when it saves nothing. *)
Theorem import_saves_and_removes (activities : list (value * list activity))
  (docs : list doc) (remove_ids : list value) (save_objects : list doc)
  (log : list logrec) :
  _activity_import ts2dt dt2ts cfield py2_lt docs activities
    = Some (remove_ids, save_objects, log) →
  Forall (λ v : doc, v !! "_id" = None ∧ v !! "_hash" = None) save_objects
  ∧ Some <$> remove_ids `sublist_of` (λ d : doc, d !! "_id") <$> docs
  ∧ (remove_ids = [] ↔ save_objects = []).
Proof.
  unfold _activity_import. intros Hrun.
  apply import_loop_cases in Hrun as (batches & Hall & -> & Hr).
  cbn [fmap list_fmap app] in Hr. split; [|split].
  - cbn [app]. apply Forall_concat.
    clear Hr. induction Hall as [|d b docs batches (oid & lg & _ & _ & Hd) _ IH];
      constructor; [|done].
    by eapply import_doc_no_ids.
  - rewrite Hr. apply removed_ids_sublist.
  - cbn [app]. rewrite <- (removed_ids_nil docs batches)
      by by eapply Forall2_length.
    rewrite <- Hr. split; [by intros ->|]. by intros ?%fmap_nil_inv.
Qed.

(** X12.  A stored document without [_oid], [_id] or [_hash] makes the
    whole of [_activity_import] raise, whatever the other documents are:
    nothing is then handed to [cube_remove] or [cube_save]. *)
Theorem import_needs_ids (activities : list (value * list activity))
  (docs : list doc) (d : doc) :
  d ∈ docs →
  d !! "_oid" = None ∨ d !! "_id" = None ∨ d !! "_hash" = None →
  _activity_import ts2dt dt2ts cfield py2_lt docs activities = None.
Proof.
  intros Hd Hmiss. unfold _activity_import.
  apply (for_each_raises _ _ d); [done|].
  intros [[r s] l]. unfold import_body.
  destruct (d !! "_oid") as [oid|] eqn:Hoid; [|done]. cbn [mbind option_bind].
  destruct (d !! "_id") as [_id|] eqn:Hid; [|done]. cbn [mbind option_bind].
  rewrite lookup_delete_ne by done.
  destruct (d !! "_hash") as [h|] eqn:Hh; [|done].
  by destruct Hmiss as [?|[?|?]].
Qed.

End ImportLoop.

(** ** The choice of the anchors *)

Lemma dict_get_set_eq (docs : list (value * doc)) (oid : value) (d : doc) :
  dict_get (dict_set docs oid d) oid = Some d.
Proof.
  induction docs as [|[k d'] docs IH]; cbn [dict_set dict_get].
  - by rewrite decide_True.
  - case_decide as Hk; cbn [dict_get].
    + by rewrite decide_True.
    + by rewrite decide_False.
Qed.

Lemma dict_get_set_ne (docs : list (value * doc)) (oid k : value) (d : doc) :
  k ≠ oid → dict_get (dict_set docs oid d) k = dict_get docs k.
Proof.
  intros Hne. induction docs as [|[k' d'] docs IH]; cbn [dict_set dict_get].
  - by rewrite decide_False.
  - case_decide as Hk; cbn [dict_get].
    + subst k'. by rewrite !decide_False.
    + by rewrite IH.
Qed.

Lemma dict_get_None (docs : list (value * doc)) (oid : value) :
  dict_get docs oid = None ↔ oid ∉ docs.*1.
Proof.
  induction docs as [|[k d] docs IH]; cbn [dict_get].
  - split; [|done]. intros _. apply not_elem_of_nil.
  - rewrite fmap_cons, not_elem_of_cons. cbn [fst]. case_decide as Hk.
    + split; [done|]. by intros [? _].
    + rewrite IH. split; [|tauto]. intros ?. split; [|done]. congruence.
Qed.

Lemma dict_get_elem_of (docs : list (value * doc)) (oid : value) (d : doc) :
  NoDup docs.*1 → (oid, d) ∈ docs → dict_get docs oid = Some d.
Proof.
  induction docs as [|[k d'] docs IH]; [by intros _ ?%elem_of_nil|].
  rewrite fmap_cons. cbn [fst]. intros [Hnin Hnd]%NoDup_cons Hin.
  cbn [dict_get]. apply elem_of_cons in Hin as [[= -> ->]|Hin].
  - by rewrite decide_True.
  - rewrite decide_False; [by apply IH|].
    intros ->. destruct Hnin. by apply (list_elem_of_fmap_2 fst _ (oid, d)).
Qed.

Lemma dict_set_keys (docs : list (value * doc)) (oid : value) (d : doc) :
  (dict_set docs oid d).*1
  = if decide (oid ∈ docs.*1) then docs.*1 else docs.*1 ++ [oid].
Proof.
  induction docs as [|[k d'] docs IH]; cbn [dict_set].
  - rewrite decide_False; [done|]. apply not_elem_of_nil.
  - rewrite fmap_cons. cbn [fst].
    destruct (decide (k = oid)) as [->|Hk].
    + rewrite fmap_cons. cbn [fst]. rewrite decide_True; [done|]. by left.
    + rewrite fmap_cons, IH. cbn [fst].
      destruct (decide (oid ∈ docs.*1)) as [Hin|Hin].
      * rewrite decide_True; [done|]. by right.
      * rewrite decide_False; [done|].
        intros [?|?]%elem_of_cons; [congruence|done].
Qed.

Lemma dict_set_NoDup (docs : list (value * doc)) (oid : value) (d : doc) :
  NoDup docs.*1 → NoDup (dict_set docs oid d).*1.
Proof.
  intros Hnd. rewrite dict_set_keys. case_decide as Hin; [done|].
  apply NoDup_app. split; [done|]. split; [|apply NoDup_singleton].
  intros x Hx ->%list_elem_of_singleton. done.
Qed.

Lemma oldest_of_snoc_other (pre : list doc) (oid : value) (a d : doc) :
  d !! "_oid" ≠ Some oid → oldest_of pre oid a → oldest_of (pre ++ [d]) oid a.
Proof.
  intros Hne (s & l1 & l2 & -> & Hoid & Hs & H1 & H2).
  exists s, l1, (l2 ++ [d]). rewrite <- app_assoc. split; [done|].
  split; [done|]. split; [done|]. split; [done|].
  apply Forall_app. split; [done|]. apply Forall_singleton. done.
Qed.

Lemma oldest_of_snoc_later (pre : list doc) (oid : value) (a d : doc)
  (s t : Z) :
  start_ts a = Some s → start_ts d = Some t → s ≤ t →
  oldest_of pre oid a → oldest_of (pre ++ [d]) oid a.
Proof.
  intros Hsa Ht Hle (s' & l1 & l2 & -> & Hoid & Hs & H1 & H2).
  assert (s' = s) as -> by congruence.
  exists s, l1, (l2 ++ [d]). rewrite <- app_assoc. split; [done|].
  split; [done|]. split; [done|]. split; [done|].
  apply Forall_app. split; [done|]. apply Forall_singleton.
  intros _. by exists t.
Qed.

Lemma oldest_of_snoc_earlier (pre : list doc) (oid : value) (a d : doc)
  (s t : Z) :
  start_ts a = Some s → start_ts d = Some t → t < s →
  d !! "_oid" = Some oid →
  oldest_of pre oid a → oldest_of (pre ++ [d]) oid d.
Proof.
  intros Hsa Ht Hlt Hd (s' & l1 & l2 & -> & Hoid & Hs & H1 & H2).
  assert (s' = s) as -> by congruence.
  exists t, (l1 ++ a :: l2), []. split; [done|].
  split; [done|]. split; [done|]. split; [|constructor].
  apply Forall_app. split; [|apply Forall_cons; split].
  - eapply Forall_impl; [exact H1|]. intros x Hx Hxo.
    destruct (Hx Hxo) as (u & Hu & ?). exists u. split; [done|lia].
  - intros _. exists s. split; [done|lia].
  - eapply Forall_impl; [exact H2|]. intros x Hx Hxo.
    destruct (Hx Hxo) as (u & Hu & ?). exists u. split; [done|lia].
Qed.

Lemma oldest_of_first (pre : list doc) (oid : value) (d : doc) :
  Forall (λ x : doc, x !! "_oid" ≠ Some oid) pre →
  d !! "_oid" = Some oid → is_Some (start_ts d) →
  oldest_of (pre ++ [d]) oid d.
Proof.
  intros Hpre Hd [t Ht]. exists t, pre, []. split; [done|].
  split; [done|]. split; [done|]. split; [|constructor].
  eapply Forall_impl; [exact Hpre|]. by intros x Hx Hxo.
Qed.

Lemma start_ts_lookup (d : doc) (t : Z) :
  start_ts d = Some t → d !! "_start" = Some (VNum t).
Proof.
  unfold start_ts. destruct (d !! "_start") as [[]|]; naive_solver.
Qed.

Section AnchorsLoop.
Variable py2_lt : value → value → option bool.
Hypothesis py2_lt_num :
  ∀ x y, py2_lt (VNum x) (VNum y) = Some (bool_decide (x < y)).

Lemma select_body_inv (pre : list doc) (docs : list (value * doc)) (d : doc) :
  stored_ok d → anchors_inv pre docs →
  ∃ docs', select_body py2_lt docs d = Some docs'
           ∧ anchors_inv (pre ++ [d]) docs'.
Proof.
  intros [(oid0 & Hoid0 & Hhash) [t Ht]] [Hnd Hinv].
  unfold select_body. rewrite Hoid0. cbn [mbind option_bind]. rewrite Hhash.
  pose proof (Hinv oid0) as H0.
  assert (∀ docs' : list (value * doc),
            NoDup docs'.*1 →
            (∀ oid, oid ≠ oid0 → dict_get docs' oid = dict_get docs oid) →
            (∃ a, dict_get docs' oid0 = Some a ∧ oldest_of (pre ++ [d]) oid0 a) →
            anchors_inv (pre ++ [d]) docs') as Hbuild.
  { intros docs' Hnd' Hother (a & Ha & Hold). split; [done|]. intros oid.
    destruct (decide (oid = oid0)) as [->|Hne]; [by rewrite Ha|].
    rewrite Hother by done. pose proof (Hinv oid) as Ho.
    assert (d !! "_oid" ≠ Some oid) as Hd by congruence.
    destruct (dict_get docs oid) as [a'|].
    - by apply oldest_of_snoc_other.
    - apply Forall_app. split; [done|]. by apply Forall_singleton. }
  destruct (dict_get docs oid0) as [cur|] eqn:Hcur.
  - pose proof H0 as (s & l1 & l2 & _ & _ & Hs & _).
    rewrite (start_ts_lookup _ _ Hs), (start_ts_lookup _ _ Ht).
    cbn [mbind option_bind py_lt]. rewrite py2_lt_num.
    cbn [mbind option_bind]. eexists. split; [done|].
    case_bool_decide as Hlt.
    + apply Hbuild.
      * by apply dict_set_NoDup.
      * intros oid Hne. by apply dict_get_set_ne.
      * exists d. split; [apply dict_get_set_eq|].
        by eapply oldest_of_snoc_earlier.
    + apply Hbuild; [done|done|].
      exists cur. split; [done|].
      eapply oldest_of_snoc_later; [exact Hs|exact Ht|lia|done].
  - eexists. split; [done|]. apply Hbuild.
    + by apply dict_set_NoDup.
    + intros oid Hne. by apply dict_get_set_ne.
    + exists d. split; [apply dict_get_set_eq|].
      apply oldest_of_first; [done|done|by eexists].
Qed.

Lemma select_loop_inv (l pre : list doc) (docs : list (value * doc)) :
  Forall stored_ok l → anchors_inv pre docs →
  ∃ docs', for_each (select_body py2_lt) docs l = Some docs'
           ∧ anchors_inv (pre ++ l) docs'.
Proof.
  intros Hl. revert pre docs.
  induction Hl as [|d l Hd _ IH]; intros pre docs Hinv.
  - exists docs. by rewrite app_nil_r.
  - destruct (select_body_inv pre docs d Hd Hinv) as (docs1 & Hb & Hinv1).
    destruct (IH _ _ Hinv1) as (docs' & Hrun & Hinv').
    exists docs'. cbn [for_each]. rewrite Hb. cbn [mbind option_bind].
    split; [done|]. by rewrite <- app_assoc in Hinv'.
Qed.

(** X13.  On stored documents, each with a hashable [_oid] and a
    timestamp under [_start], the first loop of [_activity_import] does not
    raise; [docs] then has one entry for each [_oid] met, and the document
    under an [_oid] is the one of that [_oid] with the least [_start], the
    first found of them when several start together. *)
Theorem anchors_are_oldest (time_docs : list doc) :
  Forall stored_ok time_docs →
  ∃ docs, select_anchors py2_lt time_docs = Some docs
    ∧ NoDup docs.*1
    ∧ Forall (λ e, oldest_of time_docs e.1 e.2) docs
    ∧ ∀ d oid, d ∈ time_docs → d !! "_oid" = Some oid → oid ∈ docs.*1.
Proof.
  intros Hok. unfold select_anchors.
  destruct (select_loop_inv time_docs [] [] Hok) as (docs & Hrun & Hnd & Hinv).
  { split; [constructor|]. intros oid. constructor. }
  exists docs. split; [done|]. split; [done|]. split.
  - apply Forall_forall. intros [oid a] Hin. cbn [fst snd].
    pose proof (Hinv oid) as Ho.
    by rewrite (dict_get_elem_of _ _ _ Hnd Hin) in Ho.
  - intros d oid Hd Hoid. pose proof (Hinv oid) as Ho.
    destruct (dict_get docs oid) as [a|] eqn:Hget.
    + destruct (decide (oid ∈ docs.*1)) as [|Hnin]; [done|].
      apply dict_get_None in Hnin. congruence.
    + cbn [app] in Ho. rewrite Forall_forall in Ho. by destruct (Ho d Hd).
Qed.

End AnchorsLoop.

(** X14.  A document found without [_oid], or whose [_oid] is a list or a
    dictionary, makes the first loop of [_activity_import] raise, wherever
    it stands among the documents. *)
Theorem anchors_need_oid (py2_lt : value → value → option bool)
  (time_docs : list doc) (d : doc) :
  d ∈ time_docs →
  (∀ oid, d !! "_oid" = Some oid → hashable oid = false) →
  select_anchors py2_lt time_docs = None.
Proof.
  intros Hd Hbad. unfold select_anchors.
  apply (for_each_raises _ _ d); [done|].
  intros docs. unfold select_body.
  destruct (d !! "_oid") as [oid|] eqn:Hoid; [|done].
  cbn [mbind option_bind]. by rewrite (Hbad oid).
Qed.

(** ** The chunks of [activity_import] *)

Lemma py_slice_chunk {A : Type} (l : list A) (i c : Z) :
  0 ≤ i → 0 < c →
  py_slice l i (i + c) = take (Z.to_nat c) (drop (Z.to_nat i) l).
Proof.
  intros Hi Hc. unfold py_slice, slice_bound.
  rewrite !decide_False by lia.
  destruct (decide (i + c ≤ Z.of_nat (length l))) as [Hin|Hout].
  - rewrite !Z.min_l by lia. f_equal. lia.
  - rewrite (Z.min_r (i + c)) by lia.
    destruct (decide (i ≤ Z.of_nat (length l))) as [Hi'|Hi'].
    + rewrite Z.min_l by lia.
      rewrite !take_ge; [done|rewrite length_drop; lia|rewrite length_drop; lia].
    + rewrite Z.min_r by lia. rewrite Z.sub_diag. cbn [Z.to_nat take].
      rewrite (drop_ge l (Z.to_nat i)) by lia. by rewrite take_nil.
Qed.

Lemma concat_chunks {A : Type} (l : list A) (c m : nat) :
  concat ((λ k : nat, take c (drop (k * c) l)) <$> seq 0 m) = take (m * c) l.
Proof.
  induction m as [|m IH]; [done|].
  rewrite seq_S, fmap_app, concat_app, IH. cbn [fmap list_fmap concat plus].
  rewrite app_nil_r, take_take_drop. f_equal. lia.
Qed.

Lemma chunks_count (n c : Z) :
  0 ≤ n → 0 < c →
  let q := (n + c - 1) / c in 0 ≤ q ∧ n ≤ q * c ∧ (q - 1) * c < n.
Proof.
  intros Hn Hc q.
  pose proof (Z.div_mod (n + c - 1) c ltac:(lia)) as Hdm.
  pose proof (Z.mod_pos_bound (n + c - 1) c Hc) as Hm.
  fold q in Hdm. split; [|split]; nia.
Qed.

Lemma chunks_pos (oids : list value) (c : Z) :
  0 < c →
  activity_import_chunks oids c
  = Some ((λ k : nat, take (Z.to_nat c) (drop (k * Z.to_nat c) oids))
          <$> seq 0 (Z.to_nat ((Z.of_nat (length oids) + c - 1) / c))).
Proof.
  intros Hc. unfold activity_import_chunks, py_range.
  rewrite decide_False by lia. rewrite decide_True by done.
  cbn [mbind option_bind]. f_equal.
  rewrite Z.sub_0_r, <- list_fmap_compose.
  apply list_fmap_ext. intros _ k _. cbn [compose].
  rewrite py_slice_chunk by lia. do 2 f_equal. lia.
Qed.

Lemma chunks_concat (oids : list value) (c : Z) :
  0 < c →
  concat ((λ k : nat, take (Z.to_nat c) (drop (k * Z.to_nat c) oids))
          <$> seq 0 (Z.to_nat ((Z.of_nat (length oids) + c - 1) / c)))
  = oids.
Proof.
  intros Hc.
  destruct (chunks_count (Z.of_nat (length oids)) c) as (Hq & Hup & Hlo);
    [lia|done|].
  rewrite concat_chunks. apply take_ge. nia.
Qed.

Lemma range_down_empty (n c : Z) :
  0 ≤ n → c < 0 → Z.to_nat ((0 - n - c - 1) / - c) = 0%nat.
Proof.
  intros Hn Hc.
  assert ((0 - n - c - 1) / - c < 1); [|lia].
  apply Z.div_lt_upper_bound; lia.
Qed.

(** X15.  With a positive [chunk_size], [activity_import] submits the
    identifiers in consecutive chunks: the chunks put end to end are the
    list of identifiers, none is empty, all have [chunk_size] identifiers
    but the last, which may have fewer, and their number is the length of
    the list divided by [chunk_size], rounded up. *)
Theorem chunks_cover (oids : list value) (chunk_size : Z) :
  0 < chunk_size →
  ∃ chunks, activity_import_chunks oids chunk_size = Some chunks
    ∧ concat chunks = oids
    ∧ Z.of_nat (length chunks)
      = (Z.of_nat (length oids) + chunk_size - 1) / chunk_size
    ∧ ∀ k ch, chunks !! k = Some ch →
        ch ≠ [] ∧ Z.of_nat (length ch) ≤ chunk_size
        ∧ ((S k < length chunks)%nat → Z.of_nat (length ch) = chunk_size).
Proof.
  intros Hc. eexists. split; [by apply chunks_pos|].
  destruct (chunks_count (Z.of_nat (length oids)) chunk_size) as (Hq & Hup & Hlo);
    [lia|done|].
  set (q := (Z.of_nat (length oids) + chunk_size - 1) / chunk_size) in *.
  split; [|split].
  - by apply chunks_concat.
  - rewrite length_fmap, length_seq. lia.
  - intros k ch Hk. rewrite length_fmap, length_seq.
    apply list_lookup_fmap_Some in Hk as (k' & Hch & Hk').
    apply lookup_seq in Hk' as [-> Hlt]. cbn [plus] in Hch. subst ch.
    rewrite length_take, length_drop.
    assert (Z.of_nat k * chunk_size < Z.of_nat (length oids)) as Hin by nia.
    split; [|split].
    + intros Hnil%(f_equal length).
      rewrite length_take, length_drop in Hnil. cbn [length] in Hnil. nia.
    + lia.
    + intros Hnext. nia.
Qed.

(** X16.  Every identifier is submitted, each once and in order, exactly
    when [chunk_size] is positive or there is no identifier and
    [chunk_size] is negative: with zero [range] raises, and with a negative
    [chunk_size] nothing is submitted. *)
Theorem chunks_complete_iff (oids : list value) (chunk_size : Z) :
  (∃ chunks, activity_import_chunks oids chunk_size = Some chunks
             ∧ concat chunks = oids)
  ↔ 0 < chunk_size ∨ (chunk_size < 0 ∧ oids = []).
Proof.
  split.
  - intros (chunks & Hrun & Hcat).
    destruct (decide (0 < chunk_size)) as [|Hnp]; [by left|]. right.
    unfold activity_import_chunks, py_range in Hrun.
    destruct (decide (chunk_size = 0)) as [|Hnz]; [done|].
    rewrite decide_False in Hrun by done. cbn [mbind option_bind] in Hrun.
    split; [lia|].
    rewrite range_down_empty in Hrun by lia. injection Hrun as <-. by rewrite <- Hcat.
  - intros [Hpos|[Hneg ->]].
    + eexists. split; [by apply chunks_pos|]. by apply chunks_concat.
    + exists []. split; [|done].
      unfold activity_import_chunks, py_range.
      rewrite !decide_False by lia. cbn [mbind option_bind length].
      by rewrite range_down_empty by lia.
Qed.

(** ** The import runs to its end *)

Lemma pop_is_Some {A : Type} (l : list A) :
  l ≠ [] → ∃ r x, pop l = Some (r, x) ∧ l = r ++ [x].
Proof.
  destruct l as [|x l _] using rev_ind; [done|].
  intros _. exists l, x. by rewrite pop_snoc.
Qed.

Lemma insert_desc_total_key (py2_lt : value → value → option bool)
  (x : activity) (l : list activity) :
  Forall (λ y, act_key y ≠ act_key x) l →
  is_Some (insert_desc py2_lt x l).
Proof.
  induction 1 as [|y l Hy _ IH]; [by eexists|].
  cbn [insert_desc]. unfold act_lt, act_key in *.
  assert (∃ b, (if negb (bool_decide (when x = when y))
                then Some (bool_decide (when x < when y))
                else if negb (bool_decide (field x = field y))
                     then Some (String.ltb (field x) (field y))
                     else if negb (bool_decide (removed x = removed y))
                          then py_lt py2_lt (removed x) (removed y)
                          else if negb (bool_decide (added x = added y))
                               then py_lt py2_lt (added x) (added y)
                               else Some false) = Some b) as [b ->].
  { case_bool_decide as Hw; cbn [negb]; [|by eexists].
    case_bool_decide as Hf; cbn [negb]; [|by eexists].
    destruct Hy. by rewrite Hw, Hf. }
  cbn [mbind option_bind]. destruct b; [|by eexists].
  destruct IH as [r ->]. by eexists.
Qed.

Lemma sorted_desc_total_key (py2_lt : value → value → option bool)
  (l : list activity) :
  NoDup (act_key <$> l) → is_Some (sorted_desc py2_lt l).
Proof.
  induction l as [|x l IH]; [by eexists|].
  rewrite fmap_cons. intros [Hnin Hnd]%NoDup_cons.
  cbn [sorted_desc]. destruct (IH Hnd) as [r Hr]. rewrite Hr.
  cbn [mbind option_bind]. apply insert_desc_total_key.
  apply Forall_forall. intros y Hy Heq. destruct Hnin. rewrite <- Heq.
  apply list_elem_of_fmap_2. by rewrite <- (sorted_desc_perm _ _ _ Hr).
Qed.

Lemma backwards_total (val rm ad : value) :
  (is_list ad = true ∧ is_list rm = true → list_val val) →
  json_ok val = true → json_ok rm = true →
  ∃ nv inc, _activity_backwards val rm ad = Some (nv, inc) ∧
            json_ok nv = true ∧
            (is_list ad = true ∧ is_list rm = true → list_val nv).
Proof.
  intros Hlist Hval Hrm. unfold _activity_backwards.
  destruct ad as [| | | |ad|]; try (eexists _, _; split; [done|];
    split; [done|]; by intros [? ?]).
  destruct rm as [| | | |rm|]; try (eexists _, _; split; [done|];
    split; [done|]; by intros [? ?]).
  assert (∃ l, match val with
               | VNone => Some []
               | VList l => Some l
               | _ => None
               end = Some l ∧ forallb json_ok l = true) as (l & -> & Hl).
  { destruct (Hlist (conj eq_refl eq_refl)) as [->|Hil].
    - by exists [].
    - destruct val; try done. by eexists. }
  cbn [mbind option_bind].
  destruct (undo_added_spec ad l false) as (rest & flag & -> & Hsub & _).
  cbn [mbind option_bind]. eexists _, _. split; [done|]. split.
  - cbn [json_ok]. rewrite forallb_app. apply andb_true_iff. split; [|done].
    apply Is_true_true, forallb_True. apply Is_true_true, forallb_True in Hl.
    apply Forall_forall. intros x Hx. rewrite Forall_forall in Hl.
    apply Hl. by eapply elem_of_sublist.
  - intros _. by right.
Qed.

Section Kept.
Variable dt2ts : Z → value.
Variable acts : list activity.
Hypothesis acts_undoable : Forall (undoable dt2ts acts) acts.

Lemma field_not_reserved (a : activity) : a ∈ acts → field a ∉ reserved.
Proof.
  intros Ha. rewrite Forall_forall in acts_undoable.
  by destruct (acts_undoable a Ha).
Qed.

Lemma corrupted_dict_insert (d : doc) (k : string) (v : value) :
  k ≠ "_corrupted" → corrupted_dict (<[k := v]> d) = corrupted_dict d.
Proof. intros Hk. unfold corrupted_dict. by rewrite lookup_insert_ne. Qed.

Lemma well_kept_insert_reserved (d : doc) (k : string) (v : value) :
  k ∈ reserved → k ≠ "_corrupted" →
  well_kept dt2ts acts d → well_kept dt2ts acts (<[k := v]> d).
Proof.
  intros Hk Hkc (Hjson & Hlists & Hc). split; [|split].
  - apply map_Forall_insert_2; [by left|done].
  - apply Forall_forall. intros a Ha Hlc. rewrite Forall_forall in Hlists.
    rewrite lookup_insert_ne; [by apply Hlists|].
    intros ->. by apply (field_not_reserved a).
  - by rewrite corrupted_dict_insert.
Qed.

Lemma well_kept_delete_id (d : doc) :
  well_kept dt2ts acts d → well_kept dt2ts acts (delete "_id" d).
Proof.
  intros (Hjson & Hlists & Hc). split; [|split].
  - by apply map_Forall_delete.
  - apply Forall_forall. intros a Ha Hlc. rewrite Forall_forall in Hlists.
    rewrite lookup_delete_ne; [by apply Hlists|].
    intros Heq. apply (field_not_reserved a Ha). rewrite <- Heq.
    unfold reserved. set_solver.
  - unfold corrupted_dict. by rewrite lookup_delete_ne.
Qed.

Lemma well_kept_amend (d : doc) (act : activity) (nv : value) :
  act ∈ acts → json_ok nv = true →
  (list_change dt2ts act → list_val nv) →
  well_kept dt2ts acts d → well_kept dt2ts acts (<[field act := nv]> d).
Proof.
  intros Hact Hnv Hlv (Hjson & Hlists & Hc).
  pose proof (field_not_reserved act Hact) as Hres.
  split; [|split].
  - apply map_Forall_insert_2; [by right|done].
  - apply Forall_forall. intros a Ha Hlc. rewrite Forall_forall in Hlists.
    destruct (decide (field a = field act)) as [Heq|Hne].
    + rewrite Heq, lookup_insert_eq. apply Hlv.
      rewrite Forall_forall in acts_undoable.
      destruct (acts_undoable act Hact) as (_ & _ & _ & Hag).
      rewrite Forall_forall in Hag. by apply (Hag a).
    + rewrite lookup_insert_ne by done. by apply Hlists.
  - rewrite corrupted_dict_insert; [done|].
    intros Heq. apply Hres. rewrite Heq. unfold reserved. set_solver.
Qed.

Lemma well_kept_mark (d : doc) (c : gmap string value) :
  well_kept dt2ts acts d →
  well_kept dt2ts acts (<["_corrupted" := VDict c]> d).
Proof.
  intros (Hjson & Hlists & Hc). split; [|split].
  - apply map_Forall_insert_2; [|done]. left. unfold reserved. set_solver.
  - apply Forall_forall. intros a Ha Hlc. rewrite Forall_forall in Hlists.
    rewrite lookup_insert_ne; [by apply Hlists|].
    intros Heq. apply (field_not_reserved a Ha). rewrite <- Heq.
    unfold reserved. set_solver.
  - unfold corrupted_dict. rewrite lookup_insert_eq. by eexists.
Qed.

Lemma has_keys_insert (td d : doc) (k : string) (v : value) :
  has_keys td d → has_keys td (<[k := v]> d).
Proof.
  intros Hk k' Hne Hin. destruct (decide (k = k')) as [->|?].
  - by rewrite lookup_insert_eq.
  - rewrite lookup_insert_ne by done. by apply Hk.
Qed.

Lemma has_keys_delete_id (td d : doc) :
  has_keys td d → has_keys td (delete "_id" d).
Proof.
  intros Hk k' Hne Hin. rewrite lookup_delete_ne by done. by apply Hk.
Qed.

Lemma anchor_first_has_keys (td : doc) (batch : list doc) :
  anchor_first td batch → Forall (has_keys td) batch.
Proof.
  intros (v & tl & -> & Htl). apply Forall_cons. split.
  - apply has_keys_insert. by intros k _ ?.
  - eapply Forall_impl; [exact Htl|]. intros d [_ Hd]. exact Hd.
Qed.

Lemma group_or_split_total (td : doc) (batch : list doc) (w : Z) (e : value) :
  anchor_first td batch → td !! "_end" = Some e → e ≠ VDate w →
  Forall (well_kept dt2ts acts) batch →
  ∃ rest last_doc new_doc,
    group_or_split batch w = Some (rest, last_doc, new_doc) ∧
    Forall (well_kept dt2ts acts) rest ∧
    well_kept dt2ts acts last_doc ∧ well_kept dt2ts acts new_doc ∧
    has_keys td last_doc ∧ has_keys td new_doc.
Proof.
  intros Haf Hend Hne Hwk.
  pose proof (anchor_first_has_keys _ _ Haf) as Hkeys.
  destruct Haf as (v & tl & -> & Htl).
  destruct (pop_is_Some (<["_start" := v]> td :: tl)) as (rest & x & Hpop & Heq);
    [done|].
  rewrite Heq in Hwk, Hkeys.
  apply Forall_app in Hwk as [Hwr Hwx]. apply Forall_cons in Hwx as [Hwx _].
  apply Forall_app in Hkeys as [Hkr Hkx]. apply Forall_cons in Hkx as [Hkx _].
  unfold group_or_split. rewrite Hpop. cbn [mbind option_bind].
  destruct (Hkx "_end") as [e' He']; [done|by eexists|].
  rewrite He'. cbn [mbind option_bind].
  destruct (decide (e' = VDate w)) as [->|Hne'].
  - assert (rest ≠ []) as Hrest.
    { intros ->. injection Heq as <- _.
      rewrite lookup_insert_ne in He' by done. congruence. }
    destruct (pop_is_Some rest Hrest) as (rest' & y & Hpop' & ->).
    rewrite Hpop'. cbn [mbind option_bind].
    apply Forall_app in Hwr as [Hwr Hwy]. apply Forall_cons in Hwy as [Hwy _].
    apply Forall_app in Hkr as [Hkr Hky]. apply Forall_cons in Hky as [Hky _].
    by exists rest', y, x.
  - eexists rest, _, _. split; [done|]. split; [done|].
    assert ("_start" ∈ reserved) as Hs by (unfold reserved; set_solver).
    assert ("_end" ∈ reserved) as Hen by (unfold reserved; set_solver).
    split; [|split; [|split]].
    + by apply well_kept_insert_reserved.
    + apply well_kept_insert_reserved; [done|done|].
      apply well_kept_insert_reserved; [done|done|].
      by apply well_kept_delete_id.
    + by apply has_keys_insert.
    + by do 2 apply has_keys_insert; apply has_keys_delete_id.
Qed.

Lemma loop_body_total (td : doc) (batch : list doc) (log : list logrec)
  (act : activity) (e : value) :
  anchor_first td batch → td !! "_end" = Some e → e ≠ VDate (when act) →
  is_Some (td !! "_oid") → is_Some (td !! field act) → act ∈ acts →
  Forall (well_kept dt2ts acts) batch →
  ∃ batch' log',
    loop_body dt2ts (batch, log) act = Some (batch', log') ∧
    Forall (well_kept dt2ts acts) batch'.
Proof.
  intros Haf Hend Hne Hoid Hfield Hact Hwk.
  destruct (group_or_split_total td batch (when act) e Haf Hend Hne Hwk)
    as (rest & last_doc & new_doc & Hgs & Hwr & Hwl & Hwn & Hkl & Hkn).
  pose proof (field_not_reserved act Hact) as Hres.
  assert (field act ≠ "_id") as Hfid.
  { intros Heq. apply Hres. rewrite Heq. unfold reserved. set_solver. }
  assert ("_oid" ∉ reserved) as Hoidr by (unfold reserved; set_solver).
  pose proof acts_undoable as Hund. rewrite Forall_forall in Hund.
  destruct (Hund act Hact) as (_ & Hjr & Hja & _).
  unfold loop_body. rewrite Hgs. cbn [mbind option_bind].
  destruct (Hkl (field act) Hfid Hfield) as [lv Hlv].
  destruct (Hkn (field act) Hfid Hfield) as [val Hval].
  rewrite Hlv, Hval. cbn [mbind option_bind].
  assert (∀ d k v, well_kept dt2ts acts d → k ∉ reserved →
                   d !! k = Some v → json_ok v = true) as Hjson.
  { intros d k v (Hj & _) Hk Hlook.
    by destruct (map_Forall_lookup_1 _ _ _ _ Hj Hlook). }
  destruct (backwards_total val (to_ts dt2ts (removed act))
              (to_ts dt2ts (added act))) as (nv & inc & Hundo & Hjnv & Hlnv).
  { intros Hlc. destruct Hwn as (_ & Hlists & _).
    rewrite Forall_forall in Hlists.
    pose proof (Hlists act Hact Hlc) as Hl. by rewrite Hval in Hl. }
  { by apply (Hjson new_doc (field act)). }
  { done. }
  rewrite Hundo. cbn [mbind option_bind].
  assert (well_kept dt2ts acts (<[field act := nv]> new_doc)) as Hwn'
    by by apply well_kept_amend.
  destruct inc.
  - unfold mark_corrupted.
    destruct (Hkl "_oid") as [oid Ho]; [done|done|].
    rewrite Ho. cbn [mbind option_bind].
    unfold incon_json_ok. cbn [last_doc_oid incon_removed incon_added last_val].
    rewrite (Hjson last_doc "_oid" oid), Hjr, Hja, (Hjson last_doc (field act) lv)
      by done.
    cbn [andb].
    destruct Hwn' as (Hj' & Hl' & [c Hc]). rewrite Hc.
    cbn [mbind option_bind]. eexists _, _. split; [done|].
    apply Forall_app. split; [done|].
    apply Forall_cons. split; [done|]. apply Forall_cons. split; [|constructor].
    apply well_kept_mark. split; [done|]. split; [done|]. by eexists.
  - eexists _, _. split; [done|].
    apply Forall_app. split; [done|].
    apply Forall_cons. split; [done|]. apply Forall_cons. by split; [|constructor].
Qed.

End Kept.

Lemma for_each_loop_total (dt2ts : Z → value) (acts : list activity)
  (td : doc) (e : value) (l : list activity) :
  Forall (undoable dt2ts acts) acts →
  td !! "_end" = Some e → is_Some (td !! "_oid") →
  Forall (λ a, a ∈ acts ∧ e ≠ VDate (when a) ∧ is_Some (td !! field a)) l →
  ∀ batch log,
    anchor_first td batch → Forall (well_kept dt2ts acts) batch →
    is_Some (for_each (loop_body dt2ts) (batch, log) l).
Proof.
  intros Hund Hend Hoid. induction 1 as [|a l (Ha & Hne & Hf) _ IH];
    intros batch log Haf Hwk; [by eexists|].
  destruct (loop_body_total dt2ts acts Hund td batch log a e)
    as (batch' & log' & Hbody & Hwk'); try done.
  cbn [for_each]. rewrite Hbody. cbn [mbind option_bind].
  apply IH; [|done]. by eapply loop_body_anchor_first.
Qed.

Lemma reconstruct_total (ts2dt : value → option value) (dt2ts : Z → value)
  (py2_lt : value → value → option bool) (time_doc : doc)
  (acts : list activity) (ts : value) (t : Z) :
  time_doc !! "_start" = Some ts → ts2dt ts = Some (VDate t) →
  importable dt2ts time_doc acts →
  is_Some (reconstruct ts2dt dt2ts py2_lt time_doc acts).
Proof.
  intros Hts Htd (Hoid & Hend & Hwk & Hnd & Hund).
  destruct (time_doc !! "_end") as [e|] eqn:He; [|done].
  unfold reconstruct. rewrite Hts. cbn [mbind option_bind].
  rewrite Htd. cbn [mbind option_bind].
  set (td := <["_start" := VDate t]> time_doc).
  rewrite filter_acts_filter. cbn [mbind option_bind].
  destruct (sorted_desc_total_key py2_lt (filter (matches t td) acts))
    as [l Hl].
  { eapply sublist_NoDup; [exact Hnd|]. apply fmap_sublist, sublist_filter. }
  rewrite Hl. cbn [mbind option_bind].
  apply (for_each_loop_total dt2ts acts td e); try done.
  - unfold td. by rewrite lookup_insert_ne.
  - unfold td. by rewrite lookup_insert_ne.
  - apply Forall_forall. intros a Ha.
    rewrite (sorted_desc_perm _ _ _ Hl) in Ha.
    apply list_elem_of_filter in Ha as [[_ Hf] Ha].
    rewrite Forall_forall in Hend. by split; [|split; [apply Hend|]].
  - exists (VDate t), []. unfold td. by rewrite insert_insert_eq.
  - apply Forall_singleton. apply well_kept_insert_reserved; try done.
    unfold reserved. set_solver.
Qed.

(** X17.  [_activity_import_doc] returns, with a batch and a log, on a
    document whose [_start] converts to a [datetime] and that is importable
    with the activities: no lookup, comparison, undo or dump to the
    inconsistency log raises. *)
Theorem import_doc_returns (ts2dt : value → option value)
  (dt2ts : Z → value) (cfield : option string)
  (py2_lt : value → value → option bool)
  (time_doc : doc) (acts : list activity) (ts : value) (t : Z) :
  time_doc !! "_start" = Some ts → ts2dt ts = Some (VDate t) →
  importable dt2ts time_doc acts →
  ∃ batch log,
    _activity_import_doc ts2dt dt2ts cfield py2_lt time_doc acts
    = Some (batch, log).
Proof.
  intros Hts Htd Himp. unfold _activity_import_doc.
  destruct (reconstruct_total ts2dt dt2ts py2_lt time_doc acts ts t Hts Htd Himp)
    as [[b lg] ->].
  cbn [mbind option_bind].
  destruct (creation_step ts2dt cfield py2_lt b); by eexists _, _.
Qed.

Lemma import_body_total (ts2dt : value → option value)
  (dt2ts : Z → value) (cfield : option string)
  (py2_lt : value → value → option bool)
  (activities : list (value * list activity)) (d : doc)
  (st : list value * list doc * list logrec) :
  stored_importable ts2dt dt2ts activities d →
  is_Some (import_body ts2dt dt2ts cfield py2_lt activities st d).
Proof.
  intros (oid & ts & t & Hoid & [_id Hid] & [h Hh] & Hts & Htd & Himp).
  destruct st as [[r s] l]. unfold import_body.
  rewrite Hoid. cbn [mbind option_bind]. rewrite Hid. cbn [mbind option_bind].
  rewrite lookup_delete_ne, Hh by done. cbn [mbind option_bind].
  fold (stripped d). unfold _activity_import_doc.
  destruct (reconstruct_total ts2dt dt2ts py2_lt (stripped d)
              (setdefault activities oid) ts t) as [[b lg] ->]; [|done|done|].
  { unfold stripped. by rewrite !lookup_delete_ne. }
  cbn [mbind option_bind].
  destruct (creation_step ts2dt cfield py2_lt b) as [[|u us]|];
    cbn [mbind option_bind]; try by eexists.
  destruct b; by eexists.
Qed.

(** X18.  [_activity_import] reaches the calls of [cube_remove] and
    [cube_save] when every stored document is importable: its loop raises
    on none of them. *)
Theorem import_returns (ts2dt : value → option value)
  (dt2ts : Z → value) (cfield : option string)
  (py2_lt : value → value → option bool)
  (docs : list doc) (activities : list (value * list activity)) :
  Forall (stored_importable ts2dt dt2ts activities) docs →
  ∃ remove_ids save_objects log,
    _activity_import ts2dt dt2ts cfield py2_lt docs activities
    = Some (remove_ids, save_objects, log).
Proof.
  unfold _activity_import. generalize (@nil value, @nil doc, @nil logrec).
  intros st Hdocs. revert st.
  induction Hdocs as [|d docs Hd _ IH]; intros st.
  - destruct st as [[r s] l]. by eexists _, _, _.
  - destruct (import_body_total ts2dt dt2ts cfield py2_lt activities d st Hd)
      as [st' Hst].
    cbn [for_each]. rewrite Hst. cbn [mbind option_bind]. apply IH.
Qed.

(** ** The properties on the scenarios *)

Lemma run_status_opened :
  _activity_import_doc ts2dt_std dt2ts_std None py2_lt_std anchor_200 status_opened
  = Some ([opened_at_150; new_until_150], [LogWarn]).
Proof. by vm_compute. Qed.

Lemma run_stored_200 :
  _activity_import ts2dt_std dt2ts_std None py2_lt_std [stored_200]
                   [(VNum 1, status_opened)]
  = Some ([VStr "5f1"], [opened_at_150; new_until_150], [LogWarn]).
Proof. by vm_compute. Qed.

Lemma status_opened_names_fields : Forall names_field status_opened.
Proof. repeat constructor; discriminate. Qed.

Lemma undo_inverse_witness :
  (∃ back, _activity_backwards (VList [VStr "b"; VStr "c"])
             (VList [VStr "a"]) (VList [VStr "c"])
           = Some (VList back, false) ∧ back ≡ₚ [VStr "a"; VStr "b"])
  ∧ _activity_backwards (VStr "new") (VStr "open") (VStr "new")
    = Some (VStr "open", false).
Proof.
  destruct undo_inverse as [Hlist Hscalar]. split.
  - apply (Hlist [VStr "a"; VStr "b"] [VStr "c"] [VStr "a"]). reflexivity.
  - apply (Hscalar (VStr "open") (VStr "new") (VStr "open")).
    + intros [H _]. discriminate H.
    + reflexivity.
Defined.

Lemma unmatched_activities_ignored_witness :
  _activity_import_doc ts2dt_std dt2ts_std None py2_lt_std anchor_200 status_opened
  = _activity_import_doc ts2dt_std dt2ts_std None py2_lt_std anchor_200
      (Act 300 "status" (VStr "open") (VStr "closed") :: status_opened
       ++ [Act 100 "owner" VNone (VStr "ann")]).
Proof.
  apply (unmatched_activities_ignored ts2dt_std dt2ts_std None py2_lt_std
           anchor_200 (VNum 200) 200).
  - reflexivity.
  - reflexivity.
  - by vm_compute.
Defined.

Lemma reconstruction_frame_witness :
  (∀ anchor, head [opened_at_150; new_until_150] = Some anchor →
             ∀ k, k ≠ "_start" → anchor !! k = anchor_200 !! k)
  ∧ (∀ k, k ∉ reserved → (∀ a, a ∈ status_opened → field a ≠ k) →
          Forall (λ d : doc, d !! k = anchor_200 !! k)
                 [opened_at_150; new_until_150]).
Proof.
  exact (reconstruction_frame ts2dt_std dt2ts_std None py2_lt_std
           anchor_200 status_opened _ _ run_status_opened).
Defined.

Lemma version_keys_witness :
  Forall (λ d : doc, ∀ k, k ≠ "_id" → k ≠ "_corrupted" →
                          (is_Some (d !! k) ↔ is_Some (anchor_200 !! k)))
         [opened_at_150; new_until_150]
  ∧ Forall (λ d : doc, d !! "_id" = None) (tail [opened_at_150; new_until_150]).
Proof.
  exact (version_keys ts2dt_std dt2ts_std None py2_lt_std
           anchor_200 status_opened _ _ run_status_opened).
Defined.

Lemma version_boundaries_witness :
  ∃ ws : list Z,
    ends [opened_at_150; new_until_150] = Some ∘ VDate <$> ws ∧
    StronglySorted earlier ws ∧
    (∀ w, w ∈ ws ↔
          ∃ a, a ∈ status_opened ∧
               matches 200 (<["_start" := VDate 200]> anchor_200) a ∧
               when a = w) ∧
    length [opened_at_150; new_until_150] = S (length ws).
Proof.
  apply (version_boundaries ts2dt_std dt2ts_std None py2_lt_std
           anchor_200 (VNum 200) 200 status_opened _ [LogWarn]).
  - exact status_opened_names_fields.
  - reflexivity.
  - reflexivity.
  - exact run_status_opened.
  - discriminate.
Defined.

Lemma status_not_reserved : "status" ∉ reserved.
Proof.
  unfold reserved. rewrite !not_elem_of_cons.
  repeat split; try discriminate. apply not_elem_of_nil.
Qed.

Lemma oid_not_reserved : "_oid" ∉ reserved.
Proof.
  unfold reserved. rewrite !not_elem_of_cons.
  repeat split; try discriminate. apply not_elem_of_nil.
Qed.

Lemma versions_differ_by_activities_witness :
  new_until_150 !! "_oid" = opened_at_150 !! "_oid".
Proof.
  apply (versions_differ_by_activities ts2dt_std dt2ts_std None py2_lt_std
           anchor_200 (VNum 200) 200 status_opened
           [opened_at_150; new_until_150] [LogWarn]
           status_opened_names_fields eq_refl eq_refl run_status_opened
           0%nat opened_at_150 new_until_150 150 "_oid").
  - reflexivity.
  - reflexivity.
  - reflexivity.
  - exact oid_not_reserved.
  - intros a Ha%list_elem_of_singleton _ _. subst a. discriminate.
Defined.

Lemma version_holds_removed_witness :
  new_until_150 !! "status" = Some (VStr "new").
Proof.
  apply (version_holds_removed ts2dt_std dt2ts_std None py2_lt_std
           anchor_200 (VNum 200) 200 status_opened
           [opened_at_150; new_until_150] [LogWarn]
           status_opened_names_fields eq_refl eq_refl run_status_opened
           new_until_150 150 "status" (VStr "new")).
  - apply list_elem_of_singleton. reflexivity.
  - reflexivity.
  - exact status_not_reserved.
  - exists (Act 150 "status" (VStr "new") (VStr "open")).
    split; [by apply list_elem_of_singleton|].
    split; [|by split]. apply (bool_decide_unpack _). by vm_compute.
  - intros a Ha%list_elem_of_singleton _ _ _. subst a. split; [|reflexivity].
    intros [H _]. discriminate H.
Defined.

Lemma marks_match_log_witness :
  (∀ i, LogIncon i ∈ [LogWarn] →
        ∃ d, d ∈ tail [opened_at_150; new_until_150] ∧
             marked d (incon_field i))
  ∧ Forall (provenance anchor_200 [LogWarn]) [opened_at_150; new_until_150]
  ∧ ((∀ i, LogIncon i ∉ [LogWarn]) →
     Forall (λ d : doc, d !! "_corrupted" = anchor_200 !! "_corrupted")
            [opened_at_150; new_until_150]).
Proof.
  apply (marks_match_log ts2dt_std dt2ts_std None py2_lt_std
           anchor_200 status_opened).
  - repeat constructor; discriminate.
  - exact run_status_opened.
Defined.

Lemma order_irrelevant_witness :
  _activity_import_doc ts2dt_std dt2ts_std None py2_lt_std anchor_200
    [Act 150 "status" (VStr "new") (VStr "assigned");
     Act 180 "status" (VStr "assigned") (VStr "open")]
  = _activity_import_doc ts2dt_std dt2ts_std None py2_lt_std anchor_200
      [Act 180 "status" (VStr "assigned") (VStr "open");
       Act 150 "status" (VStr "new") (VStr "assigned")].
Proof.
  apply order_irrelevant.
  - apply perm_swap.
  - apply NoDup_cons. split; [|apply NoDup_singleton].
    intros H%list_elem_of_singleton. discriminate H.
Defined.

Lemma import_collects_witness :
  ∃ batches,
    Forall2 (λ d b, ∃ oid lg,
               d !! "_oid" = Some oid ∧ is_Some (d !! "_hash") ∧
               _activity_import_doc ts2dt_std dt2ts_std None py2_lt_std
                 (stripped d) (setdefault [(VNum 1, status_opened)] oid)
               = Some (b, lg))
            [stored_200] batches ∧
    [opened_at_150; new_until_150] = concat batches ∧
    Some <$> [VStr "5f1"] = removed_ids [stored_200] batches.
Proof.
  exact (import_collects ts2dt_std dt2ts_std None py2_lt_std _ _ _ _ _
           run_stored_200).
Defined.

Lemma import_saves_and_removes_witness :
  Forall (λ v : doc, v !! "_id" = None ∧ v !! "_hash" = None)
         [opened_at_150; new_until_150]
  ∧ Some <$> [VStr "5f1"] `sublist_of` (λ d : doc, d !! "_id") <$> [stored_200]
  ∧ ([VStr "5f1"] = [] ↔ [opened_at_150; new_until_150] = []).
Proof.
  exact (import_saves_and_removes ts2dt_std dt2ts_std None py2_lt_std _ _ _ _ _
           run_stored_200).
Defined.

Lemma import_needs_ids_witness :
  _activity_import ts2dt_std dt2ts_std None py2_lt_std
                   [stored_200; anchor_200] [(VNum 1, status_opened)]
  = None.
Proof.
  apply (import_needs_ids ts2dt_std dt2ts_std None py2_lt_std _ _ anchor_200).
  - apply elem_of_cons. right. apply list_elem_of_singleton. reflexivity.
  - right. left. reflexivity.
Defined.

Lemma stored_ok_scenarios : Forall stored_ok [stored_300; other_250; anchor_200].
Proof.
  repeat apply Forall_cons_2; [| | |constructor];
    (split; [eexists; split; reflexivity|eexists; reflexivity]).
Qed.

Lemma anchors_are_oldest_witness :
  ∃ docs, select_anchors py2_lt_std [stored_300; other_250; anchor_200]
          = Some docs
    ∧ NoDup docs.*1
    ∧ Forall (λ e, oldest_of [stored_300; other_250; anchor_200] e.1 e.2) docs
    ∧ ∀ d oid, d ∈ [stored_300; other_250; anchor_200] →
               d !! "_oid" = Some oid → oid ∈ docs.*1.
Proof.
  apply anchors_are_oldest.
  - intros x y. reflexivity.
  - exact stored_ok_scenarios.
Defined.

Lemma anchors_need_oid_witness :
  select_anchors py2_lt_std [anchor_200; ∅; stored_300] = None.
Proof.
  apply (anchors_need_oid py2_lt_std _ ∅).
  - apply elem_of_cons. right. apply elem_of_cons. by left.
  - intros oid H. by rewrite lookup_empty in H.
Defined.

Lemma chunks_cover_witness :
  ∃ chunks,
    activity_import_chunks [VNum 1; VNum 2; VNum 3] 2 = Some chunks
    ∧ concat chunks = [VNum 1; VNum 2; VNum 3]
    ∧ Z.of_nat (length chunks) = (Z.of_nat 3 + 2 - 1) / 2
    ∧ ∀ k ch, chunks !! k = Some ch →
        ch ≠ [] ∧ Z.of_nat (length ch) ≤ 2
        ∧ ((S k < length chunks)%nat → Z.of_nat (length ch) = 2).
Proof. apply (chunks_cover [VNum 1; VNum 2; VNum 3] 2). lia. Defined.

Lemma chunks_complete_iff_witness :
  ∃ chunks, activity_import_chunks [VNum 1; VNum 2; VNum 3] 2 = Some chunks
            ∧ concat chunks = [VNum 1; VNum 2; VNum 3].
Proof. apply chunks_complete_iff. left. lia. Defined.

Lemma importable_scenario (d : doc) :
  d !! "_oid" = Some (VNum 1) → d !! "_end" = Some VNone →
  d !! "_corrupted" = None →
  map_Forall (λ k v, k ∈ reserved ∨ json_ok v = true) d →
  importable dt2ts_std d status_opened.
Proof.
  intros Hoid Hend Hc Hjson. split; [by rewrite Hoid|]. split; [|split; [|split]].
  - rewrite Hend. apply Forall_singleton. discriminate.
  - split; [done|]. split.
    + apply Forall_singleton. intros [H _]. discriminate H.
    + unfold corrupted_dict. rewrite Hc. by eexists.
  - apply NoDup_singleton.
  - apply Forall_singleton. split; [exact status_not_reserved|].
    split; [reflexivity|]. split; [reflexivity|].
    apply Forall_singleton. by intros _ [H _].
Qed.

Lemma import_doc_returns_witness :
  ∃ batch log,
    _activity_import_doc ts2dt_std dt2ts_std None py2_lt_std anchor_200
                         status_opened
    = Some (batch, log).
Proof.
  apply (import_doc_returns ts2dt_std dt2ts_std None py2_lt_std
           anchor_200 status_opened (VNum 200) 200).
  - reflexivity.
  - reflexivity.
  - apply importable_scenario; [reflexivity|reflexivity|reflexivity|].
    apply (bool_decide_unpack _). by vm_compute.
Defined.

Lemma import_returns_witness :
  ∃ remove_ids save_objects log,
    _activity_import ts2dt_std dt2ts_std None py2_lt_std [stored_200]
                     [(VNum 1, status_opened)]
    = Some (remove_ids, save_objects, log).
Proof.
  apply import_returns. apply Forall_singleton.
  exists (VNum 1), (VNum 200), 200.
  split; [reflexivity|]. split; [by eexists|]. split; [by eexists|].
  split; [reflexivity|]. split; [reflexivity|].
  apply importable_scenario; [reflexivity|reflexivity|reflexivity|].
  apply (bool_decide_unpack _). by vm_compute.
Defined.
